(** * Wildnet Solana pool monitor: a shallow embedding and its properties

    The development follows the JavaScript sources of the repository:

    - [src/utils/webhookHandler.js]  (class [WebhookHandler])
    - [src/utils/databaseClient.js]  (class [DatabaseClient])
    - [src/utils/rateLimiter.js]     (class [RateLimiter])
    - [src/utils/retryHelper.js]     (class [RetryHelper])
    - [src/utils/defiLlamaClient.js] (class [DefiLlamaClient])
    - [src/utils/jupiterClient.js]   (class [JupiterClient])
    - [server.js]                    (the modular server, and the earlier
                                      single-file server kept next to it)

    Conventions of the embedding.

    - A JavaScript value that may be [undefined] (an absent property) is an
      [option]; a string is falsy exactly when it is empty, a number exactly
      when it is zero.
    - JSON numbers are rationals ([Q]) where fractions matter (APY, TVL) and
      integers ([Z]) for times.
    - [async] code runs to completion one step after the other, so it is a
      state-and-exception computation over a [World]: the clock, the pending
      answers of the two HTTP services, the rows of the database and the
      shared rate limiter object.
    - [console.log] has no effect on any value and is left out. *)

From Stdlib Require Import List String Ascii ZArith QArith Lia Bool Arith Sorted.
Import ListNotations.

Local Open Scope string_scope.
Local Open Scope Z_scope.
Local Open Scope nat_scope.
Local Open Scope list_scope.

Set Implicit Arguments.

(* ================================================================== *)
(** * Part I: definitions *)

(* ------------------------------------------------------------------ *)
(** ** JavaScript values and exceptions *)

Module Js.

(** The errors that the code raises or receives. *)
Inductive Error : Type :=
| TypeError (message : string)
| ApiError (message : string) (status : Z)
| FetchFailed
| JsonSyntaxError
| PrismaValidationError
| PrismaUniqueViolation (column : string)
| PrismaConnectionError.

(** Outcome of evaluating an expression or awaiting a promise. *)
Inductive Result (A : Type) : Type :=
| Ok (value : A)
| Throw (error : Error).
Arguments Ok {A} value.
Arguments Throw {A} error.

(** [try { body } catch (error) { handler }] around an effect-free body. *)
Definition try_catch {A} (body : Result A) (handler : Error -> Result A) : Result A :=
  match body with
  | Ok v => Ok v
  | Throw e => handler e
  end.

(** Truthiness of a possibly absent string. *)
Definition truthy (s : option string) : bool :=
  match s with
  | Some s => negb (String.eqb s "")
  | None => false
  end.

(** [a || b] on possibly absent strings. *)
Definition or_else (a b : option string) : option string :=
  if truthy a then a else b.

(** [a || 'literal'] *)
Definition or_default (a : option string) (b : string) : string :=
  if truthy a then match a with Some s => s | None => b end else b.

(** [a !== b] where [a] is a string and [b] may be absent. *)
Definition strict_neq (a : string) (b : option string) : bool :=
  match b with
  | Some b => negb (String.eqb a b)
  | None => true
  end.

(** [a === b] where both may be absent. *)
Definition strict_eq (a b : option string) : bool :=
  match a, b with
  | Some a, Some b => String.eqb a b
  | None, None => true
  | _, _ => false
  end.

(** [array.includes(x)] on an array of strings. *)
Definition includes (l : list string) (x : string) : bool :=
  existsb (String.eqb x) l.

(** [set.add(x)]: a JavaScript [Set] iterates in insertion order and
    ignores a value it already holds. *)
Definition Set_add (s : list string) (x : string) : list string :=
  if includes s x then s else s ++ [x].

(** [[...new Set(iterable)]] and [Array.from(new Set(...))] *)
Definition Set_from (l : list string) : list string :=
  fold_left Set_add l [].

(** [array.find(p)] *)
Definition find {A} (p : A -> bool) (l : list A) : option A := List.find p l.

(** Largest time value of a [Date], in milliseconds. *)
Definition maxTimeValue : Z := 8640000000000000%Z.

(** [new Date(seconds * 1000)]: [None] is the invalid date, which is what
    an absent timestamp (NaN) and an out-of-range product give. *)
Definition Date_of_seconds (seconds : option Z) : option Z :=
  match seconds with
  | None => None
  | Some t =>
      let ms := (t * 1000)%Z in
      if (Z.abs ms <=? maxTimeValue)%Z then Some ms else None
  end.

(** [x || null] on a possibly absent number. *)
Definition num_or_null (x : option Q) : option Q :=
  match x with
  | Some q => if Qeq_bool q 0 then None else Some q
  | None => None
  end.

(** [x || d] on a possibly absent number. *)
Definition num_or (x : option Q) (d : Q) : Q :=
  match x with
  | Some q => if Qeq_bool q 0 then d else q
  | None => d
  end.

(** [a > b] on numbers. *)
Definition num_gt (a b : Q) : bool := negb (Qle_bool a b).

(** [s.toLowerCase()] on ASCII text. *)
Definition lower_ascii (c : ascii) : ascii :=
  let n := nat_of_ascii c in
  if (65 <=? n) && (n <=? 90) then ascii_of_nat (n + 32) else c.

Fixpoint toLowerCase (s : string) : string :=
  match s with
  | EmptyString => EmptyString
  | String c s' => String (lower_ascii c) (toLowerCase s')
  end.

(** [s.includes(sub)] on strings. *)
Definition str_includes (s sub : string) : bool :=
  match String.index 0 sub s with
  | Some _ => true
  | None => false
  end.

(** [s?.toLowerCase() || ''] *)
Definition lower_or_empty (s : option string) : string :=
  match s with
  | Some s => toLowerCase s
  | None => ""
  end.

End Js.
Import Js.

(* ------------------------------------------------------------------ *)
(** ** Data model of the parser *)

(** One entry of [transaction.tokenTransfers]. *)
Record TokenTransfer : Type := mkTransfer {
  tt_mint : option string;
  tt_tokenAmount : option Q
}.

(** One entry of [transaction.accountData]. *)
Record AccountData : Type := mkAccountData {
  ad_account : option string
}.

(** A transaction notification as the webhook delivers it. *)
Record Transaction : Type := mkTransaction {
  tx_type : option string;
  tx_source : option string;
  tx_signature : option string;
  tx_timestamp : option Z;
  tx_tokenTransfers : option (list TokenTransfer);
  tx_accountData : option (list AccountData);
  tx_accounts : option (list string);
  tx_feePayer : option string
}.

(** An element of the webhook batch: JSON [null], or an object.  A JSON
    number, string or boolean has none of the properties the code reads, so
    it behaves as the object with every field absent. *)
Inductive Item : Type :=
| JNull
| JObject (transaction : Transaction).

(** The object returned by [parsePoolFromTransaction]. *)
Record PoolCandidate : Type := mkCandidate {
  pc_tokenA : string;
  pc_tokenB : string;
  pc_poolAddress : option string;
  pc_signature : option string;
  pc_timestamp : option Z;
  pc_source : string
}.

(** The mint of wrapped SOL and the program ids the parser skips. *)
Definition SOL_MINT : string := "So11111111111111111111111111111111111111112".
Definition TOKEN_PROGRAM : string := "TokenkegQfeZyiNwAJbNbGKPFXCWuBvf9Ss623VQ5DA".
Definition SYSTEM_PROGRAM : string := "11111111111111111111111111111111".
Definition ASSOCIATED_TOKEN_PROGRAM : string := "ATokenGPvbdGVxr1b2hvZbsiqW5xWH25efTNsLJA8knL".
Definition RAYDIUM_PROGRAM : string := "675kPX9MHTjS2zt1qfr1NYHuzeLXfQM9H24wFSUt1Mp8".

(** [mint && mint !== 'So11111111111111111111111111111111111111112'] *)
Definition isTokenMint (mint : option string) : bool :=
  truthy mint && negb (strict_eq mint (Some SOL_MINT)).

(** [mints.filter(mint => mint && mint !== SOL)]; what is kept is a
    non-empty string. *)
Fixpoint keepTokenMints (mints : list (option string)) : list string :=
  match mints with
  | [] => []
  | mint :: rest =>
      if isTokenMint mint
      then match mint with
           | Some s => s :: keepTokenMints rest
           | None => keepTokenMints rest
           end
      else keepTokenMints rest
  end.

(** The chain of [account !== '...'] tests on the fixed identifiers. *)
Definition notKnownProgram (account : string) : bool :=
  negb (String.eqb account SOL_MINT) &&
  negb (String.eqb account TOKEN_PROGRAM) &&
  negb (String.eqb account SYSTEM_PROGRAM) &&
  negb (String.eqb account ASSOCIATED_TOKEN_PROGRAM) &&
  negb (String.eqb account RAYDIUM_PROGRAM).

(* ------------------------------------------------------------------ *)
(** ** [WebhookHandler.parsePoolFromTransaction] (webhookHandler.js) *)

Module WebhookHandlerParse.

(** The predicate handed to [transaction.accountData?.find]. *)
Definition isPoolAccount (transaction : Transaction) (tokenMints : list string)
           (account : AccountData) : bool :=
  match ad_account account with
  | None => false
  | Some a =>
      truthy (Some a) &&
      strict_neq a (tx_feePayer transaction) &&
      negb (includes tokenMints a) &&
      notKnownProgram a
  end.

(** The body of the [try] block. *)
Definition parsePoolFromTransaction_try (transaction : Item)
  : Result (option PoolCandidate) :=
  match transaction with
  | JNull => Throw (TypeError "Cannot read properties of null (reading 'type')")
  | JObject transaction =>
      match tx_tokenTransfers transaction with
      | None => Ok None
      | Some tokenTransfers =>
          if List.length tokenTransfers <? 2 then Ok None
          else
            let tokenMints := Set_from (keepTokenMints (map tt_mint tokenTransfers)) in
            match tokenMints with
            | tokenMints0 :: tokenMints1 :: _ =>
                let poolAddress :=
                  match tx_accountData transaction with
                  | None => None
                  | Some accountData =>
                      match find (isPoolAccount transaction tokenMints) accountData with
                      | None => None
                      | Some account => ad_account account
                      end
                  end in
                let detectedPoolAddress := or_else poolAddress (tx_signature transaction) in
                Ok (Some {| pc_tokenA := tokenMints0;
                            pc_tokenB := tokenMints1;
                            pc_poolAddress := detectedPoolAddress;
                            pc_signature := tx_signature transaction;
                            pc_timestamp := Date_of_seconds (tx_timestamp transaction);
                            pc_source := or_default (tx_source transaction) "unknown" |})
            | _ => Ok None
            end
      end
  end.

(** [try { ... } catch (error) { return null; }] *)
Definition parsePoolFromTransaction (transaction : Item)
  : Result (option PoolCandidate) :=
  try_catch (parsePoolFromTransaction_try transaction) (fun _ => Ok None).

End WebhookHandlerParse.

(* ------------------------------------------------------------------ *)
(** ** [parsePoolFromTransaction] of the single-file server (server.js) *)

Module LegacyServerParse.

(** The predicate handed to [transaction.accounts?.find]. *)
Definition isPoolAccount (transaction : Transaction) (finalTokens : list string)
           (account : string) : bool :=
  strict_neq account (tx_feePayer transaction) &&
  negb (includes finalTokens account) &&
  notKnownProgram account.

(** The body of the [try] block. *)
Definition parsePoolFromTransaction_try (transaction : Item)
  : Result (option PoolCandidate) :=
  match transaction with
  | JNull => Throw (TypeError "Cannot read properties of null (reading 'type')")
  | JObject transaction =>
      match tx_tokenTransfers transaction with
      | None => Ok None
      | Some transfers =>
          let isPoolCreation := strict_eq (tx_type transaction) (Some "CREATE_POOL") in
          if negb isPoolCreation then Ok None
          else
            let finalTokens := Set_from (keepTokenMints (map tt_mint transfers)) in
            match finalTokens with
            | finalTokens0 :: finalTokens1 :: _ =>
                let poolAddress :=
                  match tx_accounts transaction with
                  | None => None
                  | Some accounts => find (isPoolAccount transaction finalTokens) accounts
                  end in
                let detectedPoolAddress := or_else poolAddress (tx_signature transaction) in
                Ok (Some {| pc_tokenA := finalTokens0;
                            pc_tokenB := finalTokens1;
                            pc_poolAddress := detectedPoolAddress;
                            pc_signature := tx_signature transaction;
                            pc_timestamp := Date_of_seconds (tx_timestamp transaction);
                            pc_source := or_default (tx_source transaction) "unknown" |})
            | _ => Ok None
            end
      end
  end.

(** [try { ... } catch (error) { return null; }] *)
Definition parsePoolFromTransaction (transaction : Item)
  : Result (option PoolCandidate) :=
  try_catch (parsePoolFromTransaction_try transaction) (fun _ => Ok None).

End LegacyServerParse.

(* ------------------------------------------------------------------ *)
(** ** Asynchronous code: state and exceptions *)

Module Async.

(** An [async] function over a state [S]: it ends with a value or a thrown
    error, and leaves a state behind. *)
Definition M (S A : Type) : Type := S -> Result A * S.

Definition ret {S A} (a : A) : M S A := fun s => (Ok a, s).

Definition throw {S A} (e : Error) : M S A := fun s => (Throw e, s).

Definition bind {S A B} (m : M S A) (k : A -> M S B) : M S B :=
  fun s =>
    match m s with
    | (Ok a, s') => k a s'
    | (Throw e, s') => (Throw e, s')
    end.

(** [try { body } catch (error) { handler }] *)
Definition try_catch_async {S A} (body : M S A) (handler : Error -> M S A) : M S A :=
  fun s =>
    match body s with
    | (Ok a, s') => (Ok a, s')
    | (Throw e, s') => handler e s'
    end.

(** A synchronous call inside an [async] function. *)
Definition lift {S A} (r : Result A) : M S A := fun s => (r, s).

End Async.
Import Async.

Notation "x <- m ;; k" := (bind m (fun x => k))
  (at level 61, m at next level, right associativity).
Notation "m ;;; k" := (bind m (fun _ => k))
  (at level 61, right associativity).

(* ------------------------------------------------------------------ *)
(** ** [RetryHelper.withBackoff] (retryHelper.js) *)

Module RetryHelper.
Section WithBackoff.

Context {S A : Type}.

(** [await new Promise(resolve => setTimeout(resolve, delay))] on the state. *)
Variable setTimeout : Z -> M S unit.

(** [for (let i = 0; i < maxRetries; i++) { ... }], entered at index [i]
    with [remaining = maxRetries - i] rounds left.  Leaving the loop without
    a [return] gives [undefined], here [None]. *)
Fixpoint withBackoff_loop (fn : M S A) (maxRetries : nat) (remaining i : nat)
  : M S (option A) :=
  match remaining with
  | O => ret None
  | Datatypes.S remaining' =>
      try_catch_async
        (v <- fn ;; ret (Some v))
        (fun error =>
           if (Z.of_nat i =? Z.of_nat maxRetries - 1)%Z then throw error
           else
             let delay := (2 ^ Z.of_nat i * 1000)%Z in
             setTimeout delay ;;;
             withBackoff_loop fn maxRetries remaining' (Datatypes.S i))
  end.

Definition withBackoff (fn : M S A) (maxRetries : nat) : M S (option A) :=
  withBackoff_loop fn maxRetries maxRetries 0.

End WithBackoff.

(** The default [maxRetries = 3]. *)
Definition defaultMaxRetries : nat := 3.

End RetryHelper.

(* ------------------------------------------------------------------ *)
(** ** The world the server runs in *)

(** An HTTP response: its status and, when the body parses as JSON of the
    expected shape, the parsed body ([None]: [response.json()] rejects). *)
Record Response (B : Type) : Type := mkResponse {
  resp_status : Z;
  resp_json : option B
}.

(** [response.ok] *)
Definition resp_ok {B} (r : Response B) : bool :=
  (200 <=? resp_status r)%Z && (resp_status r <=? 299)%Z.

(** One row of the listing served by [https://yields.llama.fi/pools]. *)
Record LlamaPool : Type := mkLlamaPool {
  lp_chain : option string;
  lp_pool : option string;
  lp_symbol : option string;
  lp_project : option string;
  lp_apy : option Q;
  lp_tvlUsd : option Q
}.

(** The JSON document of that listing: [{ data: [...] }]. *)
Record LlamaBody : Type := mkLlamaBody {
  lb_data : option (list LlamaPool)
}.

(** One token of the Jupiter search answer. *)
Record JupToken : Type := mkJupToken {
  jt_id : option string;
  jt_symbol : option string;
  jt_name : option string;
  jt_decimals : option Q;
  jt_usdPrice : option Q;
  jt_icon : option string;
  jt_tags : option (list string);
  jt_isVerified : option bool;
  jt_mcap : option Q;
  jt_fdv : option Q;
  jt_liquidity : option Q;
  jt_holderCount : option Q;
  jt_totalSupply : option Q;
  jt_circSupply : option Q;
  jt_website : option string;
  jt_twitter : option string;
  jt_telegram : option string
}.

(** The object built by [JupiterClient.getFullTokenData]. *)
Record FullTokenData : Type := mkFullTokenData {
  ft_mintAddress : option string;
  ft_symbol : string;
  ft_name : string;
  ft_decimals : Q;
  ft_price : Q;
  ft_logoURI : option string;
  ft_tags : list string;
  ft_verified : bool;
  ft_marketCap : Q;
  ft_fdv : Q;
  ft_liquidity : Q;
  ft_holderCount : Q;
  ft_totalSupply : Q;
  ft_circSupply : Q;
  ft_website : option string;
  ft_twitter : option string;
  ft_telegram : option string
}.

(** The object that [JSON.stringify] serialises into [rawData]. *)
Record RawData : Type := mkRawData {
  rd_tokenA : string;
  rd_tokenB : string;
  rd_source : string;
  rd_tokenAInfo : option FullTokenData;
  rd_tokenBInfo : option FullTokenData
}.

(** Modelled from the spec: the two tables of [prisma/schema.prisma], which
    is not among the sources.  A pool row carries the fields of the
    candidate, its [timestamp] among them (null when none is handed in), and
    the nullable enrichment fields [apy], [tvl] and [volume24h]; it is
    unique on [poolAddress] and on [signature].  An event row refers to its
    pool and is unique on [signature]. *)
Record Pool : Type := mkPool {
  pool_id : nat;
  pool_tokenA : string;
  pool_tokenB : string;
  pool_poolAddress : string;
  pool_source : string;
  pool_signature : string;
  pool_apy : option Q;
  pool_tvl : option Q;
  pool_volume24h : option Q;
  pool_timestamp : option Z;
  pool_createdAt : Z
}.

Record PoolEvent : Type := mkPoolEvent {
  ev_id : nat;
  ev_poolId : nat;
  ev_eventType : string;
  ev_amount : option Q;
  ev_signature : string;
  ev_rawData : option RawData;
  ev_timestamp : Z
}.

(** The state of the one [RateLimiter] object shared by the handler. *)
Record RateLimiterState : Type := mkRateLimiter {
  rl_lastCall : Z;
  rl_delay : Z
}.

(** What reaches the webhook endpoint as [req.body]: a JSON array, or a JSON
    object. *)
Inductive Payload : Type :=
| PayloadArray (items : list Item)
| PayloadObject (transaction : Transaction).

(** One entry of [webhook_logs.txt], the file to which the single-file
    server appends every body it receives: the time of the write and the
    body. *)
Record WebhookLogEntry : Type := mkWebhookLogEntry {
  wl_timestamp : Z;
  wl_body : option Payload
}.

(** One line of [matched_pools.txt], the backup file of the single-file
    server; in [mp_apy] and [mp_tvl], [None] stands for the text ['N/A']. *)
Record MatchedPoolEntry : Type := mkMatchedPoolEntry {
  mp_timestamp : Z;
  mp_poolAddress : option string;
  mp_tokenA : string;
  mp_tokenB : string;
  mp_signature : option string;
  mp_source : string;
  mp_apy : option Q;
  mp_tvl : option Q
}.

(** Everything the code reads or changes.  The answers of the outside are
    scripts consumed front to back: [lateness] says by how many milliseconds
    each successive timer fires late, [llamaResponses] and
    [jupiterResponses] what each successive [fetch] gives ([None]: the
    promise rejects; an exhausted script keeps rejecting), [dbFaults]
    whether each successive database call loses its connection, and
    [idGaps] how many values an id sequence skips before each value it hands
    out.  [poolIdSeq] and [eventIdSeq] are the last values the two id
    sequences handed out; [webhookLogs] and [matchedPools] are the two log
    files, which are taken to be writable. *)
Record World : Type := mkWorld {
  clock : Z;
  lateness : list nat;
  timers : list Z;
  llamaResponses : list (option (Response LlamaBody));
  jupiterResponses : list (option (Response (list JupToken)));
  dbFaults : list bool;
  idGaps : list nat;
  poolIdSeq : nat;
  eventIdSeq : nat;
  webhookLogs : list WebhookLogEntry;
  matchedPools : list MatchedPoolEntry;
  pools : list Pool;
  events : list PoolEvent;
  rateLimiter : RateLimiterState
}.

Module Env.

(** [Date.now()] *)
Definition Date_now : M World Z := fun w => (Ok (clock w), w).

(** [await new Promise(resolve => setTimeout(resolve, ms))]: the clock moves
    on by the requested delay and by the lateness of this timer; the request
    is appended to [timers]. *)
Definition setTimeout (ms : Z) : M World unit := fun w =>
  let late := match lateness w with [] => 0 | l :: _ => l end in
  (Ok tt,
   {| clock := (clock w + Z.max 0 ms + Z.of_nat late)%Z;
      lateness := tl (lateness w);
      timers := timers w ++ [ms];
      llamaResponses := llamaResponses w;
      jupiterResponses := jupiterResponses w;
      dbFaults := dbFaults w;
      idGaps := idGaps w;
      poolIdSeq := poolIdSeq w;
      eventIdSeq := eventIdSeq w;
      webhookLogs := webhookLogs w;
      matchedPools := matchedPools w;
      pools := pools w;
      events := events w;
      rateLimiter := rateLimiter w |}).

(** Time spent elsewhere between two steps. *)
Definition elapse (ms : nat) (w : World) : World :=
  {| clock := (clock w + Z.of_nat ms)%Z;
     lateness := lateness w;
     timers := timers w;
     llamaResponses := llamaResponses w;
     jupiterResponses := jupiterResponses w;
     dbFaults := dbFaults w;
     idGaps := idGaps w;
     poolIdSeq := poolIdSeq w;
     eventIdSeq := eventIdSeq w;
     webhookLogs := webhookLogs w;
     matchedPools := matchedPools w;
     pools := pools w;
     events := events w;
     rateLimiter := rateLimiter w |}.

(** [await fetch('https://yields.llama.fi/pools')] *)
Definition fetch_llama : M World (Response LlamaBody) := fun w =>
  let w' := {| clock := clock w;
               lateness := lateness w;
               timers := timers w;
               llamaResponses := tl (llamaResponses w);
               jupiterResponses := jupiterResponses w;
               dbFaults := dbFaults w;
               idGaps := idGaps w;
               poolIdSeq := poolIdSeq w;
               eventIdSeq := eventIdSeq w;
               webhookLogs := webhookLogs w;
               matchedPools := matchedPools w;
               pools := pools w;
               events := events w;
               rateLimiter := rateLimiter w |} in
  match llamaResponses w with
  | Some r :: _ => (Ok r, w')
  | _ => (Throw FetchFailed, w')
  end.

(** [await fetch(`${baseUrl}/tokens/v2/search?query=${mintAddress}`)] *)
Definition fetch_jupiter (mintAddress : string) : M World (Response (list JupToken)) := fun w =>
  let w' := {| clock := clock w;
               lateness := lateness w;
               timers := timers w;
               llamaResponses := llamaResponses w;
               jupiterResponses := tl (jupiterResponses w);
               dbFaults := dbFaults w;
               idGaps := idGaps w;
               poolIdSeq := poolIdSeq w;
               eventIdSeq := eventIdSeq w;
               webhookLogs := webhookLogs w;
               matchedPools := matchedPools w;
               pools := pools w;
               events := events w;
               rateLimiter := rateLimiter w |} in
  match jupiterResponses w with
  | Some r :: _ => (Ok r, w')
  | _ => (Throw FetchFailed, w')
  end.

(** [await response.json()] *)
Definition json {B} (r : Response B) : M World B :=
  match resp_json r with
  | Some b => ret b
  | None => throw JsonSyntaxError
  end.

(** The round trip of one database call: it may lose the connection. *)
Definition db_roundtrip : M World unit := fun w =>
  let w' := {| clock := clock w;
               lateness := lateness w;
               timers := timers w;
               llamaResponses := llamaResponses w;
               jupiterResponses := jupiterResponses w;
               dbFaults := tl (dbFaults w);
               idGaps := idGaps w;
               poolIdSeq := poolIdSeq w;
               eventIdSeq := eventIdSeq w;
               webhookLogs := webhookLogs w;
               matchedPools := matchedPools w;
               pools := pools w;
               events := events w;
               rateLimiter := rateLimiter w |} in
  match dbFaults w with
  | true :: _ => (Throw PrismaConnectionError, w')
  | _ => (Ok tt, w')
  end.

Definition set_pools (ps : list Pool) : M World unit := fun w =>
  (Ok tt,
   {| clock := clock w;
      lateness := lateness w;
      timers := timers w;
      llamaResponses := llamaResponses w;
      jupiterResponses := jupiterResponses w;
      dbFaults := dbFaults w;
      idGaps := idGaps w;
      poolIdSeq := poolIdSeq w;
      eventIdSeq := eventIdSeq w;
      webhookLogs := webhookLogs w;
      matchedPools := matchedPools w;
      pools := ps;
      events := events w;
      rateLimiter := rateLimiter w |}).

Definition set_events (es : list PoolEvent) : M World unit := fun w =>
  (Ok tt,
   {| clock := clock w;
      lateness := lateness w;
      timers := timers w;
      llamaResponses := llamaResponses w;
      jupiterResponses := jupiterResponses w;
      dbFaults := dbFaults w;
      idGaps := idGaps w;
      poolIdSeq := poolIdSeq w;
      eventIdSeq := eventIdSeq w;
      webhookLogs := webhookLogs w;
      matchedPools := matchedPools w;
      pools := pools w;
      events := es;
      rateLimiter := rateLimiter w |}).

Definition set_rateLimiter (r : RateLimiterState) : M World unit := fun w =>
  (Ok tt,
   {| clock := clock w;
      lateness := lateness w;
      timers := timers w;
      llamaResponses := llamaResponses w;
      jupiterResponses := jupiterResponses w;
      dbFaults := dbFaults w;
      idGaps := idGaps w;
      poolIdSeq := poolIdSeq w;
      eventIdSeq := eventIdSeq w;
      webhookLogs := webhookLogs w;
      matchedPools := matchedPools w;
      pools := pools w;
      events := events w;
      rateLimiter := r |}).

Definition get {A} (f : World -> A) : M World A := fun w => (Ok (f w), w).

(** The next value of the id sequence of the pool table.  Neither the
    specification nor the sources fix the numbering, and a sequence may skip
    values (that of a refused insert, for one): the value handed out is the
    last one plus one plus the gap that [idGaps] gives. *)
Definition nextval_pool : M World nat := fun w =>
  let id := Datatypes.S (poolIdSeq w + hd 0 (idGaps w)) in
  (Ok id,
   {| clock := clock w;
      lateness := lateness w;
      timers := timers w;
      llamaResponses := llamaResponses w;
      jupiterResponses := jupiterResponses w;
      dbFaults := dbFaults w;
      idGaps := tl (idGaps w);
      poolIdSeq := id;
      eventIdSeq := eventIdSeq w;
      webhookLogs := webhookLogs w;
      matchedPools := matchedPools w;
      pools := pools w;
      events := events w;
      rateLimiter := rateLimiter w |}).

(** The next value of the id sequence of the event table. *)
Definition nextval_event : M World nat := fun w =>
  let id := Datatypes.S (eventIdSeq w + hd 0 (idGaps w)) in
  (Ok id,
   {| clock := clock w;
      lateness := lateness w;
      timers := timers w;
      llamaResponses := llamaResponses w;
      jupiterResponses := jupiterResponses w;
      dbFaults := dbFaults w;
      idGaps := tl (idGaps w);
      poolIdSeq := poolIdSeq w;
      eventIdSeq := id;
      webhookLogs := webhookLogs w;
      matchedPools := matchedPools w;
      pools := pools w;
      events := events w;
      rateLimiter := rateLimiter w |}).

(** [fs.appendFileSync('webhook_logs.txt', ...)] *)
Definition appendFile_webhook_logs (entry : WebhookLogEntry) : M World unit := fun w =>
  (Ok tt,
   {| clock := clock w;
      lateness := lateness w;
      timers := timers w;
      llamaResponses := llamaResponses w;
      jupiterResponses := jupiterResponses w;
      dbFaults := dbFaults w;
      idGaps := idGaps w;
      poolIdSeq := poolIdSeq w;
      eventIdSeq := eventIdSeq w;
      webhookLogs := webhookLogs w ++ [entry];
      matchedPools := matchedPools w;
      pools := pools w;
      events := events w;
      rateLimiter := rateLimiter w |}).

(** [fs.appendFileSync('matched_pools.txt', ...)] *)
Definition appendFile_matched_pools (entry : MatchedPoolEntry) : M World unit := fun w =>
  (Ok tt,
   {| clock := clock w;
      lateness := lateness w;
      timers := timers w;
      llamaResponses := llamaResponses w;
      jupiterResponses := jupiterResponses w;
      dbFaults := dbFaults w;
      idGaps := idGaps w;
      poolIdSeq := poolIdSeq w;
      eventIdSeq := eventIdSeq w;
      webhookLogs := webhookLogs w;
      matchedPools := matchedPools w ++ [entry];
      pools := pools w;
      events := events w;
      rateLimiter := rateLimiter w |}).

End Env.

(* ------------------------------------------------------------------ *)
(** ** The Prisma client *)

Module Prisma.

(** Modelled from the spec: [prisma.pool.findUnique({ where: { poolAddress } })].
    The query needs its unique key: without one the client rejects the call
    before it reaches the database. *)
Definition pool_findUnique (poolAddress : option string) : M World (option Pool) :=
  match poolAddress with
  | None => throw PrismaValidationError
  | Some a =>
      Env.db_roundtrip ;;;
      ps <- Env.get pools ;;
      ret (List.find (fun p => String.eqb (pool_poolAddress p) a) ps)
  end.

(** The [data] argument of [prisma.pool.create]. *)
Record PoolCreate : Type := mkPoolCreate {
  c_tokenA : string;
  c_tokenB : string;
  c_poolAddress : option string;
  c_source : string;
  c_signature : option string;
  c_apy : option Q;
  c_tvl : option Q;
  c_volume24h : option Q;
  c_timestamp : option (option Z)
}.

(** The [timestamp] handed to [create]: [None] when the key is not given,
    [Some None] for the invalid date, which the client refuses. *)
Definition validTimestamp (timestamp : option (option Z)) : bool :=
  match timestamp with
  | Some None => false
  | _ => true
  end.

Definition timestampColumn (timestamp : option (option Z)) : option Z :=
  match timestamp with
  | Some (Some ms) => Some ms
  | _ => None
  end.

(** Modelled from the spec: [prisma.pool.create({ data })].  The row must
    carry its two identifiers and no invalid date, or the client rejects the
    call before it reaches the database; the table is unique on
    [poolAddress] and on [signature]; the new row gets the next value of the
    id sequence and the current time. *)
Definition pool_create (data : PoolCreate) : M World Pool :=
  match c_poolAddress data, c_signature data with
  | Some poolAddress, Some signature =>
      if negb (validTimestamp (c_timestamp data)) then throw PrismaValidationError
      else
      Env.db_roundtrip ;;;
      ps <- Env.get pools ;;
      now <- Env.Date_now ;;
      if existsb (fun p => String.eqb (pool_poolAddress p) poolAddress) ps
      then throw (PrismaUniqueViolation "poolAddress")
      else if existsb (fun p => String.eqb (pool_signature p) signature) ps
      then throw (PrismaUniqueViolation "signature")
      else
        id <- Env.nextval_pool ;;
        let row := {| pool_id := id;
                      pool_tokenA := c_tokenA data;
                      pool_tokenB := c_tokenB data;
                      pool_poolAddress := poolAddress;
                      pool_source := c_source data;
                      pool_signature := signature;
                      pool_apy := c_apy data;
                      pool_tvl := c_tvl data;
                      pool_volume24h := c_volume24h data;
                      pool_timestamp := timestampColumn (c_timestamp data);
                      pool_createdAt := now |} in
        Env.set_pools (ps ++ [row]) ;;;
        ret row
  | _, _ => throw PrismaValidationError
  end.

(** The [data] argument of [prisma.poolEvent.create]. *)
Record EventCreate : Type := mkEventCreate {
  e_poolId : nat;
  e_eventType : string;
  e_amount : option Q;
  e_signature : option string;
  e_rawData : option RawData
}.

(** Modelled from the spec: [prisma.poolEvent.create({ data })], unique on
    [signature]; the new row gets the next value of the id sequence and the
    current time. *)
Definition poolEvent_create (data : EventCreate) : M World PoolEvent :=
  match e_signature data with
  | Some signature =>
      Env.db_roundtrip ;;;
      es <- Env.get events ;;
      now <- Env.Date_now ;;
      if existsb (fun e => String.eqb (ev_signature e) signature) es
      then throw (PrismaUniqueViolation "signature")
      else
        id <- Env.nextval_event ;;
        let row := {| ev_id := id;
                      ev_poolId := e_poolId data;
                      ev_eventType := e_eventType data;
                      ev_amount := e_amount data;
                      ev_signature := signature;
                      ev_rawData := e_rawData data;
                      ev_timestamp := now |} in
        Env.set_events (es ++ [row]) ;;;
        ret row
  | None => throw PrismaValidationError
  end.

(** Insertion into a list kept in the order [before]. *)
Fixpoint insert_by {A} (before : A -> A -> bool) (x : A) (l : list A) : list A :=
  match l with
  | [] => [x]
  | y :: l' => if before y x then y :: insert_by before x l' else x :: l
  end.

(** [orderBy]: a sort by insertion; the table gives no order among ties. *)
Definition orderBy {A} (before : A -> A -> bool) (l : list A) : list A :=
  fold_right (insert_by before) [] l.

(** Modelled from the spec: [prisma.pool.findMany({ where, take, orderBy })]
    reads the rows that satisfy [where], in the order [orderBy], cut after
    [take] rows. *)
Definition pool_findMany (where_ : Pool -> bool) (before : Pool -> Pool -> bool)
           (take : nat) : M World (list Pool) :=
  Env.db_roundtrip ;;;
  ps <- Env.get pools ;;
  ret (firstn take (orderBy before (filter where_ ps))).

End Prisma.

(* ------------------------------------------------------------------ *)
(** ** [RateLimiter] (rateLimiter.js) *)

Module RateLimiter.

(** [constructor(delayMs = 2000)] *)
Definition new (delayMs : Z) : RateLimiterState :=
  {| rl_lastCall := 0%Z; rl_delay := delayMs |}.

(** [async wait()] *)
Definition wait : M World unit :=
  now <- Env.Date_now ;;
  this <- Env.get rateLimiter ;;
  let timeSinceLastCall := (now - rl_lastCall this)%Z in
  (if (timeSinceLastCall <? rl_delay this)%Z
   then
     let waitTime := (rl_delay this - timeSinceLastCall)%Z in
     Env.setTimeout waitTime
   else ret tt) ;;;
  now' <- Env.Date_now ;;
  Env.set_rateLimiter {| rl_lastCall := now'; rl_delay := rl_delay this |}.

End RateLimiter.

(* ------------------------------------------------------------------ *)
(** ** [DefiLlamaClient] (defiLlamaClient.js) *)

Module DefiLlamaClient.

(** The object returned by [getBestApyForMint]. *)
Record ApyData : Type := mkApyData {
  apy_apy : option Q;
  apy_symbol : option string;
  apy_project : option string;
  apy_chain : option string;
  apy_poolId : option string;
  apy_tvl : option Q;
  apy_url : string
}.

(** The operation handed to [RetryHelper.withBackoff] by [getAllPools]. *)
Definition getAllPools_fn : M World (list LlamaPool) :=
  response <- Env.fetch_llama ;;
  if negb (resp_ok response)
  then throw (ApiError "DefiLlama API error" (resp_status response))
  else
    data <- Env.json response ;;
    ret (match lb_data data with Some l => l | None => [] end).

Definition getAllPools : M World (option (list LlamaPool)) :=
  RetryHelper.withBackoff Env.setTimeout getAllPools_fn RetryHelper.defaultMaxRetries.

(** The predicate of [pools.filter] in [searchPools]. *)
Definition matchesMint (mintAddress chain : string) (pool : LlamaPool) : bool :=
  if strict_neq chain (lp_chain pool) then false
  else
    let poolKey := lower_or_empty (lp_pool pool) in
    let symbol := lower_or_empty (lp_symbol pool) in
    let project := lower_or_empty (lp_project pool) in
    let mintLower := toLowerCase mintAddress in
    str_includes poolKey mintLower ||
    str_includes symbol mintLower ||
    str_includes project mintLower.

Definition searchPools (mintAddress chain : string) : M World (list LlamaPool) :=
  pools <- getAllPools ;;
  match pools with
  | None => throw (TypeError "Cannot read properties of undefined (reading 'filter')")
  | Some pools => ret (filter (matchesMint mintAddress chain) pools)
  end.

(** The reducer of [matchingPools.reduce(..., null)]. *)
Definition betterApy (best : option LlamaPool) (current : LlamaPool) : option LlamaPool :=
  let currentApy := num_or (lp_apy current) 0 in
  let bestApy := num_or (match best with Some b => lp_apy b | None => None end) 0 in
  if num_gt currentApy bestApy then Some current else best.

Definition getBestApyForMint (mintAddress chain : string) : M World (option ApyData) :=
  try_catch_async
    (matchingPools <- searchPools mintAddress chain ;;
     if List.length matchingPools =? 0 then ret None
     else
       let bestPool := fold_left betterApy matchingPools None in
       match bestPool with
       | Some bestPool =>
           ret (Some {| apy_apy := lp_apy bestPool;
                        apy_symbol := lp_symbol bestPool;
                        apy_project := lp_project bestPool;
                        apy_chain := lp_chain bestPool;
                        apy_poolId := lp_pool bestPool;
                        apy_tvl := lp_tvlUsd bestPool;
                        apy_url := String.append "https://defillama.com/yields/pool/"
                                     (match lp_pool bestPool with
                                      | Some p => p
                                      | None => "undefined"
                                      end) |})
       | None => ret None
       end)
    (fun error => throw error).

End DefiLlamaClient.

(* ------------------------------------------------------------------ *)
(** ** [JupiterClient] (jupiterClient.js) *)

Module JupiterClient.

(** The operation handed to [RetryHelper.withBackoff] by [getTokenInfo]. *)
Definition getTokenInfo_fn (mintAddress : string) : M World (option JupToken) :=
  response <- Env.fetch_jupiter mintAddress ;;
  if negb (resp_ok response)
  then
    if (resp_status response =? 404)%Z then ret None
    else throw (ApiError "Jupiter API error" (resp_status response))
  else
    data <- Env.json response ;;
    let exactMatch := find (fun token => strict_eq (jt_id token) (Some mintAddress)) data in
    ret (match exactMatch with
         | Some token => Some token
         | None => match data with token :: _ => Some token | [] => None end
         end).

Definition getTokenInfo (mintAddress : string) : M World (option (option JupToken)) :=
  RetryHelper.withBackoff Env.setTimeout (getTokenInfo_fn mintAddress)
                          RetryHelper.defaultMaxRetries.

Definition getFullTokenData (mintAddress : string) : M World (option FullTokenData) :=
  try_catch_async
    (tokenInfo <- getTokenInfo mintAddress ;;
     match tokenInfo with
     | Some (Some tokenInfo) =>
         ret (Some {| ft_mintAddress := jt_id tokenInfo;
                      ft_symbol := or_default (jt_symbol tokenInfo) "Unknown";
                      ft_name := or_default (jt_name tokenInfo) "Unknown Token";
                      ft_decimals := num_or (jt_decimals tokenInfo) 9;
                      ft_price := num_or (jt_usdPrice tokenInfo) 0;
                      ft_logoURI := or_else (jt_icon tokenInfo) None;
                      ft_tags := match jt_tags tokenInfo with Some l => l | None => [] end;
                      ft_verified := match jt_isVerified tokenInfo with Some b => b | None => false end;
                      ft_marketCap := num_or (jt_mcap tokenInfo) 0;
                      ft_fdv := num_or (jt_fdv tokenInfo) 0;
                      ft_liquidity := num_or (jt_liquidity tokenInfo) 0;
                      ft_holderCount := num_or (jt_holderCount tokenInfo) 0;
                      ft_totalSupply := num_or (jt_totalSupply tokenInfo) 0;
                      ft_circSupply := num_or (jt_circSupply tokenInfo) 0;
                      ft_website := or_else (jt_website tokenInfo) None;
                      ft_twitter := or_else (jt_twitter tokenInfo) None;
                      ft_telegram := or_else (jt_telegram tokenInfo) None |})
     | _ => ret None
     end)
    (fun _ => ret None).

End JupiterClient.

(* ------------------------------------------------------------------ *)
(** ** [DatabaseClient] (databaseClient.js) *)

Module DatabaseClient.

(** The argument of [storePool]. *)
Record PoolData : Type := mkPoolData {
  pd_tokenA : string;
  pd_tokenB : string;
  pd_poolAddress : option string;
  pd_signature : option string;
  pd_source : option string;
  pd_apy : option Q;
  pd_tvl : option Q;
  pd_volume24h : option Q
}.

(** The argument of [storeEvent]. *)
Record EventData : Type := mkEventData {
  ed_poolId : nat;
  ed_signature : option string;
  ed_eventType : option string;
  ed_amount : option Q;
  ed_rawData : option RawData
}.

Definition poolExists (poolAddress : option string) : M World bool :=
  existingPool <- Prisma.pool_findUnique poolAddress ;;
  ret (match existingPool with Some _ => true | None => false end).

Definition storePool (poolData : PoolData) : M World Pool :=
  try_catch_async
    (pool <- Prisma.pool_create
               {| Prisma.c_tokenA := pd_tokenA poolData;
                  Prisma.c_tokenB := pd_tokenB poolData;
                  Prisma.c_poolAddress := pd_poolAddress poolData;
                  Prisma.c_source := or_default (pd_source poolData) "Unknown";
                  Prisma.c_signature := pd_signature poolData;
                  Prisma.c_apy := num_or_null (pd_apy poolData);
                  Prisma.c_tvl := num_or_null (pd_tvl poolData);
                  Prisma.c_volume24h := num_or_null (pd_volume24h poolData);
                  Prisma.c_timestamp := None |} ;;
     ret pool)
    (fun error => throw error).

Definition storeEvent (eventData : EventData) : M World PoolEvent :=
  try_catch_async
    (event <- Prisma.poolEvent_create
                {| Prisma.e_poolId := ed_poolId eventData;
                   Prisma.e_eventType := or_default (ed_eventType eventData) "created";
                   Prisma.e_amount := num_or_null (ed_amount eventData);
                   Prisma.e_signature := ed_signature eventData;
                   Prisma.e_rawData := ed_rawData eventData |} ;;
     ret event)
    (fun error => throw error).

(** [orderBy: { createdAt: 'desc' }] *)
Definition createdAt_desc (a b : Pool) : bool := (pool_createdAt b <=? pool_createdAt a)%Z.

(** [orderBy: { apy: 'desc' }] *)
Definition apy_desc (a b : Pool) : bool :=
  match pool_apy a, pool_apy b with
  | Some x, Some y => Qle_bool y x
  | Some _, None => true
  | None, _ => false
  end.

(** [where: { apy: { not: null } }] *)
Definition apy_not_null (p : Pool) : bool :=
  match pool_apy p with Some _ => true | None => false end.

Definition getAllPools (limit : nat) : M World (list Pool) :=
  Prisma.pool_findMany (fun _ => true) createdAt_desc limit.

Definition getPoolsWithApy (limit : nat) : M World (list Pool) :=
  Prisma.pool_findMany apy_not_null apy_desc limit.

End DatabaseClient.

(* ------------------------------------------------------------------ *)
(** ** [WebhookHandler] (webhookHandler.js) *)

Module WebhookHandler.

Definition parsePoolFromTransaction := WebhookHandlerParse.parsePoolFromTransaction.

Definition savePoolToDatabase (poolData : PoolCandidate) : M World (option Pool) :=
  try_catch_async
    (exists_ <- DatabaseClient.poolExists (pc_poolAddress poolData) ;;
     if (exists_ : bool) then ret None
     else
       RateLimiter.wait ;;;
       apyData <- DefiLlamaClient.getBestApyForMint (pc_tokenA poolData) "Solana" ;;
       apyData <- match apyData with
                  | None => DefiLlamaClient.getBestApyForMint (pc_tokenB poolData) "Solana"
                  | Some _ => ret apyData
                  end ;;
       tokenAInfo <- JupiterClient.getFullTokenData (pc_tokenA poolData) ;;
       tokenBInfo <- JupiterClient.getFullTokenData (pc_tokenB poolData) ;;
       let poolToStore :=
         {| DatabaseClient.pd_tokenA := pc_tokenA poolData;
            DatabaseClient.pd_tokenB := pc_tokenB poolData;
            DatabaseClient.pd_poolAddress := pc_poolAddress poolData;
            DatabaseClient.pd_signature := pc_signature poolData;
            DatabaseClient.pd_source := Some (pc_source poolData);
            DatabaseClient.pd_apy :=
              num_or_null (match apyData with
                           | Some d => DefiLlamaClient.apy_apy d
                           | None => None
                           end);
            DatabaseClient.pd_tvl :=
              num_or_null (match apyData with
                           | Some d => DefiLlamaClient.apy_tvl d
                           | None => None
                           end);
            DatabaseClient.pd_volume24h := None |} in
       newPool <- DatabaseClient.storePool poolToStore ;;
       DatabaseClient.storeEvent
         {| DatabaseClient.ed_poolId := pool_id newPool;
            DatabaseClient.ed_signature := pc_signature poolData;
            DatabaseClient.ed_eventType := Some "created";
            DatabaseClient.ed_amount := None;
            DatabaseClient.ed_rawData :=
              Some {| rd_tokenA := pc_tokenA poolData;
                      rd_tokenB := pc_tokenB poolData;
                      rd_source := pc_source poolData;
                      rd_tokenAInfo := tokenAInfo;
                      rd_tokenBInfo := tokenBInfo |} |} ;;;
       ret (Some newPool))
    (fun _ => ret None).

(** [transaction.type === 'ENHANCED_TRANSACTION' || transaction.type === 'CREATE_POOL'] *)
Definition acceptedType (type : option string) : bool :=
  strict_eq type (Some "ENHANCED_TRANSACTION") || strict_eq type (Some "CREATE_POOL").

(** One round of the [for ... of] loop. *)
Definition processTransaction (transaction : Item) : M World unit :=
  match transaction with
  | JNull => throw (TypeError "Cannot read properties of null (reading 'type')")
  | JObject t =>
      if acceptedType (tx_type t)
      then
        poolData <- lift (parsePoolFromTransaction transaction) ;;
        match poolData with
        | Some poolData => savePoolToDatabase poolData ;;; ret tt
        | None => ret tt
        end
      else ret tt
  end.

(** [for (const transaction of transactions) { ... }] *)
Fixpoint forOf (transactions : list Item) : M World unit :=
  match transactions with
  | [] => ret tt
  | transaction :: rest => processTransaction transaction ;;; forOf rest
  end.

(** A plain object has no iterator: [for ... of] throws on it. *)
Definition processWebhookPayload (transactions : Payload) : M World unit :=
  match transactions with
  | PayloadArray items => forOf items
  | PayloadObject _ => throw (TypeError "transactions is not iterable")
  end.

End WebhookHandler.

(* ------------------------------------------------------------------ *)
(** ** The modular server (server.js) *)

Module Server.

(** [app.post('/webhook/helius', ...)]: [body] is [req.body], absent when
    the request carried no JSON; the result is the status sent. *)
Definition post_webhook_helius (body : option Payload) : M World Z :=
  try_catch_async
    (let transactions := match body with Some b => b | None => PayloadArray [] end in
     WebhookHandler.processWebhookPayload transactions ;;;
     ret 200%Z)
    (fun _ => ret 500%Z).

End Server.

(* ------------------------------------------------------------------ *)
(** ** The single-file server (server.js, first version) *)

Module LegacyServer.

Definition parsePoolFromTransaction := LegacyServerParse.parsePoolFromTransaction.

(** The object returned by [fetchDefiLlamaAPY]. *)
Record ApyData : Type := mkApyData {
  apy : Q;
  tvl : Q;
  protocol : string
}.

(** The predicate of [data.data?.filter]. *)
Definition matchesPair (tokenA tokenB : string) (pool : LlamaPool) : bool :=
  let symbols := lower_or_empty (lp_symbol pool) in
  let tokenALower := toLowerCase tokenA in
  let tokenBLower := toLowerCase tokenB in
  str_includes symbols tokenALower && str_includes symbols tokenBLower &&
  strict_eq (lp_chain pool) (Some "Solana").

(** The reducer of [matchingPools.reduce(...)], started at the first row. *)
Definition betterApy (best current : LlamaPool) : LlamaPool :=
  if num_gt (num_or (lp_apy current) 0) (num_or (lp_apy best) 0) then current else best.

(** The operation handed to [retryWithBackoff]. *)
Definition fetchDefiLlamaAPY_fn (tokenA tokenB : string) : M World (option ApyData) :=
  response <- Env.fetch_llama ;;
  if negb (resp_ok response)
  then throw (ApiError "DefiLlama API error" (resp_status response))
  else
    data <- Env.json response ;;
    let matchingPools :=
      match lb_data data with
      | Some l => filter (matchesPair tokenA tokenB) l
      | None => []
      end in
    match matchingPools with
    | first :: others =>
        let bestPool := fold_left betterApy others first in
        ret (Some {| apy := num_or (lp_apy bestPool) 0;
                     tvl := num_or (lp_tvlUsd bestPool) 0;
                     protocol := or_default (lp_project bestPool) "Unknown" |})
    | [] => ret None
    end.

(** [retryWithBackoff] is the loop of [RetryHelper.withBackoff], and the
    [rateLimiter] object that of [RateLimiter]. *)
Definition fetchDefiLlamaAPY (tokenA tokenB : string) : M World (option ApyData) :=
  try_catch_async
    (RateLimiter.wait ;;;
     r <- RetryHelper.withBackoff Env.setTimeout (fetchDefiLlamaAPY_fn tokenA tokenB) 3 ;;
     ret (match r with Some v => v | None => None end))
    (fun _ => ret None).

(** [savePoolToDatabase]; after the insert it appends the backup line to
    [matched_pools.txt]. *)
Definition savePoolToDatabase (poolData : PoolCandidate) : M World (option Pool) :=
  try_catch_async
    (existingPool <- Prisma.pool_findUnique (pc_poolAddress poolData) ;;
     match existingPool with
     | Some existingPool => ret (Some existingPool)
     | None =>
         apyData <- fetchDefiLlamaAPY (pc_tokenA poolData) (pc_tokenB poolData) ;;
         newPool <- Prisma.pool_create
                      {| Prisma.c_tokenA := pc_tokenA poolData;
                         Prisma.c_tokenB := pc_tokenB poolData;
                         Prisma.c_poolAddress := pc_poolAddress poolData;
                         Prisma.c_source := pc_source poolData;
                         Prisma.c_signature := pc_signature poolData;
                         Prisma.c_apy :=
                           num_or_null (match apyData with Some d => Some (apy d) | None => None end);
                         Prisma.c_tvl :=
                           num_or_null (match apyData with Some d => Some (tvl d) | None => None end);
                         Prisma.c_volume24h := None;
                         Prisma.c_timestamp := Some (pc_timestamp poolData) |} ;;
         timestamp <- Env.Date_now ;;
         Env.appendFile_matched_pools
           {| mp_timestamp := timestamp;
              mp_poolAddress := pc_poolAddress poolData;
              mp_tokenA := pc_tokenA poolData;
              mp_tokenB := pc_tokenB poolData;
              mp_signature := pc_signature poolData;
              mp_source := pc_source poolData;
              mp_apy :=
                num_or_null (match apyData with Some d => Some (apy d) | None => None end);
              mp_tvl :=
                num_or_null (match apyData with Some d => Some (tvl d) | None => None end) |} ;;;
         ret (Some newPool)
     end)
    (fun _ => ret None).

Definition processTransaction (transaction : Item) : M World unit :=
  match transaction with
  | JNull => throw (TypeError "Cannot read properties of null (reading 'type')")
  | JObject t =>
      if WebhookHandler.acceptedType (tx_type t)
      then
        poolData <- lift (parsePoolFromTransaction transaction) ;;
        match poolData with
        | Some poolData => savePoolToDatabase poolData ;;; ret tt
        | None => ret tt
        end
      else ret tt
  end.

Fixpoint forOf (transactions : list Item) : M World unit :=
  match transactions with
  | [] => ret tt
  | transaction :: rest => processTransaction transaction ;;; forOf rest
  end.

(** [Array.isArray(req.body) ? req.body : [req.body]]; an absent body gives
    the array [[undefined]], and reading a property of [undefined] throws
    as it does on [null]. *)
Definition asArray (body : option Payload) : list Item :=
  match body with
  | Some (PayloadArray items) => items
  | Some (PayloadObject t) => [JObject t]
  | None => [JNull]
  end.

(** [app.post('/webhook/helius', ...)] of that version: it first appends
    the body it received to [webhook_logs.txt]. *)
Definition post_webhook_helius (body : option Payload) : M World Z :=
  try_catch_async
    (timestamp <- Env.Date_now ;;
     Env.appendFile_webhook_logs {| wl_timestamp := timestamp; wl_body := body |} ;;;
     let transactions := asArray body in
     forOf transactions ;;;
     ret 200%Z)
    (fun _ => ret 500%Z).

End LegacyServer.

(* ------------------------------------------------------------------ *)
(** ** Vocabulary of the statements *)

(** A mint identifier that counts for pair detection: a non-empty string
    other than the native mint. *)
Definition NonNativeMint (m : string) : Prop := m <> "" /\ m <> SOL_MINT.

(** The [mint] values of the transfers, in transfer order. *)
Definition transferMints (t : Transaction) : list (option string) :=
  match tx_tokenTransfers t with
  | Some l => map tt_mint l
  | None => []
  end.

(** At least two distinct non-native mints occur among the transfers. *)
Definition HasTwoDistinctMints (t : Transaction) : Prop :=
  exists a b, a <> b /\ NonNativeMint a /\ NonNativeMint b /\
              In (Some a) (transferMints t) /\ In (Some b) (transferMints t).

(** [a] then [b] are the first two distinct non-native mints of [mints]:
    nothing before [a] is a non-native mint, and every non-native mint
    between [a] and [b] is [a] again. *)
Definition FirstTwoDistinct (mints : list (option string)) (a b : string) : Prop :=
  exists before between after,
    mints = before ++ Some a :: between ++ Some b :: after /\
    (forall m, In (Some m) before -> ~ NonNativeMint m) /\
    NonNativeMint a /\
    (forall m, In (Some m) between -> NonNativeMint m -> m = a) /\
    NonNativeMint b /\
    a <> b.

(** [result] is the first identifier of [ids] that satisfies [P], if any. *)
Definition FirstSuch (P : string -> Prop) (ids : list (option string))
           (result : option string) : Prop :=
  (exists before a after,
      ids = before ++ Some a :: after /\ P a /\
      (forall x, In (Some x) before -> ~ P x) /\ result = Some a)
  \/ ((forall x, In (Some x) ids -> ~ P x) /\ result = None).

(** The account list read by [WebhookHandler]: the [account] fields of
    [accountData]. *)
Definition accountDataIds (t : Transaction) : list (option string) :=
  match tx_accountData t with
  | Some l => map ad_account l
  | None => []
  end.

(** The account list read by the single-file server: [accounts]. *)
Definition accountsIds (t : Transaction) : list (option string) :=
  match tx_accounts t with
  | Some l => map Some l
  | None => []
  end.

(** One of the four infrastructure programs. *)
Definition InfraProgram (a : string) : Prop :=
  a = TOKEN_PROGRAM \/ a = SYSTEM_PROGRAM \/ a = ASSOCIATED_TOKEN_PROGRAM \/ a = RAYDIUM_PROGRAM.

(** An account the code accepts as pool address: a non-empty identifier that
    is not the fee payer, not the mint of any transfer, not the native mint
    and not an infrastructure program. *)
Definition PoolAccount (t : Transaction) (a : string) : Prop :=
  a <> "" /\ Some a <> tx_feePayer t /\ ~ In (Some a) (transferMints t) /\
  a <> SOL_MINT /\ ~ InfraProgram a.

(** The reading of the specification: only the two chosen mints are
    excluded. *)
Definition PoolAccountOfTwo (t : Transaction) (c : PoolCandidate) (a : string) : Prop :=
  Some a <> tx_feePayer t /\ a <> pc_tokenA c /\ a <> pc_tokenB c /\
  a <> SOL_MINT /\ ~ InfraProgram a.

(** The pool address of [c] is the first account of [ids] that satisfies
    [P], and the signature when there is none. *)
Definition PoolAddressBy (P : string -> Prop) (ids : list (option string))
           (t : Transaction) (c : PoolCandidate) : Prop :=
  exists first, FirstSuch P ids first /\
                pc_poolAddress c = match first with
                                   | Some a => Some a
                                   | None => tx_signature t
                                   end.

(** An account at which the search of the single-file server stops: one
    that [PoolAccount] accepts, or the empty string unless the fee payer is
    the empty string, for that search does not ask for a non-empty
    account. *)
Definition LegacyPoolAccount (t : Transaction) (a : string) : Prop :=
  PoolAccount t a \/ (a = "" /\ tx_feePayer t <> Some "").

(** The pool address of [c] as the single-file server finds it: the search
    stops at the first account of [ids] that satisfies [P], and the pool
    address is that account when it is not the empty string, and the
    signature when it is empty or when there is none. *)
Definition LegacyPoolAddressBy (P : string -> Prop) (ids : list (option string))
           (t : Transaction) (c : PoolCandidate) : Prop :=
  exists first, FirstSuch P ids first /\
                pc_poolAddress c = match first with
                                   | Some a => if String.eqb a "" then tx_signature t
                                               else Some a
                                   | None => tx_signature t
                                   end.

(** The example transaction of the specification. *)
Definition exampleTransfers : list TokenTransfer :=
  [ {| tt_mint := Some "TokenA..."; tt_tokenAmount := None |};
    {| tt_mint := Some SOL_MINT; tt_tokenAmount := None |};
    {| tt_mint := Some "TokenB..."; tt_tokenAmount := None |} ].

Definition exampleTransaction : Transaction :=
  {| tx_type := Some "CREATE_POOL";
     tx_source := None;
     tx_signature := Some "sig1";
     tx_timestamp := Some 1700000000%Z;
     tx_tokenTransfers := Some exampleTransfers;
     tx_accountData := None;
     tx_accounts := Some ["feePayer"; "PoolAcct"; "TokenA..."; "TokenB..."];
     tx_feePayer := Some "feePayer" |}.

(** A transaction of the single-file server whose first listed account is
    the empty string. *)
Definition emptyAccountTransaction : Transaction :=
  {| tx_type := Some "CREATE_POOL";
     tx_source := None;
     tx_signature := Some "sigE";
     tx_timestamp := Some 1700000000%Z;
     tx_tokenTransfers := Some exampleTransfers;
     tx_accountData := None;
     tx_accounts := Some [""; "PoolAcct"];
     tx_feePayer := Some "feePayer" |}.

(** The same transaction with its accounts in the [accountData] layout. *)
Definition exampleTransaction_accountData : Transaction :=
  {| tx_type := Some "CREATE_POOL";
     tx_source := None;
     tx_signature := Some "sig1";
     tx_timestamp := Some 1700000000%Z;
     tx_tokenTransfers := Some exampleTransfers;
     tx_accountData := Some [ {| ad_account := Some "feePayer" |};
                              {| ad_account := Some "PoolAcct" |};
                              {| ad_account := Some "TokenA..." |};
                              {| ad_account := Some "TokenB..." |} ];
     tx_accounts := None;
     tx_feePayer := Some "feePayer" |}.

(** The candidate the specification expects for it. *)
Definition exampleCandidate : PoolCandidate :=
  {| pc_tokenA := "TokenA...";
     pc_tokenB := "TokenB...";
     pc_poolAddress := Some "PoolAcct";
     pc_signature := Some "sig1";
     pc_timestamp := Some 1700000000000%Z;
     pc_source := "unknown" |}.

(** A transaction with three distinct mints whose third mint is also listed
    as an account. *)
Definition threeMintTransaction : Transaction :=
  {| tx_type := Some "CREATE_POOL";
     tx_source := Some "RAYDIUM";
     tx_signature := Some "sig3";
     tx_timestamp := Some 1700000000%Z;
     tx_tokenTransfers := Some [ {| tt_mint := Some "MintA"; tt_tokenAmount := None |};
                                 {| tt_mint := Some "MintB"; tt_tokenAmount := None |};
                                 {| tt_mint := Some "MintC"; tt_tokenAmount := None |} ];
     tx_accountData := Some [ {| ad_account := Some "MintC" |};
                              {| ad_account := Some "PoolAcct" |} ];
     tx_accounts := Some ["MintC"; "PoolAcct"];
     tx_feePayer := Some "payer" |}.

Definition threeMintCandidate : PoolCandidate :=
  {| pc_tokenA := "MintA";
     pc_tokenB := "MintB";
     pc_poolAddress := Some "PoolAcct";
     pc_signature := Some "sig3";
     pc_timestamp := Some 1700000000000%Z;
     pc_source := "RAYDIUM" |}.

(* ------------------------------------------------------------------ *)
(** ** Observing a retry run *)

(** What [withBackoff] does, in order: it invokes the operation, or it waits. *)
Inductive RetryEvent : Type :=
| Attempt
| Delay (ms : Z).

Definition isAttempt (e : RetryEvent) : bool :=
  match e with Attempt => true | Delay _ => false end.

(** The operation, with each invocation recorded next to its own state. *)
Definition observed {S A} (fn : M S A) : M (S * list RetryEvent) A :=
  fun st =>
    match fn (fst st) with
    | (r, s') => (r, (s', snd st ++ [Attempt]))
    end.

(** The timer, with each wait recorded. *)
Definition observedTimeout {S} (setTimeout : Z -> M S unit) (ms : Z)
  : M (S * list RetryEvent) unit :=
  fun st =>
    match setTimeout ms (fst st) with
    | (r, s') => (r, (s', snd st ++ [Delay ms]))
    end.

(** [attempts] invocations, the one of index [j] followed by a wait of
    [2^j] seconds unless it is the last; [i] is the index of the first. *)
Fixpoint backoffSchedule (attempts i : nat) : list RetryEvent :=
  match attempts with
  | O => []
  | Datatypes.S n =>
      match n with
      | O => [Attempt]
      | _ => Attempt :: Delay (2 ^ Z.of_nat i * 1000)%Z :: backoffSchedule n (Datatypes.S i)
      end
  end.

(** The state in which the operation is invoked after [k] failures in a
    row, the first of them at index [i] from state [s]. *)
Fixpoint stateAfterFailures {S A} (setTimeout : Z -> M S unit) (fn : M S A)
         (k i : nat) (s : S) : S :=
  match k with
  | O => s
  | Datatypes.S k' =>
      stateAfterFailures setTimeout fn k' (Datatypes.S i)
        (snd (setTimeout (2 ^ Z.of_nat i * 1000)%Z (snd (fn s))))
  end.

(* ------------------------------------------------------------------ *)
(** ** The database seen from outside, and sample worlds *)

(** The rows of both tables. *)
Definition db (w : World) : list Pool * list PoolEvent := (pools w, events w).

(** The pool addresses on record. *)
Definition poolAddresses (w : World) : list string := map pool_poolAddress (pools w).

(** The state after [n] database calls that read or write no row: nothing
    has changed but the connection script, [n] entries of which are
    consumed. *)
Definition afterDbCalls (n : nat) (w : World) : World :=
  {| clock := clock w;
     lateness := lateness w;
     timers := timers w;
     llamaResponses := llamaResponses w;
     jupiterResponses := jupiterResponses w;
     dbFaults := skipn n (dbFaults w);
     idGaps := idGaps w;
     poolIdSeq := poolIdSeq w;
     eventIdSeq := eventIdSeq w;
     webhookLogs := webhookLogs w;
     matchedPools := matchedPools w;
     pools := pools w;
     events := events w;
     rateLimiter := rateLimiter w |}.




(** The state once the single-file server has appended the body it received
    to [webhook_logs.txt]. *)
Definition logged (body : option Payload) (w : World) : World :=
  snd (Env.appendFile_webhook_logs {| wl_timestamp := clock w; wl_body := body |} w).

(** The candidates that a batch of transactions gives rise to. *)
Definition CandidateOf (t : Transaction) (c : PoolCandidate) : Prop :=
  WebhookHandler.acceptedType (tx_type t) = true /\
  WebhookHandler.parsePoolFromTransaction (JObject t) = Ok (Some c).

(** A number that JavaScript treats as false, or no number at all. *)
Definition FalsyNumber (x : option Q) : Prop :=
  match x with
  | Some q => q == 0
  | None => True
  end.

(** An empty database, a fresh rate limiter of two seconds, punctual timers,
    and the given answers of the two services. *)
Definition freshWorld (llama : list (option (Response LlamaBody)))
           (jupiter : list (option (Response (list JupToken)))) : World :=
  {| clock := 1700000000000%Z;
     lateness := [];
     timers := [];
     llamaResponses := llama;
     jupiterResponses := jupiter;
     dbFaults := [];
     idGaps := [];
     poolIdSeq := 0;
     eventIdSeq := 0;
     webhookLogs := [];
     matchedPools := [];
     pools := [];
     events := [];
     rateLimiter := RateLimiter.new 2000 |}.

(** An answer [500 Internal Server Error]. *)
Definition serverError {B} : option (Response B) :=
  Some {| resp_status := 500%Z; resp_json := None |}.

(** An answer [200 OK] with a listing in which nothing matches. *)
Definition emptyListing : option (Response LlamaBody) :=
  Some {| resp_status := 200%Z; resp_json := Some {| lb_data := Some [] |} |}.

(** An answer [200 OK] of the token search with no token. *)
Definition noToken : option (Response (list JupToken)) :=
  Some {| resp_status := 200%Z; resp_json := Some [] |}.

(** The yield service answers 500 to every attempt; the token service
    answers. *)
Definition yieldServiceDown : World :=
  freshWorld [serverError; serverError; serverError] [noToken; noToken].

(** The token service answers 500 to every attempt; the yield service
    answers. *)
Definition tokenServiceDown : World :=
  freshWorld [emptyListing; emptyListing]
             [serverError; serverError; serverError; serverError; serverError; serverError].

(** Both services answer. *)
Definition servicesUp : World :=
  freshWorld [emptyListing; emptyListing] [noToken; noToken].

(* ------------------------------------------------------------------ *)
(** ** Sample operations for [withBackoff] *)

(** Operations over a state that counts their invocations. *)
Definition failsTwice : M nat string :=
  fun n => if n <? 2 then (Throw FetchFailed, Datatypes.S n) else (Ok "pools", Datatypes.S n).

Definition alwaysFails : M nat string :=
  fun n => (Throw (ApiError "DefiLlama API error" 500%Z), Datatypes.S n).

(** A timer that leaves that state alone. *)
Definition idleTimer : Z -> M nat unit := fun _ => ret tt.

(* ------------------------------------------------------------------ *)
(** ** Relations between the state before and after a computation *)

(** Whatever its outcome, [m] takes a state to one related to it by [R]. *)
Definition respects {S A} (R : S -> S -> Prop) (m : M S A) : Prop :=
  forall s, R s (snd (m s)).

(** No row was written. *)
Definition SameDb (w w' : World) : Prop := db w' = db w.

(** Rows were only appended, and pool addresses stayed unique if they were. *)
Definition Grows (w w' : World) : Prop :=
  (exists added, pools w' = pools w ++ added) /\
  (exists added, events w' = events w ++ added) /\
  (NoDup (poolAddresses w) -> NoDup (poolAddresses w')).

(** The pending answers of the yield service were left untouched. *)
Definition SameLlama (w w' : World) : Prop := llamaResponses w' = llamaResponses w.

(** The next [n] answers of the yield service are failures: a rejected
    promise, or a status outside 200..299. *)
Definition YieldFails (n : nat) (w : World) : Prop :=
  forall r, In (Some r) (firstn n (llamaResponses w)) -> resp_ok r = false.

(** [m] returns normally from every state. *)
Definition neverThrows {S A} (m : M S A) : Prop :=
  forall s, exists a, fst (m s) = Ok a.

(** A batch of transactions posted to the webhook of the modular server. *)
Definition submit (txs : list Transaction) : M World Z :=
  Server.post_webhook_helius (Some (PayloadArray (map JObject txs))).

(** A pool to store whose fetched APY and TVL are exactly zero. *)
Definition zeroApyPool : DatabaseClient.PoolData :=
  {| DatabaseClient.pd_tokenA := "TokenA...";
     DatabaseClient.pd_tokenB := "TokenB...";
     DatabaseClient.pd_poolAddress := Some "PoolAcct";
     DatabaseClient.pd_signature := Some "sig1";
     DatabaseClient.pd_source := None;
     DatabaseClient.pd_apy := Some 0%Q;
     DatabaseClient.pd_tvl := Some 0%Q;
     DatabaseClient.pd_volume24h := None |}.

(* ------------------------------------------------------------------ *)
(** ** Further vocabulary: retries *)

(** The time asked of the timer over a run, in milliseconds. *)
Fixpoint totalDelay (tr : list RetryEvent) : Z :=
  match tr with
  | [] => 0%Z
  | Attempt :: tr' => totalDelay tr'
  | Delay ms :: tr' => (ms + totalDelay tr')%Z
  end.

(** What [withBackoff] makes of the outcome of the invocation it ends on. *)
Definition asReturned {A} (r : Result A) : Result (option A) :=
  match r with
  | Ok v => Ok (Some v)
  | Throw e => Throw e
  end.

(* ------------------------------------------------------------------ *)
(** ** The rate limiter check of [test-modules.js] *)

Module TestModules.

(** Test 1 of [testModules]: a limiter of one second of its own, two calls
    of [wait()] in a row, and the time they took. *)
Definition rateLimiterTest : M World Z :=
  Env.set_rateLimiter (RateLimiter.new 1000) ;;;
  start <- Env.Date_now ;;
  RateLimiter.wait ;;;
  RateLimiter.wait ;;;
  now <- Env.Date_now ;;
  let elapsed := (now - start)%Z in
  ret elapsed.

End TestModules.

(** What a computation leaves of the outside: the pending answers of the
    services and of the database connection. *)
Definition outside (w : World)
  : list (option (Response LlamaBody)) * list (option (Response (list JupToken))) * list bool :=
  (llamaResponses w, jupiterResponses w, dbFaults w).

(* ------------------------------------------------------------------ *)
(** ** [JupiterClient.getTokenPrice] (jupiterClient.js) *)

Module JupiterPrice.

(** The object returned by [getTokenPrice]. *)
Record PriceData : Type := mkPriceData {
  pr_price : Q;
  pr_fdv : option Q;
  pr_mcap : option Q;
  pr_liquidity : option Q
}.

Definition getTokenPrice (mintAddress : string) : M World (option PriceData) :=
  tokenInfo <- JupiterClient.getTokenInfo mintAddress ;;
  match tokenInfo with
  | Some (Some tokenInfo) =>
      match jt_usdPrice tokenInfo with
      | Some usdPrice =>
          if Qeq_bool usdPrice 0 then ret None
          else ret (Some {| pr_price := usdPrice;
                            pr_fdv := jt_fdv tokenInfo;
                            pr_mcap := jt_mcap tokenInfo;
                            pr_liquidity := jt_liquidity tokenInfo |})
      | None => ret None
      end
  | _ => ret None
  end.

End JupiterPrice.

(* ------------------------------------------------------------------ *)
(** ** Further vocabulary: the two services *)

(** The next [n] answers of the token service are failures that
    [getTokenInfo] retries: a rejected promise, or a status outside
    200..299 other than 404. *)
Definition TokenServiceFails (n : nat) (w : World) : Prop :=
  forall r, In (Some r) (firstn n (jupiterResponses w)) ->
            resp_ok r = false /\ resp_status r <> 404%Z.

(** The APY that the reducers compare: [pool.apy || 0]. *)
Definition apyOrZero (p : LlamaPool) : Q := num_or (lp_apy p) 0.

(** A listing of three pools, two of them on Solana. *)
Definition sampleListing : list LlamaPool :=
  [ {| lp_chain := Some "Solana"; lp_pool := Some "pool-1";
       lp_symbol := Some "TokenA...-USDC"; lp_project := Some "raydium";
       lp_apy := Some 5%Q; lp_tvlUsd := Some 1000%Q |};
    {| lp_chain := Some "Solana"; lp_pool := Some "pool-2";
       lp_symbol := Some "TOKENA...-SOL"; lp_project := Some "orca";
       lp_apy := Some (25 # 2)%Q; lp_tvlUsd := Some 0%Q |};
    {| lp_chain := Some "Ethereum"; lp_pool := Some "pool-3";
       lp_symbol := Some "TokenA...-ETH"; lp_project := Some "uniswap";
       lp_apy := Some 99%Q; lp_tvlUsd := Some 5000%Q |} ].

(** The yield service answers with that listing. *)
Definition listingUp : World :=
  freshWorld
    [ Some {| resp_status := 200%Z; resp_json := Some {| lb_data := Some sampleListing |} |} ]
    [noToken; noToken].

(** A token as the token service describes it. *)
Definition sampleToken (id : string) (price : Q) : JupToken :=
  {| jt_id := Some id; jt_symbol := Some "TKA"; jt_name := None;
     jt_decimals := Some 6%Q; jt_usdPrice := Some price; jt_icon := None;
     jt_tags := None; jt_isVerified := Some true; jt_mcap := None; jt_fdv := None;
     jt_liquidity := None; jt_holderCount := None; jt_totalSupply := None;
     jt_circSupply := None; jt_website := None; jt_twitter := None; jt_telegram := None |}.

(** The token service answers 404. *)
Definition tokenNotFound : World :=
  freshWorld [] [ Some {| resp_status := 404%Z; resp_json := None |} ].

(** The token service answers with two tokens, the second being the one
    asked for. *)
Definition tokenFound : World :=
  freshWorld []
    [ Some {| resp_status := 200%Z;
              resp_json := Some [sampleToken "Other" 1%Q; sampleToken "TokenA..." 2%Q] |} ].

(* ------------------------------------------------------------------ *)
(** ** Further vocabulary: batches *)

(** The example transaction delivered with the type [ENHANCED_TRANSACTION]
    and both account layouts. *)
Definition enhancedTransaction : Transaction :=
  {| tx_type := Some "ENHANCED_TRANSACTION";
     tx_source := Some "RAYDIUM";
     tx_signature := Some "sig2";
     tx_timestamp := Some 1700000000%Z;
     tx_tokenTransfers := Some exampleTransfers;
     tx_accountData := Some [ {| ad_account := Some "feePayer" |};
                              {| ad_account := Some "PoolAcct2" |} ];
     tx_accounts := Some ["feePayer"; "PoolAcct2"];
     tx_feePayer := Some "feePayer" |}.

(** The same with the type [CREATE_POOL]. *)
Definition createPoolTransaction : Transaction :=
  {| tx_type := Some "CREATE_POOL";
     tx_source := Some "RAYDIUM";
     tx_signature := Some "sig2";
     tx_timestamp := Some 1700000000%Z;
     tx_tokenTransfers := Some exampleTransfers;
     tx_accountData := Some [ {| ad_account := Some "feePayer" |};
                              {| ad_account := Some "PoolAcct2" |} ];
     tx_accounts := Some ["feePayer"; "PoolAcct2"];
     tx_feePayer := Some "feePayer" |}.

(** A transfer notification that is no pool creation. *)
Definition transferTransaction : Transaction :=
  {| tx_type := Some "TRANSFER";
     tx_source := None;
     tx_signature := Some "sig9";
     tx_timestamp := Some 1700000000%Z;
     tx_tokenTransfers := Some exampleTransfers;
     tx_accountData := None;
     tx_accounts := None;
     tx_feePayer := Some "feePayer" |}.

(* ------------------------------------------------------------------ *)
(** ** The read endpoints of the modular server (server.js) *)

Module Api.

(** One element of [pools] in the answer of [GET /api/pools].  Modelled
    from the spec: a pool row has no column [mintAddress], [symbol], [name],
    [price], [apySource] or [apyProject], so reading them gives [undefined]
    ([None] here). *)
Record PoolView : Type := mkPoolView {
  v_id : nat;
  v_mintAddress : option string;
  v_symbol : option string;
  v_name : option string;
  v_apy : option Q;
  v_tvl : option Q;
  v_price : option Q;
  v_apySource : option string;
  v_apyProject : option string;
  v_timestamp : Z
}.

(** One element of [pools] in the answer of [GET /api/pools/apy]; the
    columns [symbol], [name], [apyProject] and [apyUrl] are absent in the
    same way. *)
Record ApyView : Type := mkApyView {
  a_id : nat;
  a_symbol : option string;
  a_name : option string;
  a_apy : option Q;
  a_tvl : option Q;
  a_apyProject : option string;
  a_apyUrl : option string;
  a_timestamp : Z
}.

(** What the endpoint sends: [res.json({ total, pools })], or
    [res.status(500).json({ error: error.message })]. *)
Inductive Answer (V : Type) : Type :=
| Json200 (total : nat) (pools : list V)
| Json500 (error : Error).
Arguments Json200 {V} total pools.
Arguments Json500 {V} error.

Definition poolView (pool : Pool) : PoolView :=
  {| v_id := pool_id pool;
     v_mintAddress := None;
     v_symbol := None;
     v_name := None;
     v_apy := pool_apy pool;
     v_tvl := pool_tvl pool;
     v_price := None;
     v_apySource := None;
     v_apyProject := None;
     v_timestamp := pool_createdAt pool |}.

Definition apyView (pool : Pool) : ApyView :=
  {| a_id := pool_id pool;
     a_symbol := None;
     a_name := None;
     a_apy := pool_apy pool;
     a_tvl := pool_tvl pool;
     a_apyProject := None;
     a_apyUrl := None;
     a_timestamp := pool_createdAt pool |}.

(** [app.get('/api/pools', ...)] *)
Definition get_api_pools : M World (Answer PoolView) :=
  try_catch_async
    (pools <- DatabaseClient.getAllPools 50 ;;
     ret (Json200 (List.length pools) (map poolView pools)))
    (fun error => ret (Json500 error)).

(** [app.get('/api/pools/apy', ...)] *)
Definition get_api_pools_apy : M World (Answer ApyView) :=
  try_catch_async
    (pools <- DatabaseClient.getPoolsWithApy 25 ;;
     ret (Json200 (List.length pools) (map apyView pools)))
    (fun error => ret (Json500 error)).

End Api.

(* ------------------------------------------------------------------ *)
(** ** Further vocabulary: the database *)

(** The APY of a row, zero standing for none. *)
Definition apyOf (p : Pool) : Q :=
  match pool_apy p with
  | Some q => q
  | None => 0%Q
  end.

(** The APY of [a] is at least that of [b]. *)
Definition ApyAtLeast (a b : Pool) : Prop := (apyOf b <= apyOf a)%Q.

(** [a] was created no earlier than [b]. *)
Definition NotOlder (a b : Pool) : Prop := (pool_createdAt b <= pool_createdAt a)%Z.

(** [rows] are the first [take] of the rows [l] in the order [R]: they are
    rows of [l], as many as [take] allows, in the order [R], and each of
    them comes before every row of [l] that is left out. *)
Definition TopOf {A} (R : A -> A -> Prop) (take : nat) (l rows : list A) : Prop :=
  List.length rows = Nat.min take (List.length l) /\
  (forall p, In p rows -> In p l) /\
  StronglySorted R rows /\
  (forall p q, In p rows -> In q l -> ~ In q rows -> R p q).

(** What the tables satisfy besides the uniqueness of the pool addresses:
    signatures are unique in both tables, and every event refers, by its
    [poolId], to a pool on record that has its signature. *)
Definition DbInv (w : World) : Prop :=
  NoDup (map pool_signature (pools w)) /\
  NoDup (map ev_signature (events w)) /\
  (forall e, In e (events w) ->
             exists p, In p (pools w) /\ pool_id p = ev_poolId e /\
                       pool_signature p = ev_signature e).

(** A computation that keeps [DbInv]. *)
Definition KeepsDbInv (w w' : World) : Prop := DbInv w -> DbInv w'.

(** An enrichment value as the pipeline stores it: none, or a positive
    number. *)
Definition NullOrPositive (x : option Q) : Prop :=
  match x with
  | Some q => (0 < q)%Q
  | None => True
  end.

(** The yield service lists a pool for the example mint; the token service
    knows the token. *)
Definition enrichedWorld : World :=
  freshWorld
    [ Some {| resp_status := 200%Z; resp_json := Some {| lb_data := Some sampleListing |} |} ]
    [ Some {| resp_status := 200%Z; resp_json := Some [sampleToken "TokenA..." 2%Q] |};
      noToken ].

(* ------------------------------------------------------------------ *)
(** ** Further vocabulary: the single-file server *)

(** A computation that leaves the tables and the pending faults of the
    database connection as they are. *)
Definition SameStore (w w' : World) : Prop :=
  db w' = db w /\ dbFaults w' = dbFaults w.

(* ================================================================== *)
(** * Part II: properties *)

Unset Implicit Arguments.

(* ------------------------------------------------------------------ *)
(** ** JavaScript sets and the mint filter *)

Section SetFacts.

Lemma includes_In (l : list string) (x : string) :
  includes l x = true <-> In x l.
Proof.
  unfold includes. rewrite existsb_exists. split.
  - intros [y [Hy He]]. apply String.eqb_eq in He. now subst.
  - intros H. exists x. split; [assumption | apply String.eqb_refl].
Qed.

Lemma includes_not_In (l : list string) (x : string) :
  includes l x = false <-> ~ In x l.
Proof.
  rewrite <- includes_In. destruct (includes l x); split; intros; congruence.
Qed.

(** Adding to a set never disturbs what is already there. *)
Lemma fold_Set_add_prefix (l acc : list string) :
  exists extra, fold_left Set_add l acc = acc ++ extra.
Proof.
  revert acc. induction l as [|x l IH]; intros acc; simpl.
  - exists []. now rewrite app_nil_r.
  - unfold Set_add at 2. destruct (includes acc x).
    + apply IH.
    + destruct (IH (acc ++ [x])) as [extra He]. exists (x :: extra).
      rewrite He, <- app_assoc. reflexivity.
Qed.

Lemma fold_Set_add_In (l acc : list string) (x : string) :
  In x (fold_left Set_add l acc) <-> In x acc \/ In x l.
Proof.
  revert acc. induction l as [|y l IH]; intros acc; simpl.
  - tauto.
  - rewrite IH. unfold Set_add. destruct (includes acc y) eqn:E.
    + apply includes_In in E. split; [tauto|].
      intros [H|[H|H]]; subst; auto.
    + rewrite in_app_iff. simpl. tauto.
Qed.

Lemma Set_from_In (l : list string) (x : string) :
  In x (Set_from l) <-> In x l.
Proof. unfold Set_from. rewrite fold_Set_add_In. simpl. tauto. Qed.

(** Values equal to the one element of the set are ignored ... *)
Lemma fold_Set_add_same (a : string) (l : list string) :
  (forall x, In x l -> x = a) -> fold_left Set_add l [a] = [a].
Proof.
  induction l as [|y l IH]; intros H; simpl; [reflexivity|].
  assert (y = a) by (apply H; now left). subst y.
  unfold Set_add at 2. simpl. rewrite String.eqb_refl. simpl.
  apply IH. intros x Hx. apply H. now right.
Qed.

(** ... and the first different value becomes the second element. *)
Lemma fold_Set_add_second (a b : string) (same rest : list string) :
  (forall x, In x same -> x = a) -> b <> a ->
  exists more, fold_left Set_add (same ++ b :: rest) [a] = a :: b :: more.
Proof.
  intros Hs Hb. rewrite fold_left_app, fold_Set_add_same by assumption. simpl.
  unfold Set_add at 2. simpl.
  destruct (String.eqb_spec b a) as [->|_]; [contradiction|]. simpl.
  apply (fold_Set_add_prefix rest [a; b]).
Qed.

(** A set with two elements has two distinct elements. *)
Lemma Set_from_two_distinct (l : list string) (a b : string) (more : list string) :
  Set_from l = a :: b :: more -> a <> b.
Proof.
  unfold Set_from. assert (G : forall l acc, NoDup acc -> NoDup (fold_left Set_add l acc)).
  { clear. induction l as [|y l IH]; intros acc Hacc; simpl; [assumption|].
    apply IH. unfold Set_add. destruct (includes acc y) eqn:E; [assumption|].
    apply includes_not_In in E. apply NoDup_app; [assumption | repeat constructor; intros [] | ].
    intros z Hz [<-|[]]. contradiction. }
  intros H. specialize (G l [] (NoDup_nil _)). rewrite H in G.
  inversion G as [|? ? Hn _]; subst. intros ->. apply Hn. now left.
Qed.

Lemma isTokenMint_Some (s : string) :
  isTokenMint (Some s) = true <-> NonNativeMint s.
Proof.
  unfold isTokenMint, NonNativeMint, truthy, strict_eq.
  destruct (String.eqb_spec s ""), (String.eqb_spec s SOL_MINT); simpl;
    split; try tauto; try discriminate.
Qed.

Lemma keepTokenMints_In (mints : list (option string)) (s : string) :
  In s (keepTokenMints mints) <-> In (Some s) mints /\ NonNativeMint s.
Proof.
  induction mints as [|m mints IH]; simpl; [tauto|].
  destruct m as [m|]; cbn [isTokenMint truthy andb].
  - destruct (isTokenMint (Some m)) eqn:E.
    + apply isTokenMint_Some in E. simpl. rewrite IH. split.
      * intros [<-|[H1 H2]]; auto.
      * intros [[H|H] Hn]; [left; congruence | right; auto].
    + rewrite IH. split; [tauto|]. intros [[H|H] Hn]; [|auto].
      injection H as ->. apply isTokenMint_Some in Hn. congruence.
  - rewrite IH. split; [tauto|]. intros [[H|H] Hn]; [discriminate|auto].
Qed.

(** Reading the filter backwards: what it kept sits in the input in the same
    order, separated by values it dropped. *)
Lemma keepTokenMints_cons_inv (mints : list (option string)) (s : string) (kept : list string) :
  keepTokenMints mints = s :: kept ->
  exists before after,
    mints = before ++ Some s :: after /\
    (forall m, In (Some m) before -> ~ NonNativeMint m) /\
    NonNativeMint s /\ keepTokenMints after = kept.
Proof.
  induction mints as [|m mints IH]; simpl; [discriminate|].
  destruct (isTokenMint m) eqn:E.
  - destruct m as [m|]; [|discriminate]. intros H. injection H as -> Hk.
    exists [], mints. apply isTokenMint_Some in E.
    split; [reflexivity|]. split; [intros ? []|]. split; assumption.
  - intros H. destruct (IH H) as (before & after & -> & Hb & Hs & Hk).
    exists (m :: before), after.
    split; [reflexivity|]. split; [|split; assumption].
    intros x [->|Hx]; [|auto]. intros Hn. apply isTokenMint_Some in Hn. congruence.
Qed.

Lemma keepTokenMints_app_inv (mints : list (option string)) (k1 k2 : list string) :
  keepTokenMints mints = k1 ++ k2 ->
  exists m1 m2, mints = m1 ++ m2 /\ keepTokenMints m1 = k1 /\ keepTokenMints m2 = k2.
Proof.
  revert mints. induction k1 as [|s k1 IH]; intros mints H.
  - exists [], mints. auto.
  - simpl in H. destruct (keepTokenMints_cons_inv _ _ _ H) as (before & after & -> & Hb & Hs & Hk).
    destruct (IH _ Hk) as (m1 & m2 & -> & H1 & H2).
    exists (before ++ Some s :: m1), m2. rewrite <- app_assoc. simpl.
    split; [reflexivity|]. split; [|assumption].
    clear - Hb Hs H1. induction before as [|x before IHb]; simpl.
    + apply isTokenMint_Some in Hs. rewrite Hs. now rewrite H1.
    + destruct (isTokenMint x) eqn:E.
      * destruct x as [x|]; [|discriminate]. apply isTokenMint_Some in E.
        exfalso. apply (Hb x); [now left | assumption].
      * apply IHb. intros m Hm. apply Hb. now right.
Qed.

(** The first element that differs from [a]. *)
Lemma first_different (a : string) (l : list string) :
  (exists x, In x l /\ x <> a) ->
  exists same b rest, l = same ++ b :: rest /\ (forall x, In x same -> x = a) /\ b <> a.
Proof.
  induction l as [|y l IH]; intros [x [Hx Hn]]; [destruct Hx|].
  destruct (string_dec y a) as [->|Hy].
  - destruct Hx as [->|Hx]; [contradiction|].
    destruct IH as (same & b & rest & -> & Hs & Hb); [eauto|].
    exists (a :: same), b, rest.
    split; [reflexivity|]. split; [|assumption].
    intros z [<-|Hz]; auto.
  - exists [], y, l. split; [reflexivity|]. split; [intros ? []|assumption].
Qed.

End SetFacts.

(* ------------------------------------------------------------------ *)
(** ** The parser *)

Section ParserFacts.

(** The array of distinct mints that both parsers compute. *)
Lemma tokenMints_first_two (t : Transaction) :
  HasTwoDistinctMints t ->
  exists a b more,
    Set_from (keepTokenMints (transferMints t)) = a :: b :: more /\
    FirstTwoDistinct (transferMints t) a b.
Proof.
  intros (a' & b' & Hab & Ha & Hb & Ia & Ib).
  assert (Ka : In a' (keepTokenMints (transferMints t))) by (apply keepTokenMints_In; auto).
  assert (Kb : In b' (keepTokenMints (transferMints t))) by (apply keepTokenMints_In; auto).
  destruct (keepTokenMints (transferMints t)) as [|a rest] eqn:K; [destruct Ka|].
  assert (D : exists x, In x rest /\ x <> a).
  { destruct (string_dec a' a) as [->|Hn].
    - exists b'. destruct Kb as [<-|Kb]; [congruence|]. split; [assumption | congruence].
    - exists a'. destruct Ka as [<-|Ka]; [congruence|]. split; assumption. }
  destruct (first_different a rest D) as (same & b & rest' & -> & Hs & Hba).
  destruct (fold_Set_add_second a b same rest' Hs Hba) as [more Hm].
  exists a, b, more. split.
  - unfold Set_from. simpl. exact Hm.
  - destruct (keepTokenMints_cons_inv _ _ _ K) as (before & after & E & Hbe & Hna & Kafter).
    destruct (keepTokenMints_app_inv _ _ _ Kafter) as (m1 & m2 & -> & K1 & K2).
    destruct (keepTokenMints_cons_inv _ _ _ K2) as (before2 & after2 & -> & Hbe2 & Hnb & _).
    exists before, (m1 ++ before2), after2.
    split; [rewrite E, <- app_assoc; reflexivity|].
    split; [assumption|]. split; [assumption|]. split; [|split; [assumption | congruence]].
    intros m Hm' Hn. apply in_app_or in Hm'. destruct Hm' as [H1|H2].
    + apply Hs. rewrite <- K1. apply keepTokenMints_In. auto.
    + exfalso. exact (Hbe2 m H2 Hn).
Qed.

Lemma tokenMints_two_distinct (t : Transaction) (a b : string) (more : list string) :
  Set_from (keepTokenMints (transferMints t)) = a :: b :: more ->
  HasTwoDistinctMints t.
Proof.
  intros H. pose proof (Set_from_two_distinct _ _ _ _ H) as Hab.
  assert (Ia : In a (keepTokenMints (transferMints t)))
    by (apply Set_from_In; rewrite H; simpl; auto).
  assert (Ib : In b (keepTokenMints (transferMints t)))
    by (apply Set_from_In; rewrite H; simpl; auto).
  apply keepTokenMints_In in Ia, Ib. exists a, b. tauto.
Qed.

Lemma FirstTwoDistinct_length (mints : list (option string)) (a b : string) :
  FirstTwoDistinct mints a b -> 2 <= List.length mints.
Proof.
  intros (before & between & after & -> & _).
  rewrite length_app. simpl. rewrite length_app. simpl. lia.
Qed.

(** [find] returns the first element that passes the test. *)
Lemma find_FirstSuch {A} (p : A -> bool) (key : A -> option string)
      (P : string -> Prop) (l : list A) :
  (forall x, In x l -> (p x = true <-> exists a, key x = Some a /\ P a)) ->
  FirstSuch P (map key l)
            (match find p l with Some x => key x | None => None end).
Proof.
  unfold find. induction l as [|x l IH]; intros Hp; simpl.
  - right. split; [intros ? []|reflexivity].
  - destruct (p x) eqn:E.
    + apply Hp in E; [|now left]. destruct E as [a [Hk HP]].
      left. exists [], a, (map key l). rewrite Hk.
      split; [reflexivity|]. split; [assumption|]. split; [intros ? []|reflexivity].
    + assert (Hx : forall a, key x = Some a -> ~ P a).
      { intros a Hk HP. assert (p x = true) by (apply Hp; [now left | eauto]). congruence. }
      destruct IH as [(before & a & after & E1 & HP & Hb & Hr)|[Hn Hr]].
      * intros y Hy. apply Hp. now right.
      * left. exists (key x :: before), a, after. rewrite E1.
        split; [reflexivity|]. split; [assumption|]. split; [|assumption].
        intros y [Hy|Hy]; [now apply Hx | now apply Hb].
      * right. split; [|assumption]. intros y [Hy|Hy]; [now apply Hx | now apply Hn].
Qed.

Lemma notKnownProgram_spec (a : string) :
  notKnownProgram a = true <-> a <> SOL_MINT /\ ~ InfraProgram a.
Proof.
  unfold notKnownProgram, InfraProgram.
  destruct (String.eqb_spec a SOL_MINT), (String.eqb_spec a TOKEN_PROGRAM),
    (String.eqb_spec a SYSTEM_PROGRAM), (String.eqb_spec a ASSOCIATED_TOKEN_PROGRAM),
    (String.eqb_spec a RAYDIUM_PROGRAM); simpl; split; try tauto; try discriminate.
Qed.

Lemma strict_neq_spec (a : string) (b : option string) :
  strict_neq a b = true <-> Some a <> b.
Proof.
  destruct b as [b|]; simpl; [|split; [discriminate|reflexivity]].
  destruct (String.eqb_spec a b); simpl; split; congruence.
Qed.

Lemma tokenMints_includes (t : Transaction) (a : string) :
  a <> "" -> a <> SOL_MINT ->
  (includes (Set_from (keepTokenMints (transferMints t))) a = false
   <-> ~ In (Some a) (transferMints t)).
Proof.
  intros H1 H2. rewrite includes_not_In, Set_from_In, keepTokenMints_In.
  unfold NonNativeMint. tauto.
Qed.

Lemma handler_isPoolAccount_spec (t : Transaction) (account : AccountData) :
  WebhookHandlerParse.isPoolAccount t (Set_from (keepTokenMints (transferMints t))) account = true
  <-> exists a, ad_account account = Some a /\ PoolAccount t a.
Proof.
  unfold WebhookHandlerParse.isPoolAccount, PoolAccount.
  destruct (ad_account account) as [a|]; [|split; [discriminate | intros [? [? _]]; discriminate]].
  rewrite !andb_true_iff, negb_true_iff, strict_neq_spec, notKnownProgram_spec.
  unfold truthy. rewrite negb_true_iff, String.eqb_neq. split.
  - intros [[[H1 H2] H3] [H4 H5]]. exists a. split; [reflexivity|].
    apply tokenMints_includes in H3; tauto.
  - intros [a' [E (H1 & H2 & H3 & H4 & H5)]]. injection E as <-.
    apply tokenMints_includes in H3; tauto.
Qed.

Lemma legacy_isPoolAccount_spec (t : Transaction) (a : string) :
  a <> "" ->
  (LegacyServerParse.isPoolAccount t (Set_from (keepTokenMints (transferMints t))) a = true
   <-> exists a', Some a = Some a' /\ PoolAccount t a').
Proof.
  intros Ha. unfold LegacyServerParse.isPoolAccount, PoolAccount.
  rewrite !andb_true_iff, negb_true_iff, strict_neq_spec, notKnownProgram_spec. split.
  - intros [[H2 H3] [H4 H5]]. exists a. split; [reflexivity|].
    apply tokenMints_includes in H3; tauto.
  - intros [a' [E (H1 & H2 & H3 & H4 & H5)]]. injection E as <-.
    apply tokenMints_includes in H3; tauto.
Qed.

Lemma legacy_isPoolAccount_any (t : Transaction) (a : string) :
  LegacyServerParse.isPoolAccount t (Set_from (keepTokenMints (transferMints t))) a = true
  <-> LegacyPoolAccount t a.
Proof.
  unfold LegacyPoolAccount. destruct (String.eqb_spec a "") as [->|Ha].
  - unfold LegacyServerParse.isPoolAccount.
    rewrite !andb_true_iff, negb_true_iff, strict_neq_spec, includes_not_In, Set_from_In,
      keepTokenMints_In. split.
    + intros [[H1 _] _]. right. split; [reflexivity | congruence].
    + intros [[H _]|[_ H]]; [contradiction|].
      split; [split; [congruence|]|reflexivity].
      intros [_ [N _]]. contradiction.
  - rewrite (legacy_isPoolAccount_spec t a Ha). split.
    + intros [a' [E H]]. injection E as <-. left. exact H.
    + intros [H|[E _]]; [exists a; split; [reflexivity | exact H] | contradiction].
Qed.

Lemma or_else_first (P : string -> Prop) (ids : list (option string))
      (found signature : option string) :
  (forall a, P a -> a <> "") ->
  FirstSuch P ids found ->
  or_else found signature = match found with Some a => Some a | None => signature end.
Proof.
  intros HP [(before & a & after & _ & Pa & _ & ->)|[_ ->]]; [|reflexivity].
  unfold or_else, truthy. apply HP in Pa.
  destruct (String.eqb_spec a ""); [contradiction | reflexivity].
Qed.

End ParserFacts.

(** C1.  A transaction whose [tokenTransfers] is absent, or has fewer than
    two entries, or holds fewer than two distinct non-native mints, makes
    [WebhookHandler.parsePoolFromTransaction] return [null]; the call
    returns normally, it does not throw. *)
Theorem parse_null_on_insufficient_transfers (t : Transaction) :
  tx_tokenTransfers t = None \/
  (exists l, tx_tokenTransfers t = Some l /\ List.length l < 2) \/
  ~ HasTwoDistinctMints t ->
  WebhookHandler.parsePoolFromTransaction (JObject t) = Ok None.
Proof.
  intros H.
  unfold WebhookHandler.parsePoolFromTransaction, WebhookHandlerParse.parsePoolFromTransaction,
    WebhookHandlerParse.parsePoolFromTransaction_try.
  destruct (tx_tokenTransfers t) as [l|] eqn:E; [|reflexivity].
  destruct (Nat.ltb_spec (List.length l) 2) as [Hl|Hl]; [reflexivity|].
  destruct (Set_from (keepTokenMints (map tt_mint l))) as [|a [|b more]] eqn:S;
    try reflexivity.
  exfalso. destruct H as [H|[(l' & H & Hlt)|H]].
  - discriminate.
  - injection H as <-. lia.
  - apply H. apply (tokenMints_two_distinct t a b more).
    unfold transferMints. rewrite E. exact S.
Qed.

Lemma parse_null_on_insufficient_transfers_witness :
  (tx_tokenTransfers
     {| tx_type := Some "CREATE_POOL"; tx_source := None; tx_signature := Some "sig0";
        tx_timestamp := None;
        tx_tokenTransfers := Some [ {| tt_mint := Some "MintA"; tt_tokenAmount := None |} ];
        tx_accountData := None; tx_accounts := None; tx_feePayer := None |} = None \/
   (exists l, Some [ {| tt_mint := Some "MintA"; tt_tokenAmount := None |} ] = Some l /\
              List.length l < 2) \/
   False) /\
  WebhookHandler.parsePoolFromTransaction
    (JObject
       {| tx_type := Some "CREATE_POOL"; tx_source := None; tx_signature := Some "sig0";
          tx_timestamp := None;
          tx_tokenTransfers := Some [ {| tt_mint := Some "MintA"; tt_tokenAmount := None |} ];
          tx_accountData := None; tx_accounts := None; tx_feePayer := None |}) = Ok None.
Proof.
  split.
  - right. left. eexists. split; [reflexivity | simpl; lia].
  - apply parse_null_on_insufficient_transfers.
    right. left. eexists. split; [reflexivity | simpl; lia].
Defined.

(** C2.  A transaction with at least two distinct non-native mints among its
    transfers is parsed by [WebhookHandler.parsePoolFromTransaction] into a
    candidate whose [tokenA] and [tokenB] are the first two distinct
    non-native mints in transfer order, and they differ. *)
Theorem parse_first_two_distinct_mints (t : Transaction) :
  HasTwoDistinctMints t ->
  exists c,
    WebhookHandler.parsePoolFromTransaction (JObject t) = Ok (Some c) /\
    FirstTwoDistinct (transferMints t) (pc_tokenA c) (pc_tokenB c) /\
    pc_tokenA c <> pc_tokenB c.
Proof.
  intros H. destruct (tokenMints_first_two t H) as (a & b & more & HS & HF).
  pose proof (FirstTwoDistinct_length _ _ _ HF) as HL.
  unfold WebhookHandler.parsePoolFromTransaction, WebhookHandlerParse.parsePoolFromTransaction,
    WebhookHandlerParse.parsePoolFromTransaction_try.
  unfold transferMints in *.
  destruct (tx_tokenTransfers t) as [l|]; [|simpl in HL; lia].
  rewrite length_map in HL.
  destruct (Nat.ltb_spec (List.length l) 2) as [Hl|_]; [lia|].
  rewrite HS. simpl. eexists. split; [reflexivity|]. simpl.
  split; [assumption|]. destruct HF as (_ & _ & _ & _ & _ & _ & _ & _ & Hab). exact Hab.
Qed.

Lemma parse_first_two_distinct_mints_witness :
  HasTwoDistinctMints exampleTransaction /\
  exists c,
    WebhookHandler.parsePoolFromTransaction (JObject exampleTransaction) = Ok (Some c) /\
    FirstTwoDistinct (transferMints exampleTransaction) (pc_tokenA c) (pc_tokenB c) /\
    pc_tokenA c <> pc_tokenB c.
Proof.
  assert (H : HasTwoDistinctMints exampleTransaction).
  { exists "TokenA...", "TokenB...". unfold NonNativeMint. simpl.
    repeat split; try discriminate; auto. }
  split; [exact H | exact (parse_first_two_distinct_mints exampleTransaction H)].
Defined.

(** C3, as the code has it.  For every transaction that parses, the pool
    address that [WebhookHandler] returns is the first non-empty account of
    [accountData] that is not the fee payer, not the mint of any transfer
    (all collected mints are excluded, not only the two chosen ones), not
    the native mint and not one of the four infrastructure programs; when
    there is no such account it is the transaction signature.  The
    single-file server reads [accounts] and does not ask for a non-empty
    account: its search stops at the first account that passes the same
    exclusions, the empty string passing them too unless it is the fee
    payer, and the pool address is that account when it is not empty, and
    the signature when it is empty or when no account passes.  So when no
    listed account is the empty string, the rule of [WebhookHandler] holds
    for the single-file server as well. *)
Theorem pool_address_first_eligible_account (t : Transaction) (c : PoolCandidate) :
  (WebhookHandler.parsePoolFromTransaction (JObject t) = Ok (Some c) ->
   PoolAddressBy (PoolAccount t) (accountDataIds t) t c) /\
  (LegacyServer.parsePoolFromTransaction (JObject t) = Ok (Some c) ->
   LegacyPoolAddressBy (LegacyPoolAccount t) (accountsIds t) t c) /\
  (LegacyServer.parsePoolFromTransaction (JObject t) = Ok (Some c) ->
   ~ In (Some "") (accountsIds t) ->
   PoolAddressBy (PoolAccount t) (accountsIds t) t c).
Proof.
  assert (NE : forall a, PoolAccount t a -> a <> "") by (intros a [H _]; exact H).
  split; [|split].
  - unfold WebhookHandler.parsePoolFromTransaction,
      WebhookHandlerParse.parsePoolFromTransaction,
      WebhookHandlerParse.parsePoolFromTransaction_try, PoolAddressBy, accountDataIds.
    pose proof (handler_isPoolAccount_spec t) as Hspec. unfold transferMints in Hspec.
    destruct (tx_tokenTransfers t) as [l|]; [|discriminate].
    destruct (List.length l <? 2); [discriminate|].
    destruct (Set_from (keepTokenMints (map tt_mint l))) as [|a [|b more]] eqn:S;
      try discriminate.
    simpl. intros H. injection H as <-. simpl.
    destruct (tx_accountData t) as [accountData|].
    + pose proof (find_FirstSuch
                    (WebhookHandlerParse.isPoolAccount t (a :: b :: more))
                    ad_account (PoolAccount t) accountData
                    (fun x _ => Hspec x)) as HF.
      destruct (find (WebhookHandlerParse.isPoolAccount t (a :: b :: more)) accountData)
        as [account|]; eexists; (split; [exact HF|]);
        apply (or_else_first (PoolAccount t) _ _ _ NE HF).
    + exists None. split; [right; split; [intros ? []|reflexivity]|reflexivity].
  - unfold LegacyServer.parsePoolFromTransaction,
      LegacyServerParse.parsePoolFromTransaction,
      LegacyServerParse.parsePoolFromTransaction_try, LegacyPoolAddressBy, accountsIds.
    pose proof (legacy_isPoolAccount_any t) as Hspec. unfold transferMints in Hspec.
    destruct (tx_tokenTransfers t) as [l|]; [|discriminate].
    destruct (negb (strict_eq (tx_type t) (Some "CREATE_POOL"))); [discriminate|].
    destruct (Set_from (keepTokenMints (map tt_mint l))) as [|a [|b more]] eqn:S;
      try discriminate.
    simpl. intros H. injection H as <-. simpl.
    destruct (tx_accounts t) as [accounts|].
    + assert (Hp : forall x, In x accounts ->
                            (LegacyServerParse.isPoolAccount t (a :: b :: more) x = true <->
                             exists a', Some x = Some a' /\ LegacyPoolAccount t a')).
      { intros x Hx. rewrite (Hspec x). split.
        - intros H. exists x. split; [reflexivity | exact H].
        - intros [a' [E H]]. injection E as <-. exact H. }
      pose proof (find_FirstSuch
                    (LegacyServerParse.isPoolAccount t (a :: b :: more))
                    Some (LegacyPoolAccount t) accounts Hp) as HF.
      destruct (find (LegacyServerParse.isPoolAccount t (a :: b :: more)) accounts)
        as [account|]; eexists; (split; [exact HF|]); [|reflexivity].
      unfold or_else, truthy. destruct (String.eqb account ""); reflexivity.
    + exists None. split; [right; split; [intros ? []|reflexivity]|reflexivity].
  - unfold LegacyServer.parsePoolFromTransaction,
      LegacyServerParse.parsePoolFromTransaction,
      LegacyServerParse.parsePoolFromTransaction_try, PoolAddressBy, accountsIds.
    pose proof (legacy_isPoolAccount_spec t) as Hspec. unfold transferMints in Hspec.
    destruct (tx_tokenTransfers t) as [l|]; [|discriminate].
    destruct (negb (strict_eq (tx_type t) (Some "CREATE_POOL"))); [discriminate|].
    destruct (Set_from (keepTokenMints (map tt_mint l))) as [|a [|b more]] eqn:S;
      try discriminate.
    simpl. intros H. injection H as <-. simpl.
    destruct (tx_accounts t) as [accounts|]; intros Hne.
    + assert (Hp : forall x, In x accounts ->
                            (LegacyServerParse.isPoolAccount t (a :: b :: more) x = true <->
                             exists a', Some x = Some a' /\ PoolAccount t a')).
      { intros x Hx. apply Hspec. intros ->. apply Hne. apply in_map. exact Hx. }
      pose proof (find_FirstSuch
                    (LegacyServerParse.isPoolAccount t (a :: b :: more))
                    Some (PoolAccount t) accounts Hp) as HF.
      destruct (find (LegacyServerParse.isPoolAccount t (a :: b :: more)) accounts)
        as [account|]; eexists; (split; [exact HF|]);
        apply (or_else_first (PoolAccount t) _ _ _ NE HF).
    + exists None. split; [right; split; [intros ? []|reflexivity]|reflexivity].
Qed.

Lemma pool_address_first_eligible_account_witness :
  (WebhookHandler.parsePoolFromTransaction (JObject threeMintTransaction)
   = Ok (Some threeMintCandidate) /\
   PoolAddressBy (PoolAccount threeMintTransaction) (accountDataIds threeMintTransaction)
                 threeMintTransaction threeMintCandidate) /\
  (LegacyServer.parsePoolFromTransaction (JObject threeMintTransaction)
   = Ok (Some threeMintCandidate) /\
   LegacyPoolAddressBy (LegacyPoolAccount threeMintTransaction)
                       (accountsIds threeMintTransaction)
                       threeMintTransaction threeMintCandidate /\
   ~ In (Some "") (accountsIds threeMintTransaction) /\
   PoolAddressBy (PoolAccount threeMintTransaction) (accountsIds threeMintTransaction)
                 threeMintTransaction threeMintCandidate).
Proof.
  assert (Hne : ~ In (Some "") (accountsIds threeMintTransaction)).
  { simpl. intros [H|[H|[]]]; discriminate. }
  destruct (pool_address_first_eligible_account threeMintTransaction threeMintCandidate)
    as (H1 & H2 & H3).
  split.
  - split; [reflexivity | exact (H1 eq_refl)].
  - split; [reflexivity|]. split; [exact (H2 eq_refl)|].
    split; [exact Hne | exact (H3 eq_refl Hne)].
Defined.

(** With an empty string among the accounts the two parsers part: the
    search of the single-file server stops at it and falls back to the
    signature, where the rule of [WebhookHandler] would go on to
    ["PoolAcct"]. *)
Lemma legacy_search_stops_at_empty_account :
  LegacyServer.parsePoolFromTransaction (JObject emptyAccountTransaction)
  = Ok (Some {| pc_tokenA := "TokenA...";
                pc_tokenB := "TokenB...";
                pc_poolAddress := Some "sigE";
                pc_signature := Some "sigE";
                pc_timestamp := Some 1700000000000%Z;
                pc_source := "unknown" |}) /\
  forall c,
    LegacyServer.parsePoolFromTransaction (JObject emptyAccountTransaction) = Ok (Some c) ->
    ~ PoolAddressBy (PoolAccount emptyAccountTransaction) (accountsIds emptyAccountTransaction)
                    emptyAccountTransaction c.
Proof.
  assert (E0 : LegacyServer.parsePoolFromTransaction (JObject emptyAccountTransaction)
               = Ok (Some {| pc_tokenA := "TokenA...";
                             pc_tokenB := "TokenB...";
                             pc_poolAddress := Some "sigE";
                             pc_signature := Some "sigE";
                             pc_timestamp := Some 1700000000000%Z;
                             pc_source := "unknown" |})) by reflexivity.
  split; [exact E0|]. intros c Hc. rewrite E0 in Hc. injection Hc as <-.
  assert (HP : PoolAccount emptyAccountTransaction "PoolAcct").
  { unfold PoolAccount, InfraProgram. simpl.
    split; [discriminate|]. split; [discriminate|].
    split; [intros [H|[H|[H|[]]]]; discriminate|]. split; [discriminate|].
    intros [H|[H|[H|H]]]; discriminate. }
  intros [first [[(before & a & after & E & _ & _ & ->)|[Hn ->]] Hp]];
    cbn [pc_poolAddress accountsIds emptyAccountTransaction tx_accounts tx_signature map]
      in *.
  - injection Hp as <-.
    destruct before as [|x [|y [|z before]]]; cbn [app] in E; discriminate.
  - apply (Hn "PoolAcct"); [right; left; reflexivity | exact HP].
Qed.

(** C3 as the specification words it does not hold: with three distinct
    mints, an account that is the third mint is neither the fee payer, nor
    one of the two chosen mints, nor a known program, and yet the code does
    not take it. *)
Lemma pool_address_skips_every_transfer_mint :
  WebhookHandler.parsePoolFromTransaction (JObject threeMintTransaction)
  = Ok (Some threeMintCandidate) /\
  ~ PoolAddressBy (PoolAccountOfTwo threeMintTransaction threeMintCandidate)
                  (accountDataIds threeMintTransaction)
                  threeMintTransaction threeMintCandidate.
Proof.
  split; [reflexivity|].
  assert (HC : PoolAccountOfTwo threeMintTransaction threeMintCandidate "MintC").
  { unfold PoolAccountOfTwo, InfraProgram. simpl.
    repeat split; try discriminate. intros [H|[H|[H|H]]]; discriminate. }
  intros [first [[(before & a & after & E & Pa & Hb & ->)|[Hn ->]] Hp]]; simpl in *.
  - injection Hp as <-.
    destruct before as [|x before]; simpl in E; [discriminate|].
    injection E as <- E. apply (Hb "MintC"); [now left | exact HC].
  - apply (Hn "MintC"); [now left | exact HC].
Qed.

(** C4, as the code has it.  On the example transaction of the
    specification the parser of the single-file server, which reads
    [accounts], returns the expected candidate, and so does
    [WebhookHandler.parsePoolFromTransaction] once the same accounts are
    given in the [accountData] layout it reads; on the example as written,
    which has no [accountData], [WebhookHandler] falls back to the
    signature. *)
Theorem example_transaction_parsed :
  LegacyServer.parsePoolFromTransaction (JObject exampleTransaction)
  = Ok (Some exampleCandidate) /\
  WebhookHandler.parsePoolFromTransaction (JObject exampleTransaction_accountData)
  = Ok (Some exampleCandidate) /\
  WebhookHandler.parsePoolFromTransaction (JObject exampleTransaction)
  = Ok (Some {| pc_tokenA := "TokenA...";
                pc_tokenB := "TokenB...";
                pc_poolAddress := Some "sig1";
                pc_signature := Some "sig1";
                pc_timestamp := Some 1700000000000%Z;
                pc_source := "unknown" |}).
Proof. repeat split. Qed.

(** C4 as the specification words it does not hold for
    [WebhookHandler.parsePoolFromTransaction]: the pool address it returns
    for the example is the signature, not ["PoolAcct"]. *)
Lemma example_transaction_handler_uses_signature :
  WebhookHandler.parsePoolFromTransaction (JObject exampleTransaction)
  <> Ok (Some exampleCandidate).
Proof. vm_compute. discriminate. Qed.

(* ------------------------------------------------------------------ *)
(** ** Running asynchronous code *)

(** Running a [try] block whose body starts with an [await]. *)
Lemma try_bind_run {S A B} (m : M S A) (k : A -> M S B) (handler : Error -> M S B) (s : S) :
  try_catch_async (bind m k) handler s =
  match m s with
  | (Ok a, s') => try_catch_async (k a) handler s'
  | (Throw e, s') => handler e s'
  end.
Proof.
  unfold try_catch_async, bind. destruct (m s) as [[a|e] s']; reflexivity.
Qed.

(* ------------------------------------------------------------------ *)
(** ** [RetryHelper.withBackoff] *)

Section RetryLoop.

Context {S A : Type}.
Variable setTimeout : Z -> M S unit.
Variable fn : M S A.

(** A successful invocation ends the loop with its value. *)
Lemma withBackoff_loop_ok (maxRetries remaining i : nat) (s s' : S) (v : A) :
  fn s = (Ok v, s') ->
  RetryHelper.withBackoff_loop setTimeout fn maxRetries (Datatypes.S remaining) i s
  = (Ok (Some v), s').
Proof.
  intros H. simpl. rewrite try_bind_run, H. reflexivity.
Qed.

(** A failure at the last index is thrown on. *)
Lemma withBackoff_loop_last (maxRetries remaining i : nat) (s s' : S) (e : Error) :
  fn s = (Throw e, s') ->
  Z.of_nat i = (Z.of_nat maxRetries - 1)%Z ->
  RetryHelper.withBackoff_loop setTimeout fn maxRetries (Datatypes.S remaining) i s
  = (Throw e, s').
Proof.
  intros H Hi. simpl. rewrite try_bind_run, H. apply Z.eqb_eq in Hi. rewrite Hi. reflexivity.
Qed.

(** A failure at an earlier index is followed by a wait of [2^i] seconds and
    the next round. *)
Lemma withBackoff_loop_retry (maxRetries remaining i : nat) (s s' s'' : S) (e : Error) :
  fn s = (Throw e, s') ->
  Z.of_nat i <> (Z.of_nat maxRetries - 1)%Z ->
  setTimeout (2 ^ Z.of_nat i * 1000)%Z s' = (Ok tt, s'') ->
  RetryHelper.withBackoff_loop setTimeout fn maxRetries (Datatypes.S remaining) i s
  = RetryHelper.withBackoff_loop setTimeout fn maxRetries remaining (Datatypes.S i) s''.
Proof.
  intros H Hi Ht. simpl. rewrite try_bind_run, H. apply Z.eqb_neq in Hi. rewrite Hi.
  unfold bind at 1. rewrite Ht. reflexivity.
Qed.

End RetryLoop.

Section RetryFacts.

Context {S A : Type}.
Variable setTimeout : Z -> M S unit.
Variable fn : M S A.

(** The timer itself does not fail. *)
Hypothesis timer_ok : forall ms s, fst (setTimeout ms s) = Ok tt.

Let run := RetryHelper.withBackoff_loop (observedTimeout setTimeout) (observed fn).

(** A successful invocation ends the loop with its value. *)
Lemma loop_step_ok (maxRetries remaining i : nat) (s s' : S) (tr : list RetryEvent) (v : A) :
  fn s = (Ok v, s') ->
  run maxRetries (Datatypes.S remaining) i (s, tr) = (Ok (Some v), (s', tr ++ [Attempt])).
Proof.
  intros H. unfold run. simpl. unfold try_catch_async, bind, observed. simpl.
  rewrite H. reflexivity.
Qed.

(** A failure at the last index is thrown on. *)
Lemma loop_step_last (maxRetries remaining i : nat) (s s' : S) (tr : list RetryEvent) (e : Error) :
  fn s = (Throw e, s') ->
  Z.of_nat i = (Z.of_nat maxRetries - 1)%Z ->
  run maxRetries (Datatypes.S remaining) i (s, tr) = (Throw e, (s', tr ++ [Attempt])).
Proof.
  intros H Hi. unfold run. simpl. unfold try_catch_async, bind, observed. simpl.
  rewrite H. apply Z.eqb_eq in Hi. rewrite Hi. reflexivity.
Qed.

(** A failure at an earlier index is followed by a wait of [2^i] seconds and
    the next round. *)
Lemma loop_step_retry (maxRetries remaining i : nat) (s s' : S) (tr : list RetryEvent) (e : Error) :
  fn s = (Throw e, s') ->
  Z.of_nat i <> (Z.of_nat maxRetries - 1)%Z ->
  run maxRetries (Datatypes.S remaining) i (s, tr) =
  run maxRetries remaining (Datatypes.S i)
      (snd (setTimeout (2 ^ Z.of_nat i * 1000)%Z s'),
       tr ++ [Attempt; Delay (2 ^ Z.of_nat i * 1000)%Z]).
Proof.
  intros H Hi. unfold run. simpl. unfold try_catch_async, bind, observed. simpl.
  rewrite H. apply Z.eqb_neq in Hi. rewrite Hi.
  unfold observedTimeout. simpl.
  pose proof (timer_ok (2 ^ Z.of_nat i * 1000)%Z s') as Ht.
  destruct (setTimeout (2 ^ Z.of_nat i * 1000)%Z s') as [r s'']. simpl in *. subst r.
  rewrite <- app_assoc. reflexivity.
Qed.

(** The loop when every invocation fails. *)
Lemma loop_always_fails (maxRetries : nat) :
  (forall s, exists e s', fn s = (Throw e, s')) ->
  forall remaining i s tr,
    i + Datatypes.S remaining = maxRetries ->
    exists e,
      fst (fn (stateAfterFailures setTimeout fn remaining i s)) = Throw e /\
      run maxRetries (Datatypes.S remaining) i (s, tr) =
      (Throw e, (snd (fn (stateAfterFailures setTimeout fn remaining i s)),
                 tr ++ backoffSchedule (Datatypes.S remaining) i)).
Proof.
  intros Hfail. induction remaining as [|remaining IH]; intros i s tr Hi.
  - destruct (Hfail s) as (e & s' & E). exists e. simpl. rewrite E. simpl.
    split; [reflexivity|]. apply loop_step_last; [assumption | lia].
  - destruct (Hfail s) as (e & s' & E).
    rewrite (loop_step_retry maxRetries (Datatypes.S remaining) i s s' tr e E) by lia.
    destruct (IH (Datatypes.S i) (snd (setTimeout (2 ^ Z.of_nat i * 1000)%Z s'))
                 (tr ++ [Attempt; Delay (2 ^ Z.of_nat i * 1000)%Z])) as (e' & He' & Hrun);
      [lia|].
    exists e'. cbn [stateAfterFailures]. rewrite E. cbn [snd].
    split; [exact He'|]. rewrite Hrun, <- app_assoc. reflexivity.
Qed.

(** Observing a run does not change it: value, error and final state are
    those of the plain run. *)
Lemma observed_loop_erases (maxRetries remaining i : nat) (s : S) (tr : list RetryEvent) :
  fst (run maxRetries remaining i (s, tr))
  = fst (RetryHelper.withBackoff_loop setTimeout fn maxRetries remaining i s) /\
  fst (snd (run maxRetries remaining i (s, tr)))
  = snd (RetryHelper.withBackoff_loop setTimeout fn maxRetries remaining i s).
Proof.
  revert i s tr. induction remaining as [|remaining IH]; intros i s tr.
  - split; reflexivity.
  - unfold run. simpl. unfold try_catch_async, bind, observed, observedTimeout. simpl.
    destruct (fn s) as [[v|e] s']; simpl; [split; reflexivity|].
    destruct (Z.of_nat i =? Z.of_nat maxRetries - 1)%Z; simpl; [split; reflexivity|].
    destruct (setTimeout (2 ^ Z.of_nat i * 1000)%Z s') as [[[]|e'] s'']; simpl;
      [apply IH | split; reflexivity].
Qed.

Lemma backoffSchedule_attempts (attempts i : nat) :
  List.length (filter isAttempt (backoffSchedule attempts i)) = attempts.
Proof.
  revert i. induction attempts as [|n IH]; intros i; [reflexivity|].
  destruct n as [|n]; [reflexivity|].
  change (backoffSchedule (Datatypes.S (Datatypes.S n)) i)
    with (Attempt :: Delay (2 ^ Z.of_nat i * 1000)%Z
                  :: backoffSchedule (Datatypes.S n) (Datatypes.S i)).
  cbn [filter isAttempt List.length]. now rewrite IH.
Qed.

(** C7.  With an operation that fails twice and then succeeds, and room for
    three attempts, [withBackoff] returns the value of the third invocation
    after waiting one second and then two seconds.  With an operation that
    always fails, and at least one attempt allowed, it invokes the operation
    exactly [maxRetries] times, waits [2^i] seconds after the failure of
    index [i] and before the next invocation, never waits before the first
    invocation nor after the last one, and throws the error of the last
    invocation.  The errors are arbitrary: none is treated differently.  The
    run is read off a record of invocations and waits kept next to the
    state; recording changes neither the result nor the state. *)
Theorem withBackoff_schedule (maxRetries : nat) :
  (forall s0 e1 s1 e2 s2 v s3,
      3 <= maxRetries ->
      fn s0 = (Throw e1, s1) ->
      fn (snd (setTimeout 1000%Z s1)) = (Throw e2, s2) ->
      fn (snd (setTimeout 2000%Z s2)) = (Ok v, s3) ->
      RetryHelper.withBackoff (observedTimeout setTimeout) (observed fn) maxRetries (s0, [])
      = (Ok (Some v), (s3, [Attempt; Delay 1000%Z; Attempt; Delay 2000%Z; Attempt])))
  /\
  (forall s0,
      1 <= maxRetries ->
      (forall s, exists e s', fn s = (Throw e, s')) ->
      exists e,
        fst (fn (stateAfterFailures setTimeout fn (maxRetries - 1) 0 s0)) = Throw e /\
        RetryHelper.withBackoff (observedTimeout setTimeout) (observed fn) maxRetries (s0, [])
        = (Throw e, (snd (fn (stateAfterFailures setTimeout fn (maxRetries - 1) 0 s0)),
                     backoffSchedule maxRetries 0)) /\
        List.length (filter isAttempt (backoffSchedule maxRetries 0)) = maxRetries /\
        hd_error (backoffSchedule maxRetries 0) = Some Attempt /\
        last (backoffSchedule maxRetries 0) Attempt = Attempt)
  /\
  (forall s0,
      fst (RetryHelper.withBackoff (observedTimeout setTimeout) (observed fn) maxRetries (s0, []))
      = fst (RetryHelper.withBackoff setTimeout fn maxRetries s0) /\
      fst (snd (RetryHelper.withBackoff (observedTimeout setTimeout) (observed fn)
                                        maxRetries (s0, [])))
      = snd (RetryHelper.withBackoff setTimeout fn maxRetries s0)).
Proof.
  split; [|split; [|intros s0; apply observed_loop_erases]].
  - intros s0 e1 s1 e2 s2 v s3 Hn E1 E2 E3.
    destruct maxRetries as [|[|[|n]]]; try lia.
    unfold RetryHelper.withBackoff. fold run.
    rewrite (loop_step_retry _ _ 0 s0 s1 [] e1 E1) by lia.
    change (2 ^ Z.of_nat 0 * 1000)%Z with 1000%Z.
    rewrite (loop_step_retry _ _ 1 _ s2 _ e2 E2) by lia.
    change (2 ^ Z.of_nat 1 * 1000)%Z with 2000%Z.
    rewrite (loop_step_ok _ _ 2 _ s3 _ v E3). reflexivity.
  - intros s0 Hn Hfail.
    destruct maxRetries as [|n]; [lia|].
    destruct (loop_always_fails (Datatypes.S n) Hfail n 0 s0 []) as (e & He & Hrun);
      [reflexivity|].
    exists e. replace (Datatypes.S n - 1) with n by lia.
    split; [exact He|]. split; [exact Hrun|].
    split; [apply backoffSchedule_attempts|].
    split.
    + destruct n; reflexivity.
    + clear. generalize 0 as i. induction n as [|n IH]; intros i; [reflexivity|].
      change (backoffSchedule (Datatypes.S (Datatypes.S n)) i)
        with (Attempt :: Delay (2 ^ Z.of_nat i * 1000)%Z
                      :: backoffSchedule (Datatypes.S n) (Datatypes.S i)).
      specialize (IH (Datatypes.S i)).
      destruct (backoffSchedule (Datatypes.S n) (Datatypes.S i)) eqn:E.
      * destruct n; discriminate.
      * exact IH.
Qed.

End RetryFacts.

Lemma withBackoff_schedule_witness :
  (3 <= 3 /\
   failsTwice 0 = (Throw FetchFailed, 1) /\
   failsTwice (snd (idleTimer 1000%Z 1)) = (Throw FetchFailed, 2) /\
   failsTwice (snd (idleTimer 2000%Z 2)) = (Ok "pools", 3) /\
   RetryHelper.withBackoff (observedTimeout idleTimer) (observed failsTwice) 3 (0, [])
   = (Ok (Some "pools"), (3, [Attempt; Delay 1000%Z; Attempt; Delay 2000%Z; Attempt])))
  /\
  (1 <= 3 /\
   (forall s, exists e s', alwaysFails s = (Throw e, s')) /\
   exists e,
     fst (alwaysFails (stateAfterFailures idleTimer alwaysFails (3 - 1) 0 0)) = Throw e /\
     RetryHelper.withBackoff (observedTimeout idleTimer) (observed alwaysFails) 3 (0, [])
     = (Throw e, (snd (alwaysFails (stateAfterFailures idleTimer alwaysFails (3 - 1) 0 0)),
                  backoffSchedule 3 0)) /\
     List.length (filter isAttempt (backoffSchedule 3 0)) = 3 /\
     hd_error (backoffSchedule 3 0) = Some Attempt /\
     last (backoffSchedule 3 0) Attempt = Attempt).
Proof.
  assert (T : forall ms s, fst (idleTimer ms s) = Ok tt) by reflexivity.
  assert (F : forall s, exists e s', alwaysFails s = (Throw e, s'))
    by (intros s; eexists; eexists; reflexivity).
  split.
  - split; [lia|]. split; [reflexivity|]. split; [reflexivity|]. split; [reflexivity|].
    apply (proj1 (withBackoff_schedule idleTimer failsTwice T 3)
                 0 FetchFailed 1 FetchFailed 2 "pools"%string 3);
      [lia | reflexivity | reflexivity | reflexivity].
  - split; [lia|]. split; [exact F|].
    apply (proj1 (proj2 (withBackoff_schedule idleTimer alwaysFails T 3)) 0); [lia | exact F].
Defined.

(* ------------------------------------------------------------------ *)
(** ** [RateLimiter.wait] *)

(** C8.  Take the state [w1] that a call of [wait()] leaves, let any amount
    of time pass while the limiter is left alone, and call [wait()] again:
    the second call completes at least [delay] milliseconds after the first
    one completed.  The timestamp that [wait()] records is the time of its
    completion.  In particular two calls in immediate succession with a
    delay of 1000 ms complete at least 1000 ms apart. *)
Theorem rate_limiter_spacing (w0 w1' : World) :
  rateLimiter w1' = rateLimiter (snd (RateLimiter.wait w0)) ->
  (clock (snd (RateLimiter.wait w0)) <= clock w1')%Z ->
  fst (RateLimiter.wait w0) = Ok tt /\
  fst (RateLimiter.wait w1') = Ok tt /\
  rl_lastCall (rateLimiter (snd (RateLimiter.wait w0))) = clock (snd (RateLimiter.wait w0)) /\
  (clock (snd (RateLimiter.wait w0)) + rl_delay (rateLimiter w0)
   <= clock (snd (RateLimiter.wait w1')))%Z /\
  (rl_delay (rateLimiter w0) = 1000%Z ->
   (clock (snd (RateLimiter.wait w0)) + 1000
    <= clock (snd (RateLimiter.wait (snd (RateLimiter.wait w0)))))%Z).
Proof.
  assert (W : forall w,
             fst (RateLimiter.wait w) = Ok tt /\
             rateLimiter (snd (RateLimiter.wait w))
             = {| rl_lastCall := clock (snd (RateLimiter.wait w));
                  rl_delay := rl_delay (rateLimiter w) |} /\
             (clock w <= clock (snd (RateLimiter.wait w)))%Z /\
             (rl_lastCall (rateLimiter w) + rl_delay (rateLimiter w)
              <= clock (snd (RateLimiter.wait w)))%Z).
  { intros w. unfold RateLimiter.wait, bind, Env.Date_now, Env.get, Env.setTimeout,
      Env.set_rateLimiter, ret. simpl.
    destruct (Z.ltb_spec (clock w - rl_lastCall (rateLimiter w)) (rl_delay (rateLimiter w)));
      simpl; repeat split; lia. }
  intros HR HC.
  destruct (W w0) as (R0 & L0 & C0 & D0).
  destruct (W w1') as (R1 & L1 & C1 & D1).
  destruct (W (snd (RateLimiter.wait w0))) as (R2 & L2 & C2 & D2).
  rewrite HR, L0 in D1. simpl in D1. rewrite L0 in D2. simpl in D2.
  repeat split; try assumption.
  - rewrite L0. reflexivity.
  - intros H. rewrite H in D2. exact D2.
Qed.

Lemma rate_limiter_spacing_witness :
  rateLimiter (Env.elapse 250 (snd (RateLimiter.wait (freshWorld [] []))))
  = rateLimiter (snd (RateLimiter.wait (freshWorld [] []))) /\
  (clock (snd (RateLimiter.wait (freshWorld [] [])))
   <= clock (Env.elapse 250 (snd (RateLimiter.wait (freshWorld [] [])))))%Z /\
  (clock (snd (RateLimiter.wait (freshWorld [] []))) + 2000
   <= clock (snd (RateLimiter.wait
                    (Env.elapse 250 (snd (RateLimiter.wait (freshWorld [] [])))))))%Z.
Proof.
  split; [reflexivity|]. split; [vm_compute; discriminate|].
  apply (rate_limiter_spacing (freshWorld [] [])
           (Env.elapse 250 (snd (RateLimiter.wait (freshWorld [] []))))).
  - reflexivity.
  - vm_compute. discriminate.
Defined.

(* ------------------------------------------------------------------ *)
(** ** Composition rules *)

Section Respects.

Context {S : Type}.
Variable R : S -> S -> Prop.
Hypothesis R_refl : forall s, R s s.
Hypothesis R_trans : forall s1 s2 s3, R s1 s2 -> R s2 s3 -> R s1 s3.

Lemma respects_ret {A} (a : A) : respects R (ret a).
Proof. intros s. apply R_refl. Qed.

Lemma respects_throw {A} (e : Error) : respects R (@throw S A e).
Proof. intros s. apply R_refl. Qed.

Lemma respects_lift {A} (r : Result A) : respects R (lift r).
Proof. intros s. apply R_refl. Qed.

Lemma respects_bind {A B} (m : M S A) (k : A -> M S B) :
  respects R m -> (forall a, respects R (k a)) -> respects R (bind m k).
Proof.
  intros Hm Hk s. unfold bind. specialize (Hm s).
  destruct (m s) as [[a|e] s']; simpl in *; [|assumption].
  eapply R_trans; [exact Hm | apply Hk].
Qed.

Lemma respects_try {A} (body : M S A) (handler : Error -> M S A) :
  respects R body -> (forall e, respects R (handler e)) ->
  respects R (try_catch_async body handler).
Proof.
  intros Hm Hk s. unfold try_catch_async. specialize (Hm s).
  destruct (body s) as [[a|e] s']; simpl in *; [assumption|].
  eapply R_trans; [exact Hm | apply Hk].
Qed.

Lemma respects_withBackoff {A} (setTimeout : Z -> M S unit) (fn : M S A) (maxRetries : nat) :
  (forall ms, respects R (setTimeout ms)) -> respects R fn ->
  respects R (RetryHelper.withBackoff setTimeout fn maxRetries).
Proof.
  intros Ht Hf. unfold RetryHelper.withBackoff.
  generalize 0 as i. generalize maxRetries at 2 as remaining.
  induction remaining as [|remaining IH]; intros i; simpl.
  - apply respects_ret.
  - apply respects_try.
    + apply respects_bind; [assumption | intros; apply respects_ret].
    + intros e. destruct (Z.of_nat i =? Z.of_nat maxRetries - 1)%Z.
      * apply respects_throw.
      * apply respects_bind; [apply Ht | intros; apply IH].
Qed.

End Respects.

(** A [catch] that returns a value makes the whole block return. *)
Lemma try_catch_returns {S A} (body : M S A) (a : A) :
  neverThrows (try_catch_async body (fun _ => ret a)).
Proof.
  intros s. unfold try_catch_async. destruct (body s) as [[v|e] s']; simpl; eauto.
Qed.

Lemma SameDb_refl (w : World) : SameDb w w.
Proof. reflexivity. Qed.

Lemma SameDb_trans (w1 w2 w3 : World) : SameDb w1 w2 -> SameDb w2 w3 -> SameDb w1 w3.
Proof. unfold SameDb. congruence. Qed.

Lemma Grows_refl (w : World) : Grows w w.
Proof. repeat split; try (exists []; now rewrite app_nil_r). auto. Qed.

Lemma Grows_trans (w1 w2 w3 : World) : Grows w1 w2 -> Grows w2 w3 -> Grows w1 w3.
Proof.
  intros ([a1 P1] & [b1 E1] & N1) ([a2 P2] & [b2 E2] & N2). repeat split.
  - exists (a1 ++ a2). rewrite P2, P1, app_assoc. reflexivity.
  - exists (b1 ++ b2). rewrite E2, E1, app_assoc. reflexivity.
  - auto.
Qed.

Lemma SameDb_Grows (w w' : World) : SameDb w w' -> Grows w w'.
Proof.
  unfold SameDb, db, Grows, poolAddresses. intros H. injection H as HP HE.
  rewrite HP, HE. repeat split; try (exists []; now rewrite app_nil_r). auto.
Qed.

Lemma respects_SameDb_Grows {A} (m : M World A) : respects SameDb m -> respects Grows m.
Proof. intros H w. apply SameDb_Grows, H. Qed.

Create HintDb frame.

#[local] Hint Resolve SameDb_refl SameDb_trans Grows_refl Grows_trans : frame.

(** Decomposes a computation along its binds, [try] blocks and branches. *)
Ltac frame_step R_refl R_trans :=
  match goal with
  | |- respects _ (bind _ _) => apply (respects_bind _ R_trans); [|intros]
  | |- respects _ (try_catch_async _ _) => apply (respects_try _ R_trans); [|intros]
  | |- respects _ (ret _) => apply (respects_ret _ R_refl)
  | |- respects _ (throw _) => apply (respects_throw _ R_refl)
  | |- respects _ (lift _) => apply (respects_lift _ R_refl)
  | |- respects _ (RetryHelper.withBackoff _ _ _) =>
      apply (respects_withBackoff _ R_refl R_trans); [intros|]
  | |- respects _ (if ?b then _ else _) => destruct b
  | |- respects _ (match ?x with _ => _ end) => destruct x
  end.

Ltac same_db :=
  repeat first [ frame_step SameDb_refl SameDb_trans
               | solve [auto with frame]
               | solve [intros w; reflexivity] ].

Ltac grows :=
  repeat first [ solve [auto with frame]
               | solve [apply respects_SameDb_Grows; auto with frame]
               | frame_step Grows_refl Grows_trans ].

(* ------------------------------------------------------------------ *)
(** ** What each component does to the database *)

Section DatabaseFrame.

Lemma setTimeout_SameDb (ms : Z) : respects SameDb (Env.setTimeout ms).
Proof. intros w. reflexivity. Qed.

Lemma fetch_llama_SameDb : respects SameDb Env.fetch_llama.
Proof. intros w. unfold Env.fetch_llama. destruct (llamaResponses w) as [|[r|] l]; reflexivity. Qed.

Lemma fetch_jupiter_SameDb (mint : string) : respects SameDb (Env.fetch_jupiter mint).
Proof. intros w. unfold Env.fetch_jupiter. destruct (jupiterResponses w) as [|[r|] l]; reflexivity. Qed.

Lemma json_SameDb {B} (r : Response B) : respects SameDb (Env.json r).
Proof. unfold Env.json. same_db. Qed.

Lemma db_roundtrip_SameDb : respects SameDb Env.db_roundtrip.
Proof. intros w. unfold Env.db_roundtrip. destruct (dbFaults w) as [|[|] l]; reflexivity. Qed.

Lemma Date_now_SameDb : respects SameDb Env.Date_now.
Proof. intros w. reflexivity. Qed.

Lemma get_SameDb {A} (f : World -> A) : respects SameDb (Env.get f).
Proof. intros w. reflexivity. Qed.

Lemma set_rateLimiter_SameDb (r : RateLimiterState) : respects SameDb (Env.set_rateLimiter r).
Proof. intros w. reflexivity. Qed.

Hint Resolve setTimeout_SameDb fetch_llama_SameDb fetch_jupiter_SameDb json_SameDb
     db_roundtrip_SameDb Date_now_SameDb get_SameDb set_rateLimiter_SameDb : frame.

Lemma wait_SameDb : respects SameDb RateLimiter.wait.
Proof. unfold RateLimiter.wait. same_db. Qed.

Lemma getBestApyForMint_SameDb (mint chain : string) :
  respects SameDb (DefiLlamaClient.getBestApyForMint mint chain).
Proof.
  unfold DefiLlamaClient.getBestApyForMint, DefiLlamaClient.searchPools,
    DefiLlamaClient.getAllPools, DefiLlamaClient.getAllPools_fn.
  same_db.
Qed.

Lemma getFullTokenData_SameDb (mint : string) :
  respects SameDb (JupiterClient.getFullTokenData mint).
Proof.
  unfold JupiterClient.getFullTokenData, JupiterClient.getTokenInfo,
    JupiterClient.getTokenInfo_fn.
  same_db.
Qed.

Lemma pool_findUnique_SameDb (a : option string) : respects SameDb (Prisma.pool_findUnique a).
Proof. unfold Prisma.pool_findUnique. same_db. Qed.

Lemma poolExists_SameDb (a : option string) : respects SameDb (DatabaseClient.poolExists a).
Proof.
  unfold DatabaseClient.poolExists. pose proof pool_findUnique_SameDb. same_db.
Qed.

Lemma pool_findMany_SameDb (where_ : Pool -> bool) (before : Pool -> Pool -> bool) (take : nat) :
  respects SameDb (Prisma.pool_findMany where_ before take).
Proof. unfold Prisma.pool_findMany. same_db. Qed.

Lemma existsb_address_false (ps : list Pool) (a : string) :
  existsb (fun p => String.eqb (pool_poolAddress p) a) ps = false ->
  ~ In a (map pool_poolAddress ps).
Proof.
  intros H Hin. apply in_map_iff in Hin. destruct Hin as (p & <- & Hp).
  assert (existsb (fun q => String.eqb (pool_poolAddress q) (pool_poolAddress p)) ps = true).
  { apply existsb_exists. exists p. split; [assumption | apply String.eqb_refl]. }
  congruence.
Qed.

Lemma set_pools_append_Grows (row : Pool) (w w' : World) :
  ~ In (pool_poolAddress row) (poolAddresses w) ->
  pools w' = pools w ++ [row] ->
  events w' = events w ->
  Grows w w'.
Proof.
  intros Hn HP HE. unfold Grows, poolAddresses. rewrite HP, HE. split; [eauto|]. split.
  - exists []. now rewrite app_nil_r.
  - intros ND. rewrite map_app. simpl. apply NoDup_app; [assumption | repeat constructor; intros [] |].
    intros a Ha [<-|[]]. contradiction.
Qed.

Lemma pool_create_Grows (data : Prisma.PoolCreate) : respects Grows (Prisma.pool_create data).
Proof.
  intros w. unfold Prisma.pool_create.
  destruct (Prisma.c_poolAddress data) as [a|]; [|apply Grows_refl].
  destruct (Prisma.c_signature data) as [sg|]; [|apply Grows_refl].
  destruct (negb (Prisma.validTimestamp (Prisma.c_timestamp data))); [apply Grows_refl|].
  unfold bind. pose proof (db_roundtrip_SameDb w) as H0.
  destruct (Env.db_roundtrip w) as [[[]|e] w1]; simpl in *; [|apply SameDb_Grows, H0].
  apply (Grows_trans _ w1); [apply SameDb_Grows, H0|].
  destruct (existsb (fun p => String.eqb (pool_poolAddress p) a) (pools w1)) eqn:E1;
    [apply Grows_refl|].
  destruct (existsb (fun p => String.eqb (pool_signature p) sg) (pools w1));
    [apply Grows_refl|].
  simpl. eapply set_pools_append_Grows; [|reflexivity|reflexivity]. simpl.
  apply existsb_address_false. exact E1.
Qed.

Lemma poolEvent_create_Grows (data : Prisma.EventCreate) :
  respects Grows (Prisma.poolEvent_create data).
Proof.
  intros w. unfold Prisma.poolEvent_create.
  destruct (Prisma.e_signature data) as [sg|]; [|apply Grows_refl].
  unfold bind. pose proof (db_roundtrip_SameDb w) as H0.
  destruct (Env.db_roundtrip w) as [[[]|e] w1]; simpl in *; [|apply SameDb_Grows, H0].
  apply (Grows_trans _ w1); [apply SameDb_Grows, H0|].
  destruct (existsb (fun e => String.eqb (ev_signature e) sg) (events w1));
    [apply Grows_refl|].
  simpl. unfold Grows, poolAddresses. simpl. split; [|split; [eauto | auto]].
  exists []. now rewrite app_nil_r.
Qed.

Hint Resolve wait_SameDb getBestApyForMint_SameDb getFullTokenData_SameDb
     pool_findUnique_SameDb poolExists_SameDb pool_findMany_SameDb
     pool_create_Grows poolEvent_create_Grows : frame.

Lemma storePool_Grows (poolData : DatabaseClient.PoolData) :
  respects Grows (DatabaseClient.storePool poolData).
Proof. unfold DatabaseClient.storePool. grows. Qed.

Lemma storeEvent_Grows (eventData : DatabaseClient.EventData) :
  respects Grows (DatabaseClient.storeEvent eventData).
Proof. unfold DatabaseClient.storeEvent. grows. Qed.

Hint Resolve storePool_Grows storeEvent_Grows : frame.

Lemma savePoolToDatabase_Grows (poolData : PoolCandidate) :
  respects Grows (WebhookHandler.savePoolToDatabase poolData).
Proof. unfold WebhookHandler.savePoolToDatabase. grows. Qed.

Hint Resolve savePoolToDatabase_Grows : frame.

Lemma processTransaction_Grows (item : Item) :
  respects Grows (WebhookHandler.processTransaction item).
Proof. unfold WebhookHandler.processTransaction. grows. Qed.

Hint Resolve processTransaction_Grows : frame.

Lemma forOf_Grows (items : list Item) : respects Grows (WebhookHandler.forOf items).
Proof. induction items as [|item items IH]; simpl; grows. Qed.

Hint Resolve forOf_Grows : frame.


End DatabaseFrame.

(* ------------------------------------------------------------------ *)
(** ** The ingestion loop *)

Section Ingestion.

Lemma parse_never_throws (item : Item) :
  exists r, WebhookHandler.parsePoolFromTransaction item = Ok r.
Proof.
  unfold WebhookHandler.parsePoolFromTransaction, WebhookHandlerParse.parsePoolFromTransaction,
    try_catch.
  destruct (WebhookHandlerParse.parsePoolFromTransaction_try item); eauto.
Qed.

Lemma savePoolToDatabase_returns (poolData : PoolCandidate) :
  neverThrows (WebhookHandler.savePoolToDatabase poolData).
Proof. apply try_catch_returns. Qed.

Lemma processTransaction_object_returns (t : Transaction) (w : World) :
  fst (WebhookHandler.processTransaction (JObject t) w) = Ok tt.
Proof.
  unfold WebhookHandler.processTransaction.
  destruct (WebhookHandler.acceptedType (tx_type t)); [|reflexivity].
  destruct (parse_never_throws (JObject t)) as [r Hr].
  unfold bind, lift. rewrite Hr. destruct r as [c|]; [|reflexivity].
  destruct (savePoolToDatabase_returns c w) as [p Hp].
  destruct (WebhookHandler.savePoolToDatabase c w) as [r' w']. simpl in Hp. subst r'.
  reflexivity.
Qed.

Lemma forOf_cons_run (item : Item) (items : list Item) (w : World) :
  WebhookHandler.forOf (item :: items) w =
  match WebhookHandler.processTransaction item w with
  | (Ok _, w') => WebhookHandler.forOf items w'
  | (Throw e, w') => (Throw e, w')
  end.
Proof. reflexivity. Qed.

Lemma forOf_objects_return (txs : list Transaction) (w : World) :
  fst (WebhookHandler.forOf (map JObject txs) w) = Ok tt.
Proof.
  revert w. induction txs as [|t txs IH]; intros w; [reflexivity|].
  cbn [map]. rewrite forOf_cons_run. pose proof (processTransaction_object_returns t w) as H.
  destruct (WebhookHandler.processTransaction (JObject t) w) as [r w']. simpl in H. subst r.
  apply IH.
Qed.

(** A batch of objects is always answered with 200. *)
Lemma submit_status (txs : list Transaction) (w : World) :
  fst (submit txs w) = Ok 200%Z.
Proof.
  unfold submit, Server.post_webhook_helius, WebhookHandler.processWebhookPayload,
    try_catch_async, bind.
  pose proof (forOf_objects_return txs w) as H.
  destruct (WebhookHandler.forOf (map JObject txs) w) as [r w']. simpl in H. subst r.
  reflexivity.
Qed.


(** The existence check finds an address that is on record. *)
Lemma poolExists_on_record (a : string) (w : World) :
  In a (poolAddresses w) ->
  (exists w1, DatabaseClient.poolExists (Some a) w = (Ok true, w1)) \/
  (exists e w1, DatabaseClient.poolExists (Some a) w = (Throw e, w1)).
Proof.
  intros Hin. unfold DatabaseClient.poolExists, Prisma.pool_findUnique, bind.
  pose proof (db_roundtrip_SameDb w) as H0.
  destruct (Env.db_roundtrip w) as [[[]|e] w1]; [|right; eauto].
  left. unfold Env.get, ret. simpl. unfold SameDb, db in H0. simpl in H0. injection H0 as HP _.
  destruct (List.find (fun q => String.eqb (pool_poolAddress q) a) (pools w1)) eqn:F;
    [eexists; reflexivity|].
  exfalso. unfold poolAddresses in Hin. rewrite <- HP in Hin.
  apply in_map_iff in Hin. destruct Hin as (row & <- & Hrow).
  apply (find_none _ _ F) in Hrow. rewrite String.eqb_refl in Hrow. discriminate.
Qed.

(** A candidate whose address is on record is skipped: nothing is written,
    nothing is thrown. *)
Lemma savePoolToDatabase_on_record (poolData : PoolCandidate) (a : string) (w : World) :
  pc_poolAddress poolData = Some a ->
  In a (poolAddresses w) ->
  fst (WebhookHandler.savePoolToDatabase poolData w) = Ok None /\
  SameDb w (snd (WebhookHandler.savePoolToDatabase poolData w)).
Proof.
  intros Ha Hin. unfold WebhookHandler.savePoolToDatabase.
  rewrite try_bind_run, Ha.
  pose proof (poolExists_SameDb (Some a) w) as HS.
  destruct (poolExists_on_record a w Hin) as [[w1 E]|(e & w1 & E)];
    rewrite E in *; simpl in *; auto.
Qed.

Lemma processTransaction_on_record (t : Transaction) (w : World) :
  (forall c, CandidateOf t c ->
             exists a, pc_poolAddress c = Some a /\ In a (poolAddresses w)) ->
  SameDb w (snd (WebhookHandler.processTransaction (JObject t) w)).
Proof.
  intros H. unfold WebhookHandler.processTransaction.
  destruct (WebhookHandler.acceptedType (tx_type t)) eqn:T; [|reflexivity].
  destruct (parse_never_throws (JObject t)) as [r Hr].
  unfold bind, lift. rewrite Hr. destruct r as [c|]; [|reflexivity].
  destruct (H c (conj T Hr)) as (a & Ha & Hin).
  destruct (savePoolToDatabase_on_record c a w Ha Hin) as [H1 H2].
  destruct (WebhookHandler.savePoolToDatabase c w) as [r' w']. simpl in *. subst r'.
  exact H2.
Qed.

Lemma forOf_on_record (txs : list Transaction) (w : World) :
  (forall t c, In t txs -> CandidateOf t c ->
               exists a, pc_poolAddress c = Some a /\ In a (poolAddresses w)) ->
  SameDb w (snd (WebhookHandler.forOf (map JObject txs) w)).
Proof.
  revert w. induction txs as [|t txs IH]; intros w H; [reflexivity|].
  cbn [map]. rewrite forOf_cons_run.
  pose proof (processTransaction_on_record t w (fun c => H t c (or_introl eq_refl))) as H1.
  pose proof (processTransaction_object_returns t w) as H2.
  destruct (WebhookHandler.processTransaction (JObject t) w) as [r w']. simpl in *. subst r.
  apply (SameDb_trans _ w'); [exact H1|]. apply IH.
  intros t' c Ht Hc. destruct (H t' c (or_intror Ht) Hc) as (a & Ha & Hin).
  exists a. split; [exact Ha|]. unfold poolAddresses in *. unfold SameDb, db in H1.
  injection H1 as -> _. exact Hin.
Qed.

End Ingestion.

(* ------------------------------------------------------------------ *)
(** ** One candidate, step by step *)

Section SaveRuns.

Lemma SameStore_refl (w : World) : SameStore w w.
Proof. split; reflexivity. Qed.

Lemma SameStore_trans (w1 w2 w3 : World) :
  SameStore w1 w2 -> SameStore w2 w3 -> SameStore w1 w3.
Proof. unfold SameStore. intros [H1 H2] [H3 H4]. split; congruence. Qed.

Lemma fetch_llama_SameStore : respects SameStore Env.fetch_llama.
Proof.
  intros w. unfold Env.fetch_llama. destruct (llamaResponses w) as [|[r|] l]; split; reflexivity.
Qed.



Lemma getBestApyForMint_SameStore (mint chain : string) :
  respects SameStore (DefiLlamaClient.getBestApyForMint mint chain).
Proof.
  unfold DefiLlamaClient.getBestApyForMint, DefiLlamaClient.searchPools,
    DefiLlamaClient.getAllPools, DefiLlamaClient.getAllPools_fn, Env.json.
  repeat first [ apply fetch_llama_SameStore
               | frame_step SameStore_refl SameStore_trans
               | solve [intros w; split; reflexivity] ].
Qed.






Lemma db_roundtrip_state (w : World) :
  snd (Env.db_roundtrip w) = afterDbCalls 1 w.
Proof.
  unfold Env.db_roundtrip, afterDbCalls. destruct (dbFaults w) as [|[|] l]; reflexivity.
Qed.



Lemma pool_findUnique_run (a : string) (w : World) :
  hd false (dbFaults w) = false ->
  Prisma.pool_findUnique (Some a) w
  = (Ok (List.find (fun p => String.eqb (pool_poolAddress p) a) (pools w)),
     snd (Env.db_roundtrip w)).
Proof.
  unfold Prisma.pool_findUnique, bind, Env.db_roundtrip, Env.get, ret.
  destruct (dbFaults w) as [|[|] faults]; cbn [hd fst snd pools];
    [reflexivity | discriminate | reflexivity].
Qed.

Lemma find_by_address (a : string) (l : list Pool) :
  match List.find (fun p => String.eqb (pool_poolAddress p) a) l with
  | Some p => In p l /\ pool_poolAddress p = a
  | None => ~ In a (map pool_poolAddress l)
  end.
Proof.
  destruct (List.find (fun p => String.eqb (pool_poolAddress p) a) l) as [p|] eqn:E.
  - apply find_some in E. destruct E as [Hin He]. apply String.eqb_eq in He. auto.
  - intros Hin. apply in_map_iff in Hin. destruct Hin as (p & <- & Hp).
    apply (find_none _ _ E) in Hp. rewrite String.eqb_refl in Hp. discriminate.
Qed.

(** An insert that nothing refuses. *)
Lemma pool_create_run (data : Prisma.PoolCreate) (a sg : string) (w : World) :
  Prisma.c_poolAddress data = Some a -> Prisma.c_signature data = Some sg ->
  Prisma.validTimestamp (Prisma.c_timestamp data) = true ->
  hd false (dbFaults w) = false ->
  ~ In a (poolAddresses w) -> ~ In sg (map pool_signature (pools w)) ->
  exists row,
    fst (Prisma.pool_create data w) = Ok row /\
    pools (snd (Prisma.pool_create data w)) = pools w ++ [row] /\
    events (snd (Prisma.pool_create data w)) = events w /\
    pool_poolAddress row = a /\ pool_signature row = sg /\
    pool_tokenA row = Prisma.c_tokenA data /\ pool_tokenB row = Prisma.c_tokenB data /\
    pool_source row = Prisma.c_source data /\
    pool_apy row = Prisma.c_apy data /\ pool_tvl row = Prisma.c_tvl data /\
    pool_timestamp row = Prisma.timestampColumn (Prisma.c_timestamp data) /\
    matchedPools (snd (Prisma.pool_create data w)) = matchedPools w /\
    clock (snd (Prisma.pool_create data w)) = clock w.
Proof.
  intros Ha Hsg HT HF N1 N2. unfold Prisma.pool_create. rewrite Ha, Hsg, HT. cbn [negb].
  unfold bind, Env.db_roundtrip, Env.get, Env.Date_now, Env.set_pools, Env.nextval_pool,
    ret, throw.
  assert (E1 : existsb (fun p => String.eqb (pool_poolAddress p) a) (pools w) = false).
  { destruct (existsb (fun p => String.eqb (pool_poolAddress p) a) (pools w)) eqn:E;
      [|reflexivity]. exfalso. apply N1.
    apply existsb_exists in E. destruct E as (p & Hp & He). apply String.eqb_eq in He.
    apply in_map_iff. exists p. auto. }
  assert (E2 : existsb (fun p => String.eqb (pool_signature p) sg) (pools w) = false).
  { destruct (existsb (fun p => String.eqb (pool_signature p) sg) (pools w)) eqn:E;
      [|reflexivity]. exfalso. apply N2.
    apply existsb_exists in E. destruct E as (p & Hp & He). apply String.eqb_eq in He.
    apply in_map_iff. exists p. auto. }
  destruct (dbFaults w) as [|[|] faults]; cbn [hd] in HF; try discriminate;
    cbn [fst snd pools events clock]; rewrite E1, E2;
    cbn [fst snd pools events clock matchedPools];
    eexists; repeat split.
Qed.

(** An insert with an invalid date is refused before it reaches the
    database. *)
Lemma pool_create_invalid (data : Prisma.PoolCreate) (w : World) :
  Prisma.validTimestamp (Prisma.c_timestamp data) = false ->
  exists e, Prisma.pool_create data w = (Throw e, w).
Proof.
  intros HT. unfold Prisma.pool_create. rewrite HT. cbn [negb].
  destruct (Prisma.c_poolAddress data); [|eexists; reflexivity].
  destruct (Prisma.c_signature data); eexists; reflexivity.
Qed.

(** [create] on the pool table writes no event and no file. *)
Lemma pool_create_events (data : Prisma.PoolCreate) (w : World) :
  events (snd (Prisma.pool_create data w)) = events w /\
  matchedPools (snd (Prisma.pool_create data w)) = matchedPools w.
Proof.
  unfold Prisma.pool_create.
  destruct (Prisma.c_poolAddress data) as [a|]; [|split; reflexivity].
  destruct (Prisma.c_signature data) as [sg|]; [|split; reflexivity].
  destruct (negb (Prisma.validTimestamp (Prisma.c_timestamp data))); [split; reflexivity|].
  unfold bind, Env.db_roundtrip, Env.get, Env.Date_now, Env.set_pools, Env.nextval_pool,
    ret, throw.
  destruct (dbFaults w) as [|[|] faults]; cbn [fst snd pools events]; try (split; reflexivity);
    destruct (existsb (fun p => String.eqb (pool_poolAddress p) a) (pools w));
    try (split; reflexivity);
    destruct (existsb (fun p => String.eqb (pool_signature p) sg) (pools w));
    split; reflexivity.
Qed.










End SaveRuns.



(* ------------------------------------------------------------------ *)
(** ** Enrichment failures *)

Section YieldFailure.

Lemma YieldFails_SameLlama (n : nat) (w w' : World) :
  SameLlama w w' -> YieldFails n w -> YieldFails n w'.
Proof. unfold SameLlama, YieldFails. intros ->. auto. Qed.

Lemma poolExists_SameLlama (a : option string) : respects SameLlama (DatabaseClient.poolExists a).
Proof.
  intros w. unfold DatabaseClient.poolExists, Prisma.pool_findUnique.
  destruct a as [a|]; [|reflexivity].
  unfold bind, Env.db_roundtrip. destruct (dbFaults w) as [|[|] l]; reflexivity.
Qed.

Lemma wait_SameLlama : respects SameLlama RateLimiter.wait.
Proof.
  intros w. unfold RateLimiter.wait, bind, Env.Date_now, Env.get. simpl.
  destruct (clock w - rl_lastCall (rateLimiter w) <? rl_delay (rateLimiter w))%Z; reflexivity.
Qed.

(** One failed attempt of [getAllPools] consumes one answer. *)
Lemma getAllPools_fn_fails (n : nat) (w : World) :
  YieldFails (Datatypes.S n) w ->
  exists e, DefiLlamaClient.getAllPools_fn w = (Throw e, snd (Env.fetch_llama w)) /\
            YieldFails n (snd (Env.fetch_llama w)) /\
            SameDb w (snd (Env.fetch_llama w)).
Proof.
  unfold YieldFails, DefiLlamaClient.getAllPools_fn, bind, Env.fetch_llama.
  intros H. destruct (llamaResponses w) as [|[r|] l] eqn:E; simpl in *.
  - exists FetchFailed. repeat split. intros r Hr. destruct n; destruct Hr.
  - rewrite (H r (or_introl eq_refl)). simpl. eexists. repeat split. auto.
  - exists FetchFailed. repeat split. auto.
Qed.

Lemma setTimeout_YieldFails (n : nat) (ms : Z) (w : World) :
  YieldFails n w -> YieldFails n (snd (Env.setTimeout ms w)).
Proof. apply YieldFails_SameLlama. reflexivity. Qed.

(** Three failed attempts make [getAllPools] throw. *)
Lemma getAllPools_throws (w : World) :
  YieldFails 3 w ->
  exists e w', DefiLlamaClient.getAllPools w = (Throw e, w') /\ SameDb w w'.
Proof.
  intros H0. unfold DefiLlamaClient.getAllPools, RetryHelper.withBackoff,
    RetryHelper.defaultMaxRetries.
  destruct (getAllPools_fn_fails 2 w H0) as (e1 & E1 & H1 & D1).
  set (w1 := snd (Env.setTimeout (2 ^ Z.of_nat 0 * 1000)%Z (snd (Env.fetch_llama w)))).
  rewrite (withBackoff_loop_retry _ _ 3 2 0 w _ w1 e1 E1) by (discriminate || reflexivity).
  assert (H1' : YieldFails 2 w1) by (apply setTimeout_YieldFails; exact H1).
  assert (D1' : SameDb w w1) by exact D1.
  destruct (getAllPools_fn_fails 1 w1 H1') as (e2 & E2 & H2 & D2).
  set (w2 := snd (Env.setTimeout (2 ^ Z.of_nat 1 * 1000)%Z (snd (Env.fetch_llama w1)))).
  rewrite (withBackoff_loop_retry _ _ 3 1 1 w1 _ w2 e2 E2) by (discriminate || reflexivity).
  assert (H2' : YieldFails 1 w2) by (apply setTimeout_YieldFails; exact H2).
  assert (D2' : SameDb w1 w2) by exact D2.
  destruct (getAllPools_fn_fails 0 w2 H2') as (e3 & E3 & _ & D3).
  rewrite (withBackoff_loop_last _ _ 3 0 2 w2 _ e3 E3) by reflexivity.
  exists e3, (snd (Env.fetch_llama w2)). split; [reflexivity|].
  apply (SameDb_trans _ w1); [exact D1'|]. apply (SameDb_trans _ w2); assumption.
Qed.

Lemma getBestApyForMint_throws (mint chain : string) (w : World) :
  YieldFails 3 w ->
  exists e w', DefiLlamaClient.getBestApyForMint mint chain w = (Throw e, w') /\ SameDb w w'.
Proof.
  intros H. destruct (getAllPools_throws w H) as (e & w' & E & D).
  exists e, w'. split; [|exact D].
  unfold DefiLlamaClient.getBestApyForMint, DefiLlamaClient.searchPools.
  rewrite try_bind_run. unfold bind at 1. rewrite E. reflexivity.
Qed.

(** Whatever the candidate and the state: when the yield service fails three
    times in a row, [savePoolToDatabase] returns [null] and writes no row. *)
Lemma savePoolToDatabase_aborts_when_yield_fails (poolData : PoolCandidate) (w : World) :
  YieldFails 3 w ->
  fst (WebhookHandler.savePoolToDatabase poolData w) = Ok None /\
  SameDb w (snd (WebhookHandler.savePoolToDatabase poolData w)).
Proof.
  intros H. unfold WebhookHandler.savePoolToDatabase. rewrite try_bind_run.
  pose proof (poolExists_SameDb (pc_poolAddress poolData) w) as D0.
  pose proof (poolExists_SameLlama (pc_poolAddress poolData) w) as L0.
  destruct (DatabaseClient.poolExists (pc_poolAddress poolData) w) as [[[|]|e] w0];
    simpl in D0, L0; [split; [reflexivity | exact D0] | | split; [reflexivity | exact D0]].
  rewrite try_bind_run.
  pose proof (wait_SameDb w0) as D1. pose proof (wait_SameLlama w0) as L1.
  destruct (RateLimiter.wait w0) as [[[]|e] w1]; simpl in D1, L1;
    [|split; [reflexivity | exact (SameDb_trans _ _ _ D0 D1)]].
  assert (H1 : YieldFails 3 w1).
  { apply (YieldFails_SameLlama 3 w0); [exact L1|].
    apply (YieldFails_SameLlama 3 w); assumption. }
  destruct (getBestApyForMint_throws (pc_tokenA poolData) "Solana" w1 H1) as (e & w2 & E & D2).
  rewrite try_bind_run, E. simpl. split; [reflexivity|].
  exact (SameDb_trans _ _ _ D0 (SameDb_trans _ _ _ D1 D2)).
Qed.

End YieldFailure.

(** C5.  What the code does when enrichment fails.  Whatever the candidate
    and the state, when the yield service fails three times in a row
    [getBestApyForMint] throws on, the [catch] of [savePoolToDatabase]
    returns [null], and no pool and no event is written.  On the example
    candidate and an empty database, with the yield service answering 500:
    nothing is written after waits of one and two seconds.  When it is the
    token service that fails, the pool is written with absent token data;
    and the single-file server, whose [fetchDefiLlamaAPY] returns [null] on
    failure, writes the pool with a null APY in the very situation where the
    handler writes nothing. *)
Theorem yield_failure_blocks_persistence :
  (forall poolData w,
      YieldFails 3 w ->
      fst (WebhookHandler.savePoolToDatabase poolData w) = Ok None /\
      db (snd (WebhookHandler.savePoolToDatabase poolData w)) = db w) /\
  fst (WebhookHandler.savePoolToDatabase exampleCandidate yieldServiceDown) = Ok None /\
  db (snd (WebhookHandler.savePoolToDatabase exampleCandidate yieldServiceDown)) = ([], []) /\
  timers (snd (WebhookHandler.savePoolToDatabase exampleCandidate yieldServiceDown))
  = [1000%Z; 2000%Z] /\
  llamaResponses (snd (WebhookHandler.savePoolToDatabase exampleCandidate yieldServiceDown))
  = [] /\
  map (fun p => (pool_poolAddress p, pool_apy p, pool_tvl p))
      (pools (snd (WebhookHandler.savePoolToDatabase exampleCandidate tokenServiceDown)))
  = [("PoolAcct", None, None)] /\
  map (fun e => option_map (fun d => (rd_tokenAInfo d, rd_tokenBInfo d)) (ev_rawData e))
      (events (snd (WebhookHandler.savePoolToDatabase exampleCandidate tokenServiceDown)))
  = [Some (None, None)] /\
  map (fun p => (pool_poolAddress p, pool_apy p, pool_tvl p))
      (pools (snd (LegacyServer.savePoolToDatabase exampleCandidate yieldServiceDown)))
  = [("PoolAcct", None, None)].
Proof.
  split; [exact savePoolToDatabase_aborts_when_yield_fails|].
  vm_compute. repeat split.
Qed.

Lemma yield_failure_blocks_persistence_witness :
  YieldFails 3 yieldServiceDown /\
  fst (WebhookHandler.savePoolToDatabase exampleCandidate yieldServiceDown) = Ok None /\
  db (snd (WebhookHandler.savePoolToDatabase exampleCandidate yieldServiceDown))
  = db yieldServiceDown.
Proof.
  assert (H : YieldFails 3 yieldServiceDown).
  { intros r Hr. simpl in Hr. destruct Hr as [Hr|[Hr|[Hr|[]]]]; injection Hr as <-; reflexivity. }
  split; [exact H|].
  exact (proj1 yield_failure_blocks_persistence exampleCandidate yieldServiceDown H).
Defined.

(* ------------------------------------------------------------------ *)
(** ** The webhook endpoint *)

Section LegacyEndpoint.

Lemma legacy_parse_never_throws (item : Item) :
  exists r, LegacyServer.parsePoolFromTransaction item = Ok r.
Proof.
  unfold LegacyServer.parsePoolFromTransaction, LegacyServerParse.parsePoolFromTransaction,
    try_catch.
  destruct (LegacyServerParse.parsePoolFromTransaction_try item); eauto.
Qed.

Lemma legacy_processTransaction_object_returns (t : Transaction) (w : World) :
  fst (LegacyServer.processTransaction (JObject t) w) = Ok tt.
Proof.
  unfold LegacyServer.processTransaction.
  destruct (WebhookHandler.acceptedType (tx_type t)); [|reflexivity].
  destruct (legacy_parse_never_throws (JObject t)) as [r Hr].
  unfold bind, lift. rewrite Hr. destruct r as [c|]; [|reflexivity].
  assert (Hp : exists p, fst (LegacyServer.savePoolToDatabase c w) = Ok p)
    by apply try_catch_returns.
  destruct Hp as [p Hp].
  destruct (LegacyServer.savePoolToDatabase c w) as [r' w'].
  simpl in Hp. subst r'. reflexivity.
Qed.

(** The endpoint of the single-file server first writes its log, then runs
    the loop. *)
Lemma legacy_post_run (body : option Payload) (w : World) :
  LegacyServer.post_webhook_helius body w
  = try_catch_async (LegacyServer.forOf (LegacyServer.asArray body) ;;; ret 200%Z)
                    (fun _ => ret 500%Z) (logged body w).
Proof. reflexivity. Qed.

(** The single-file server answers 200 to every single notification. *)
Lemma legacy_single_notification_status (t : Transaction) (w : World) :
  fst (LegacyServer.post_webhook_helius (Some (PayloadObject t)) w) = Ok 200%Z.
Proof.
  rewrite legacy_post_run. unfold LegacyServer.asArray. rewrite try_bind_run.
  cbn [LegacyServer.forOf]. unfold bind at 1.
  pose proof (legacy_processTransaction_object_returns
                t (logged (Some (PayloadObject t)) w)) as H.
  destruct (LegacyServer.processTransaction (JObject t) (logged (Some (PayloadObject t)) w))
    as [r w']. simpl in H. subst r.
  reflexivity.
Qed.

End LegacyEndpoint.

(** C9.  What the endpoint of the modular server does with a body that is a
    single notification object: [processWebhookPayload] iterates over it
    with [for ... of], which throws, so the answer is 500 and the
    transaction is not looked at, whatever the transaction and the state.
    The single-file server wraps such a body into an array and answers 200.
    An array of objects is answered with 200 by the modular server too, each
    failure staying inside its own [try]; but a [null] element throws
    outside every [try] and ends the batch with 500. *)
Theorem single_notification_answered_500 :
  (forall t w,
      Server.post_webhook_helius (Some (PayloadObject t)) w = (Ok 500%Z, w)) /\
  (forall t w,
      fst (LegacyServer.post_webhook_helius (Some (PayloadObject t)) w) = Ok 200%Z) /\
  (forall txs w,
      fst (Server.post_webhook_helius (Some (PayloadArray (map JObject txs))) w) = Ok 200%Z) /\
  poolAddresses
    (snd (LegacyServer.post_webhook_helius (Some (PayloadObject exampleTransaction)) servicesUp))
  = ["PoolAcct"] /\
  poolAddresses
    (snd (Server.post_webhook_helius
            (Some (PayloadArray [JObject exampleTransaction_accountData])) servicesUp))
  = ["PoolAcct"] /\
  poolAddresses
    (snd (Server.post_webhook_helius
            (Some (PayloadObject exampleTransaction_accountData)) servicesUp))
  = [] /\
  fst (Server.post_webhook_helius
         (Some (PayloadArray [JNull; JObject exampleTransaction_accountData])) servicesUp)
  = Ok 500%Z /\
  db (snd (Server.post_webhook_helius
             (Some (PayloadArray [JNull; JObject exampleTransaction_accountData])) servicesUp))
  = ([], []).
Proof.
  split; [intros t w; reflexivity|].
  split; [exact legacy_single_notification_status|].
  split; [exact submit_status|].
  vm_compute. repeat split.
Qed.

(* ------------------------------------------------------------------ *)
(** ** [DatabaseClient.storePool] and the APY listing *)

Section Listing.

Lemma insert_by_In {A} (before : A -> A -> bool) (x y : A) (l : list A) :
  In y (Prisma.insert_by before x l) -> y = x \/ In y l.
Proof.
  induction l as [|z l IH]; simpl.
  - intros [<-|[]]. now left.
  - destruct (before z x); simpl.
    + intros [<-|H]; [right; now left|]. destruct (IH H); auto.
    + intros [<-|H]; auto.
Qed.

Lemma orderBy_In {A} (before : A -> A -> bool) (y : A) (l : list A) :
  In y (Prisma.orderBy before l) -> In y l.
Proof.
  unfold Prisma.orderBy. induction l as [|x l IH]; simpl; [tauto|].
  intros H. apply insert_by_In in H. destruct H as [->|H]; auto.
Qed.

Lemma firstn_In {A} (n : nat) (y : A) (l : list A) :
  In y (firstn n l) -> In y l.
Proof.
  revert l. induction n as [|n IH]; intros [|x l]; simpl; try tauto.
  intros [H|H]; auto.
Qed.

(** Every row of the listing has an APY and is a row of the table. *)
Lemma getPoolsWithApy_rows (limit : nat) (w w' : World) (listing : list Pool) :
  DatabaseClient.getPoolsWithApy limit w = (Ok listing, w') ->
  forall p, In p listing -> pool_apy p <> None /\ In p (pools w).
Proof.
  unfold DatabaseClient.getPoolsWithApy, Prisma.pool_findMany, bind.
  pose proof (db_roundtrip_SameDb w) as H0.
  destruct (Env.db_roundtrip w) as [[[]|e] w1]; [|discriminate].
  unfold Env.get, ret. intros H. injection H as <- _. intros p Hp.
  apply firstn_In, orderBy_In, filter_In in Hp. destruct Hp as [Hp Ha].
  unfold SameDb, db in H0. simpl in H0. injection H0 as HP _. rewrite <- HP.
  split; [|exact Hp]. unfold DatabaseClient.apy_not_null in Ha.
  destruct (pool_apy p); [discriminate | discriminate].
Qed.

Lemma num_or_null_falsy (x : option Q) : FalsyNumber x -> num_or_null x = None.
Proof.
  destruct x as [q|]; simpl; [|reflexivity].
  intros H. apply Qeq_bool_iff in H. now rewrite H.
Qed.

End Listing.

(** C10.  The row that [storePool] creates has [apy], [tvl] and [volume24h]
    null whenever the value handed in is absent or the number zero, and has
    the source ['Unknown'] when none is handed in.  So a pool whose fetched
    APY is exactly zero is stored with a null APY, and it is in no listing
    that [getPoolsWithApy] returns afterwards. *)
Theorem storePool_nulls_falsy_numbers
        (poolData : DatabaseClient.PoolData) (w w' : World) (row : Pool) :
  DatabaseClient.storePool poolData w = (Ok row, w') ->
  (FalsyNumber (DatabaseClient.pd_apy poolData) -> pool_apy row = None) /\
  (FalsyNumber (DatabaseClient.pd_tvl poolData) -> pool_tvl row = None) /\
  (FalsyNumber (DatabaseClient.pd_volume24h poolData) -> pool_volume24h row = None) /\
  (truthy (DatabaseClient.pd_source poolData) = false -> pool_source row = "Unknown") /\
  pools w' = pools w ++ [row] /\
  (FalsyNumber (DatabaseClient.pd_apy poolData) ->
   forall limit listing w'',
     DatabaseClient.getPoolsWithApy limit w' = (Ok listing, w'') -> ~ In row listing).
Proof.
  intros H.
  assert (G : pool_apy row = num_or_null (DatabaseClient.pd_apy poolData) /\
              pool_tvl row = num_or_null (DatabaseClient.pd_tvl poolData) /\
              pool_volume24h row = num_or_null (DatabaseClient.pd_volume24h poolData) /\
              pool_source row = or_default (DatabaseClient.pd_source poolData) "Unknown" /\
              pools w' = pools w ++ [row]).
  { revert H. unfold DatabaseClient.storePool. rewrite try_bind_run.
    unfold Prisma.pool_create. cbn [Prisma.c_poolAddress Prisma.c_signature].
    destruct (DatabaseClient.pd_poolAddress poolData) as [a|]; [|discriminate].
    destruct (DatabaseClient.pd_signature poolData) as [sg|]; [|discriminate].
    cbn [Prisma.c_timestamp Prisma.validTimestamp negb].
    unfold bind at 1. pose proof (db_roundtrip_SameDb w) as H0.
    destruct (Env.db_roundtrip w) as [[[]|e] w1]; [|discriminate].
    unfold SameDb, db in H0. simpl in H0. injection H0 as HP _.
    unfold bind, Env.get, Env.Date_now, Env.set_pools, Env.nextval_pool, ret, throw,
      try_catch_async. simpl.
    destruct (existsb (fun p => String.eqb (pool_poolAddress p) a) (pools w1));
      [discriminate|].
    destruct (existsb (fun p => String.eqb (pool_signature p) sg) (pools w1));
      [discriminate|].
    intros H. injection H as <- <-. simpl. rewrite HP. repeat split. }
  destruct G as (Ga & Gt & Gv & Gs & Gp).
  split; [intros F; rewrite Ga; now apply num_or_null_falsy|].
  split; [intros F; rewrite Gt; now apply num_or_null_falsy|].
  split; [intros F; rewrite Gv; now apply num_or_null_falsy|].
  split; [intros F; rewrite Gs; unfold or_default; now rewrite F|].
  split; [exact Gp|].
  intros F limit listing w'' HL Hin.
  destruct (getPoolsWithApy_rows limit w' w'' listing HL row Hin) as [Hn _].
  apply Hn. rewrite Ga. now apply num_or_null_falsy.
Qed.

Lemma storePool_nulls_falsy_numbers_witness :
  exists row w',
    DatabaseClient.storePool zeroApyPool servicesUp = (Ok row, w') /\
    FalsyNumber (DatabaseClient.pd_apy zeroApyPool) /\
    pool_apy row = None /\
    pool_source row = "Unknown" /\
    fst (DatabaseClient.getPoolsWithApy 25 w') = Ok [].
Proof.
  eexists. eexists. split; [vm_compute; reflexivity|].
  assert (F : FalsyNumber (DatabaseClient.pd_apy zeroApyPool)) by reflexivity.
  split; [exact F|].
  match goal with
  | |- pool_apy ?row = None /\ pool_source ?row = _ /\ fst (_ _ ?w') = _ =>
      destruct (storePool_nulls_falsy_numbers zeroApyPool servicesUp w' row eq_refl)
        as (Ha & _ & _ & Hs & _ & _)
  end.
  split; [exact (Ha F)|]. split; [exact (Hs eq_refl)|]. reflexivity.
Defined.

(* ================================================================== *)
(** * Part III: further properties of the code *)

(* ------------------------------------------------------------------ *)
(** ** [RetryHelper.withBackoff] on any operation *)

Section RetryShape.

Context {S A : Type}.
Variable setTimeout : Z -> M S unit.
Variable fn : M S A.
Hypothesis timer_ok : forall ms s, fst (setTimeout ms s) = Ok tt.

Lemma backoffSchedule_cons (k i : nat) :
  backoffSchedule (Datatypes.S (Datatypes.S k)) i
  = Attempt :: Delay (2 ^ Z.of_nat i * 1000)%Z :: backoffSchedule (Datatypes.S k) (Datatypes.S i).
Proof. reflexivity. Qed.

Lemma totalDelay_schedule (k i : nat) :
  totalDelay (backoffSchedule (Datatypes.S k) i)
  = ((2 ^ Z.of_nat (i + k) - 2 ^ Z.of_nat i) * 1000)%Z.
Proof.
  revert i. induction k as [|k IH]; intros i.
  - simpl. rewrite Nat.add_0_r. lia.
  - rewrite backoffSchedule_cons. cbn [totalDelay]. rewrite IH.
    replace (Datatypes.S i + k) with (i + Datatypes.S k) by lia.
    rewrite (Nat2Z.inj_succ i), Z.pow_succ_r by lia. lia.
Qed.

(** The loop entered at index [i] with [remaining] rounds left ends on the
    invocation number [k] of this entry, for some [k] up to [remaining]. *)
Lemma observed_loop_shape (maxRetries : nat) :
  forall remaining i s tr,
    i + remaining = maxRetries ->
    1 <= remaining ->
    exists k,
      k < remaining /\
      RetryHelper.withBackoff_loop (observedTimeout setTimeout) (observed fn)
                                   maxRetries remaining i (s, tr)
      = (asReturned (fst (fn (stateAfterFailures setTimeout fn k i s))),
         (snd (fn (stateAfterFailures setTimeout fn k i s)),
          tr ++ backoffSchedule (Datatypes.S k) i)) /\
      (forall e, fst (fn (stateAfterFailures setTimeout fn k i s)) = Throw e ->
                 Datatypes.S k = remaining).
Proof.
  induction remaining as [|remaining IH]; intros i s tr Hi Hr; [lia|].
  destruct (fn s) as [[v|e] s'] eqn:E.
  - exists 0. split; [lia|]. cbn [stateAfterFailures]. rewrite E. cbn [fst snd asReturned].
    split; [apply (loop_step_ok setTimeout fn); exact E | discriminate].
  - destruct remaining as [|remaining].
    + exists 0. split; [lia|]. cbn [stateAfterFailures]. rewrite E. cbn [fst snd asReturned].
      split; [apply (loop_step_last setTimeout fn); [exact E | lia] | reflexivity].
    + rewrite (loop_step_retry setTimeout fn timer_ok maxRetries _ i s s' tr e E) by lia.
      destruct (IH (Datatypes.S i) (snd (setTimeout (2 ^ Z.of_nat i * 1000)%Z s'))
                   (tr ++ [Attempt; Delay (2 ^ Z.of_nat i * 1000)%Z])) as (k & Hk & Hrun & Hth);
        [lia | lia |].
      exists (Datatypes.S k). split; [lia|]. cbn [stateAfterFailures]. rewrite E. cbn [snd].
      split.
      * rewrite Hrun, backoffSchedule_cons, <- app_assoc. reflexivity.
      * intros e' He'. rewrite (Hth e' He'). reflexivity.
Qed.

(** X1.  Whatever the operation does, a run of [withBackoff] with at least
    one attempt allowed ends on one of its invocations, the one of some
    number [k] up to [maxRetries], all earlier ones having failed: the run
    is [k] invocations with a wait of [2^i] seconds after the one of index
    [i], it returns the value of the last invocation or throws its error,
    and it throws only when [k = maxRetries].  It never returns
    [undefined], and the waits add up to at most [2^(maxRetries-1) - 1]
    seconds. *)
Theorem withBackoff_ends_on_an_invocation (maxRetries : nat) (s0 : S) :
  1 <= maxRetries ->
  exists k,
    1 <= k <= maxRetries /\
    RetryHelper.withBackoff (observedTimeout setTimeout) (observed fn) maxRetries (s0, [])
    = (asReturned (fst (fn (stateAfterFailures setTimeout fn (k - 1) 0 s0))),
       (snd (fn (stateAfterFailures setTimeout fn (k - 1) 0 s0)), backoffSchedule k 0)) /\
    (forall e, fst (fn (stateAfterFailures setTimeout fn (k - 1) 0 s0)) = Throw e ->
               k = maxRetries) /\
    fst (RetryHelper.withBackoff setTimeout fn maxRetries s0) <> Ok None /\
    (totalDelay (backoffSchedule k 0) <= (2 ^ Z.of_nat (maxRetries - 1) - 1) * 1000)%Z.
Proof.
  intros Hn.
  destruct (observed_loop_shape maxRetries maxRetries 0 s0 [] eq_refl Hn)
    as (k & Hk & Hrun & Hth).
  exists (Datatypes.S k). replace (Datatypes.S k - 1) with k by lia.
  split; [lia|]. split; [exact Hrun|]. split; [exact Hth|]. split.
  - destruct (observed_loop_erases setTimeout fn maxRetries maxRetries 0 s0 []) as [H1 _].
    unfold RetryHelper.withBackoff. rewrite <- H1, Hrun. cbn [fst].
    destruct (fst (fn (stateAfterFailures setTimeout fn k 0 s0))); discriminate.
  - rewrite totalDelay_schedule. cbn [Nat.add Z.of_nat Z.pow].
    assert (2 ^ Z.of_nat k <= 2 ^ Z.of_nat (maxRetries - 1))%Z
      by (apply Z.pow_le_mono_r; lia).
    simpl (2 ^ 0)%Z. lia.
Qed.

End RetryShape.

Lemma withBackoff_ends_on_an_invocation_witness :
  1 <= 3 /\
  (forall ms s, fst (idleTimer ms s) = Ok tt) /\
  exists k,
    1 <= k <= 3 /\
    RetryHelper.withBackoff (observedTimeout idleTimer) (observed failsTwice) 3 (0, [])
    = (asReturned (fst (failsTwice (stateAfterFailures idleTimer failsTwice (k - 1) 0 0))),
       (snd (failsTwice (stateAfterFailures idleTimer failsTwice (k - 1) 0 0)),
        backoffSchedule k 0)).
Proof.
  assert (T : forall ms s, fst (idleTimer ms s) = Ok tt) by reflexivity.
  split; [lia|]. split; [exact T|].
  destruct (withBackoff_ends_on_an_invocation idleTimer failsTwice T 3 0) as (k & Hk & Hrun & _);
    [lia|].
  exists k. split; [exact Hk | exact Hrun].
Defined.

(* ------------------------------------------------------------------ *)
(** ** [RateLimiter.wait] from any state *)

(** X2.  A call of [wait()] asks for at most one timer.  When [delay]
    milliseconds or more have passed since the recorded call it asks for
    none and takes no time; otherwise it asks for exactly the remainder,
    which is positive and, the clock not being behind the recorded call, at
    most [delay].  It touches neither the database nor the services, and it
    keeps its [delay]. *)
Theorem wait_sleeps_the_remainder (w : World) :
  (rl_lastCall (rateLimiter w) <= clock w)%Z ->
  (rl_delay (rateLimiter w) <= clock w - rl_lastCall (rateLimiter w) ->
   timers (snd (RateLimiter.wait w)) = timers w /\
   clock (snd (RateLimiter.wait w)) = clock w)%Z /\
  (clock w - rl_lastCall (rateLimiter w) < rl_delay (rateLimiter w) ->
   timers (snd (RateLimiter.wait w))
   = timers w ++ [rl_delay (rateLimiter w) - (clock w - rl_lastCall (rateLimiter w))] /\
   0 < rl_delay (rateLimiter w) - (clock w - rl_lastCall (rateLimiter w))
   <= rl_delay (rateLimiter w))%Z /\
  db (snd (RateLimiter.wait w)) = db w /\
  outside (snd (RateLimiter.wait w)) = outside w /\
  rl_delay (rateLimiter (snd (RateLimiter.wait w))) = rl_delay (rateLimiter w).
Proof.
  intros Hc. unfold RateLimiter.wait, bind, Env.Date_now, Env.get, Env.setTimeout,
    Env.set_rateLimiter, ret. simpl.
  destruct (Z.ltb_spec (clock w - rl_lastCall (rateLimiter w)) (rl_delay (rateLimiter w)));
    simpl; repeat split; intros; try reflexivity; try lia.
Qed.

Lemma wait_sleeps_the_remainder_witness :
  (rl_lastCall (rateLimiter (snd (RateLimiter.wait servicesUp)))
   <= clock (Env.elapse 500 (snd (RateLimiter.wait servicesUp))))%Z /\
  timers (snd (RateLimiter.wait (Env.elapse 500 (snd (RateLimiter.wait servicesUp)))))
  = [1500%Z].
Proof.
  split; [vm_compute; discriminate|].
  apply (wait_sleeps_the_remainder (Env.elapse 500 (snd (RateLimiter.wait servicesUp)))).
  - vm_compute. discriminate.
  - vm_compute. reflexivity.
Defined.

(** What one call of [wait()] does to the clock and to the limiter. *)
Lemma wait_effect (w : World) :
  fst (RateLimiter.wait w) = Ok tt /\
  rateLimiter (snd (RateLimiter.wait w))
  = {| rl_lastCall := clock (snd (RateLimiter.wait w));
       rl_delay := rl_delay (rateLimiter w) |} /\
  ((clock w - rl_lastCall (rateLimiter w) < rl_delay (rateLimiter w))%Z ->
   clock (snd (RateLimiter.wait w))
   = (rl_lastCall (rateLimiter w) + rl_delay (rateLimiter w)
      + Z.of_nat (hd 0%nat (lateness w)))%Z /\
   timers (snd (RateLimiter.wait w))
   = timers w ++ [(rl_delay (rateLimiter w) - (clock w - rl_lastCall (rateLimiter w)))%Z] /\
   lateness (snd (RateLimiter.wait w)) = tl (lateness w)) /\
  ((rl_delay (rateLimiter w) <= clock w - rl_lastCall (rateLimiter w))%Z ->
   clock (snd (RateLimiter.wait w)) = clock w /\
   timers (snd (RateLimiter.wait w)) = timers w /\
   lateness (snd (RateLimiter.wait w)) = lateness w).
Proof.
  unfold RateLimiter.wait, bind, Env.Date_now, Env.get, Env.setTimeout,
    Env.set_rateLimiter, ret. simpl.
  destruct (Z.ltb_spec (clock w - rl_lastCall (rateLimiter w)) (rl_delay (rateLimiter w)));
    simpl; repeat split; intros; try reflexivity; try lia.
  destruct (lateness w); simpl; lia.
Qed.

(** Running a sequence whose first step returns. *)
Lemma bind_run_ok {S A B} (m : M S A) (k : A -> M S B) (s : S) (a : A) (s' : S) :
  m s = (Ok a, s') -> bind m k s = k a s'.
Proof. intros H. unfold bind. now rewrite H. Qed.

(** X3.  The rate limiter check of [test-modules.js], from any state: it
    measures at least 1000 ms.  When the clock reads 1000 or more, as
    [Date.now()] does, the first call does not wait, the second waits the
    whole second, and the measure is 1000 ms plus the lateness of that one
    timer. *)
Theorem rateLimiterTest_measures_one_second (w : World) :
  exists elapsed,
    fst (TestModules.rateLimiterTest w) = Ok elapsed /\
    (1000 <= elapsed)%Z /\
    ((1000 <= clock w)%Z ->
     elapsed = (1000 + Z.of_nat (hd 0%nat (lateness w)))%Z /\
     timers (snd (TestModules.rateLimiterTest w)) = timers w ++ [1000%Z]).
Proof.
  assert (W : forall w', RateLimiter.wait w' = (Ok tt, snd (RateLimiter.wait w'))).
  { intros w'. destruct (wait_effect w') as (R & _).
    destruct (RateLimiter.wait w') as [r w'']. cbn [fst snd] in *. now subst r. }
  set (w0 := snd (Env.set_rateLimiter (RateLimiter.new 1000) w)).
  set (w1 := snd (RateLimiter.wait w0)).
  set (w2 := snd (RateLimiter.wait w1)).
  assert (E : TestModules.rateLimiterTest w = (Ok (clock w2 - clock w)%Z, w2)).
  { unfold TestModules.rateLimiterTest.
    rewrite (bind_run_ok (Env.set_rateLimiter (RateLimiter.new 1000)) _ w tt w0 eq_refl).
    cbv beta.
    rewrite (bind_run_ok Env.Date_now _ w0 (clock w) w0 eq_refl). cbv beta.
    rewrite (bind_run_ok _ _ w0 tt w1 (W w0)). cbv beta.
    rewrite (bind_run_ok _ _ w1 tt w2 (W w1)). cbv beta.
    rewrite (bind_run_ok Env.Date_now _ w2 (clock w2) w2 eq_refl). reflexivity. }
  rewrite E. cbn [fst snd]. eexists. split; [reflexivity|].
  destruct (wait_effect w0) as (_ & L0 & S0 & N0).
  destruct (wait_effect w1) as (_ & _ & S1 & _).
  fold w1 in L0, S0, N0, S1. fold w2 in S1.
  rewrite L0 in S1. cbn [rl_lastCall rl_delay] in S1.
  change (rl_lastCall (rateLimiter w0)) with 0%Z in *.
  change (rl_delay (rateLimiter w0)) with 1000%Z in *.
  change (clock w0) with (clock w) in *.
  change (timers w0) with (timers w) in *.
  change (lateness w0) with (lateness w) in *.
  destruct S1 as (C2 & T2 & _); [lia|].
  destruct (Z.lt_ge_cases (clock w - 0) 1000) as [H|H].
  - destruct S0 as (C1 & T1 & _); [exact H|]. split; [lia | intros; lia].
  - destruct N0 as (C1 & T1 & E1); [exact H|]. split; [lia|]. intros _.
    rewrite C2, T2, C1, T1, E1. split; [lia|].
    replace (1000 - (clock w - clock w))%Z with 1000%Z by lia. reflexivity.
Qed.

Lemma rateLimiterTest_measures_one_second_witness :
  (1000 <= clock servicesUp)%Z /\
  fst (TestModules.rateLimiterTest servicesUp) = Ok 1000%Z.
Proof.
  split; [vm_compute; discriminate|].
  destruct (rateLimiterTest_measures_one_second servicesUp) as (elapsed & He & _ & Hx).
  rewrite He. destruct Hx as [-> _]; [vm_compute; discriminate | reflexivity].
Defined.

(* ------------------------------------------------------------------ *)
(** ** [DefiLlamaClient.getBestApyForMint] *)

Section BestApy.

Local Open Scope Q_scope.

Lemma num_gt_lt (a b : Q) : num_gt a b = true <-> b < a.
Proof.
  unfold num_gt. rewrite negb_true_iff. split.
  - intros H. apply Qnot_le_lt. intros Hle. apply Qle_bool_iff in Hle. congruence.
  - intros H. destruct (Qle_bool a b) eqn:E; [|reflexivity].
    apply Qle_bool_iff in E. exfalso. exact (Qlt_not_le _ _ H E).
Qed.

Lemma num_gt_le (a b : Q) : num_gt a b = false <-> a <= b.
Proof.
  unfold num_gt. rewrite negb_false_iff. apply Qle_bool_iff.
Qed.

(** The APY that counts for a possibly absent best pool. *)
Let bestApy (best : option LlamaPool) : Q :=
  num_or (match best with Some b => lp_apy b | None => None end) 0.

(** The reducer keeps a pool whose APY is the largest seen so far. *)
Lemma fold_betterApy (l : list LlamaPool) (best : option LlamaPool) :
  bestApy best <= bestApy (fold_left DefiLlamaClient.betterApy l best) /\
  (forall p, In p l -> apyOrZero p <= bestApy (fold_left DefiLlamaClient.betterApy l best)) /\
  (fold_left DefiLlamaClient.betterApy l best = best \/
   exists p, fold_left DefiLlamaClient.betterApy l best = Some p /\ In p l /\
             bestApy best < apyOrZero p).
Proof.
  revert best. induction l as [|x l IH]; intros best; simpl.
  - split; [apply Qle_refl|]. split; [intros ? []|now left].
  - unfold DefiLlamaClient.betterApy at 2 4 6 8. fold (bestApy best). fold (apyOrZero x).
    destruct (num_gt (apyOrZero x) (bestApy best)) eqn:E.
    + apply num_gt_lt in E. destruct (IH (Some x)) as (H1 & H2 & H3).
      change (bestApy (Some x)) with (apyOrZero x) in *.
      split; [eapply Qle_trans; [apply Qlt_le_weak; exact E | exact H1]|].
      split; [intros p [<-|Hp]; [exact H1 | exact (H2 p Hp)]|].
      right. destruct H3 as [H3|(p & H3 & Hp & Hlt)].
      * exists x. split; [exact H3|]. split; [now left | exact E].
      * exists p. split; [exact H3|]. split; [now right|].
        eapply Qlt_trans; [exact E | exact Hlt].
    + apply num_gt_le in E. destruct (IH best) as (H1 & H2 & H3).
      split; [exact H1|].
      split; [intros p [<-|Hp]; [eapply Qle_trans; [exact E | exact H1] | exact (H2 p Hp)]|].
      destruct H3 as [H3|(p & H3 & Hp & Hlt)]; [now left|].
      right. exists p. split; [exact H3|]. split; [now right | exact Hlt].
Qed.

Lemma apyOrZero_positive (p : LlamaPool) :
  0 < apyOrZero p -> exists q, lp_apy p = Some q /\ apyOrZero p = q.
Proof.
  unfold apyOrZero, num_or. destruct (lp_apy p) as [q|].
  - destruct (Qeq_bool q 0); intros H; [exfalso; exact (Qlt_irrefl _ H) | eauto].
  - intros H. exfalso. exact (Qlt_irrefl _ H).
Qed.

Lemma matchesMint_chain (mint chain : string) (p : LlamaPool) :
  DefiLlamaClient.matchesMint mint chain p = true -> lp_chain p = Some chain.
Proof.
  unfold DefiLlamaClient.matchesMint, strict_neq. destruct (lp_chain p) as [c|]; [|discriminate].
  destruct (String.eqb_spec chain c) as [->|]; [reflexivity | discriminate].
Qed.

(** The best pool of a list, as [getBestApyForMint] reduces it from [null],
    has a positive APY. *)
Lemma best_of_list_positive (l : list LlamaPool) (pool : LlamaPool) :
  fold_left DefiLlamaClient.betterApy l None = Some pool ->
  exists q, lp_apy pool = Some q /\ 0 < q.
Proof.
  intros EF. destruct (fold_betterApy l None) as (_ & _ & H3). rewrite EF in H3.
  destruct H3 as [H3|(p & H3 & _ & Hlt)]; [discriminate|]. injection H3 as <-.
  change (bestApy None) with 0 in Hlt.
  destruct (apyOrZero_positive pool Hlt) as (q & Hq & Hv).
  exists q. split; [exact Hq | rewrite <- Hv; exact Hlt].
Qed.

(** Whatever the listing, the APY that [getBestApyForMint] reports is
    positive. *)
Lemma getBestApyForMint_positive (mint chain : string) (w : World) :
  match fst (DefiLlamaClient.getBestApyForMint mint chain w) with
  | Ok (Some d) => exists q, DefiLlamaClient.apy_apy d = Some q /\ 0 < q
  | _ => True
  end.
Proof.
  unfold DefiLlamaClient.getBestApyForMint, DefiLlamaClient.searchPools.
  rewrite try_bind_run. unfold bind at 1.
  destruct (DefiLlamaClient.getAllPools w) as [[[listing|]|e] w1]; try exact I.
  unfold ret at 1.
  destruct (List.length (filter (DefiLlamaClient.matchesMint mint chain) listing) =? 0)%nat;
    [exact I|].
  destruct (fold_left DefiLlamaClient.betterApy
                      (filter (DefiLlamaClient.matchesMint mint chain) listing) None)
    as [pool|] eqn:EF; [|exact I].
  exact (best_of_list_positive _ pool EF).
Qed.

(** X4.  Given the listing that [getAllPools] returns, [getBestApyForMint]
    returns data built from a pool of the listing that is on the chain
    asked for and matches the mint, whose APY is positive and at least the
    APY of every matching pool; it returns [null] exactly when no matching
    pool has a positive APY, be it that none matches or that the matching
    ones have an APY that is zero, negative or absent. *)
Theorem getBestApyForMint_picks_highest_positive
        (mint chain : string) (w w' : World) (listing : list LlamaPool) :
  DefiLlamaClient.getAllPools w = (Ok (Some listing), w') ->
  exists best,
    DefiLlamaClient.getBestApyForMint mint chain w = (Ok best, w') /\
    match best with
    | Some d =>
        exists pool q,
          In pool listing /\
          DefiLlamaClient.matchesMint mint chain pool = true /\
          lp_apy pool = Some q /\ 0 < q /\
          DefiLlamaClient.apy_apy d = Some q /\
          DefiLlamaClient.apy_tvl d = lp_tvlUsd pool /\
          DefiLlamaClient.apy_poolId d = lp_pool pool /\
          DefiLlamaClient.apy_chain d = Some chain /\
          (forall p, In p listing -> DefiLlamaClient.matchesMint mint chain p = true ->
                     apyOrZero p <= q)
    | None =>
        forall p, In p listing -> DefiLlamaClient.matchesMint mint chain p = true ->
                  apyOrZero p <= 0
    end.
Proof.
  intros HA. unfold DefiLlamaClient.getBestApyForMint, DefiLlamaClient.searchPools.
  rewrite try_bind_run. unfold bind at 1. rewrite HA. unfold ret at 1.
  set (matching := filter (DefiLlamaClient.matchesMint mint chain) listing).
  assert (HM : forall p, In p matching <->
                         In p listing /\ DefiLlamaClient.matchesMint mint chain p = true)
    by (intros p; apply filter_In).
  destruct (List.length matching =? 0)%nat eqn:EL.
  - exists None. split; [reflexivity|]. intros p Hp Hm.
    apply Nat.eqb_eq in EL. destruct matching; [|discriminate].
    exfalso. apply (HM p). auto.
  - destruct (fold_betterApy matching None) as (_ & H2 & H3).
    destruct (fold_left DefiLlamaClient.betterApy matching None) as [pool|] eqn:EF.
    + eexists. split; [reflexivity|]. cbn [DefiLlamaClient.apy_apy DefiLlamaClient.apy_tvl
        DefiLlamaClient.apy_poolId DefiLlamaClient.apy_chain].
      destruct H3 as [H3|(p & H3 & Hp & Hlt)]; [discriminate|]. injection H3 as <-.
      change (bestApy None) with 0 in Hlt.
      destruct (apyOrZero_positive pool Hlt) as (q & Hq & Hv).
      apply HM in Hp. destruct Hp as [Hin Hm].
      exists pool, q. split; [exact Hin|]. split; [exact Hm|]. split; [exact Hq|].
      split; [rewrite <- Hv; exact Hlt|]. split; [exact Hq|]. split; [reflexivity|].
      split; [reflexivity|]. split; [exact (matchesMint_chain _ _ _ Hm)|].
      intros p Hp' Hm'. rewrite <- Hv. apply (H2 p). apply HM. auto.
    + exists None. split; [reflexivity|]. intros p Hp Hm.
      apply (H2 p). apply HM. auto.
Qed.

End BestApy.

Lemma getBestApyForMint_picks_highest_positive_witness :
  exists listing w' d,
    DefiLlamaClient.getAllPools listingUp = (Ok (Some listing), w') /\
    DefiLlamaClient.getBestApyForMint "TokenA..." "Solana" listingUp = (Ok (Some d), w') /\
    DefiLlamaClient.apy_poolId d = Some "pool-2".
Proof.
  eexists. eexists.
  assert (H : DefiLlamaClient.getAllPools listingUp
              = (Ok (Some sampleListing), snd (DefiLlamaClient.getAllPools listingUp)))
    by (vm_compute; reflexivity).
  destruct (getBestApyForMint_picks_highest_positive "TokenA..." "Solana" listingUp _ _ H)
    as (best & Hb & _).
  assert (E : fst (DefiLlamaClient.getBestApyForMint "TokenA..." "Solana" listingUp)
              = Ok (Some {| DefiLlamaClient.apy_apy := Some (25 # 2)%Q;
                            DefiLlamaClient.apy_symbol := Some "TOKENA...-SOL";
                            DefiLlamaClient.apy_project := Some "orca";
                            DefiLlamaClient.apy_chain := Some "Solana";
                            DefiLlamaClient.apy_poolId := Some "pool-2";
                            DefiLlamaClient.apy_tvl := Some 0%Q;
                            DefiLlamaClient.apy_url :=
                              "https://defillama.com/yields/pool/pool-2" |}))
    by (vm_compute; reflexivity).
  rewrite Hb in E. cbn [fst] in E. injection E as ->.
  eexists. split; [exact H|]. split; [exact Hb | reflexivity].
Defined.

(* ------------------------------------------------------------------ *)
(** ** [JupiterClient] *)

Section Jupiter.

(** One [fetch] of the token service takes the first pending answer. *)
Lemma fetch_jupiter_state (mint : string) (w : World) :
  jupiterResponses (snd (Env.fetch_jupiter mint w)) = tl (jupiterResponses w) /\
  timers (snd (Env.fetch_jupiter mint w)) = timers w /\
  clock (snd (Env.fetch_jupiter mint w)) = clock w /\
  db (snd (Env.fetch_jupiter mint w)) = db w.
Proof.
  unfold Env.fetch_jupiter. destruct (jupiterResponses w) as [|[r|] l]; repeat split.
Qed.

Lemma fetch_jupiter_answer (mint : string) (w : World) (r : Response (list JupToken))
      (rest : list (option (Response (list JupToken)))) :
  jupiterResponses w = Some r :: rest ->
  Env.fetch_jupiter mint w = (Ok r, snd (Env.fetch_jupiter mint w)).
Proof. intros H. unfold Env.fetch_jupiter. rewrite H. reflexivity. Qed.

(** The value that [getFullTokenData] makes of the value of [getTokenInfo],
    the [catch] apart. *)
Lemma getFullTokenData_of_getTokenInfo (mint : string) (w w' : World)
      (r : Result (option (option JupToken))) :
  JupiterClient.getTokenInfo mint w = (r, w') ->
  JupiterClient.getFullTokenData mint w
  = (match r with
     | Ok (Some (Some t)) => fst (JupiterClient.getFullTokenData mint w)
     | _ => Ok None
     end, w').
Proof.
  intros H. unfold JupiterClient.getFullTokenData. rewrite try_bind_run, H.
  destruct r as [[[t|]|]|e]; reflexivity.
Qed.

(** X5.  An answer 404 of the token service is not retried:
    [getTokenInfo] returns [null] after that one request, without waiting,
    and so do [getFullTokenData] and [getTokenPrice]. *)
Theorem token_not_found_is_not_retried
        (mint : string) (w : World) (r : Response (list JupToken))
        (rest : list (option (Response (list JupToken)))) :
  jupiterResponses w = Some r :: rest ->
  resp_status r = 404%Z ->
  exists w',
    JupiterClient.getTokenInfo mint w = (Ok (Some None), w') /\
    JupiterClient.getFullTokenData mint w = (Ok None, w') /\
    JupiterPrice.getTokenPrice mint w = (Ok None, w') /\
    jupiterResponses w' = rest /\
    timers w' = timers w /\
    clock w' = clock w.
Proof.
  intros HR HS. exists (snd (Env.fetch_jupiter mint w)).
  assert (F : JupiterClient.getTokenInfo_fn mint w
              = (Ok None, snd (Env.fetch_jupiter mint w))).
  { unfold JupiterClient.getTokenInfo_fn.
    rewrite (bind_run_ok _ _ w r _ (fetch_jupiter_answer mint w r rest HR)).
    unfold resp_ok. rewrite HS. reflexivity. }
  assert (G : JupiterClient.getTokenInfo mint w
              = (Ok (Some None), snd (Env.fetch_jupiter mint w))).
  { unfold JupiterClient.getTokenInfo, RetryHelper.withBackoff, RetryHelper.defaultMaxRetries.
    apply (withBackoff_loop_ok _ _ 3 2 0 w _ None F). }
  destruct (fetch_jupiter_state mint w) as (J & T & C & _).
  split; [exact G|]. split; [exact (getFullTokenData_of_getTokenInfo mint w _ _ G)|].
  split; [unfold JupiterPrice.getTokenPrice; rewrite (bind_run_ok _ _ w _ _ G); reflexivity|].
  rewrite J, HR. repeat split; assumption.
Qed.

Lemma token_not_found_is_not_retried_witness :
  exists w',
    JupiterClient.getFullTokenData "TokenA..." tokenNotFound = (Ok None, w') /\
    timers w' = [].
Proof.
  destruct (token_not_found_is_not_retried "TokenA..." tokenNotFound
              {| resp_status := 404%Z; resp_json := None |} [] eq_refl eq_refl)
    as (w' & _ & H & _ & _ & T & _).
  exists w'. split; [exact H | exact T].
Defined.

Lemma TokenServiceFails_tl (n : nat) (w w' : World) :
  jupiterResponses w' = tl (jupiterResponses w) ->
  TokenServiceFails (Datatypes.S n) w -> TokenServiceFails n w'.
Proof.
  unfold TokenServiceFails. intros -> H r Hr. apply H.
  destruct (jupiterResponses w) as [|x l]; simpl in *.
  - destruct n; destruct Hr.
  - now right.
Qed.

(** One failed attempt of [getTokenInfo] consumes one answer. *)
Lemma getTokenInfo_fn_fails (mint : string) (n : nat) (w : World) :
  TokenServiceFails (Datatypes.S n) w ->
  exists e, JupiterClient.getTokenInfo_fn mint w = (Throw e, snd (Env.fetch_jupiter mint w)).
Proof.
  unfold TokenServiceFails, JupiterClient.getTokenInfo_fn, bind, Env.fetch_jupiter.
  intros H. destruct (jupiterResponses w) as [|[r|] l] eqn:E; simpl in *.
  - eexists. reflexivity.
  - destruct (H r (or_introl eq_refl)) as [H1 H2]. rewrite H1. simpl.
    apply Z.eqb_neq in H2. rewrite H2. eexists. reflexivity.
  - eexists. reflexivity.
Qed.

(** X6.  When the token service fails three times in a row (rejected
    requests, or statuses outside 200..299 other than 404), [getTokenInfo]
    throws after three requests and waits of one and two seconds;
    [getFullTokenData] turns that into [null], while [getTokenPrice], which
    has no [try], throws the same error on.  Nothing is written. *)
Theorem token_service_failure_swallowed_or_thrown (mint : string) (w : World) :
  TokenServiceFails 3 w ->
  exists e w',
    JupiterClient.getTokenInfo mint w = (Throw e, w') /\
    JupiterClient.getFullTokenData mint w = (Ok None, w') /\
    JupiterPrice.getTokenPrice mint w = (Throw e, w') /\
    timers w' = timers w ++ [1000%Z; 2000%Z] /\
    jupiterResponses w' = skipn 3 (jupiterResponses w) /\
    db w' = db w.
Proof.
  intros H0.
  set (w1 := snd (Env.fetch_jupiter mint w)).
  set (w1' := snd (Env.setTimeout (2 ^ Z.of_nat 0 * 1000)%Z w1)).
  set (w2 := snd (Env.fetch_jupiter mint w1')).
  set (w2' := snd (Env.setTimeout (2 ^ Z.of_nat 1 * 1000)%Z w2)).
  set (w3 := snd (Env.fetch_jupiter mint w2')).
  destruct (fetch_jupiter_state mint w) as (J1 & T1 & _ & D1). fold w1 in J1, T1, D1.
  destruct (fetch_jupiter_state mint w1') as (J2 & T2 & _ & D2). fold w2 in J2, T2, D2.
  destruct (fetch_jupiter_state mint w2') as (J3 & T3 & _ & D3). fold w3 in J3, T3, D3.
  assert (H1 : TokenServiceFails 2 w1') by (apply (TokenServiceFails_tl 2 w); assumption).
  assert (H2 : TokenServiceFails 1 w2') by (apply (TokenServiceFails_tl 1 w1'); assumption).
  destruct (getTokenInfo_fn_fails mint 2 w H0) as [e1 E1].
  destruct (getTokenInfo_fn_fails mint 1 w1' H1) as [e2 E2].
  destruct (getTokenInfo_fn_fails mint 0 w2' H2) as [e3 E3].
  fold w1 in E1. fold w2 in E2. fold w3 in E3.
  assert (G : JupiterClient.getTokenInfo mint w = (Throw e3, w3)).
  { unfold JupiterClient.getTokenInfo, RetryHelper.withBackoff, RetryHelper.defaultMaxRetries.
    rewrite (withBackoff_loop_retry _ _ 3 2 0 w w1 w1' e1 E1) by (discriminate || reflexivity).
    rewrite (withBackoff_loop_retry _ _ 3 1 1 w1' w2 w2' e2 E2) by (discriminate || reflexivity).
    apply (withBackoff_loop_last _ _ 3 0 2 w2' w3 e3 E3). reflexivity. }
  exists e3, w3. split; [exact G|].
  split; [exact (getFullTokenData_of_getTokenInfo mint w _ _ G)|].
  split; [unfold JupiterPrice.getTokenPrice, bind; rewrite G; reflexivity|].
  split; [rewrite T3; unfold w2'; cbn [Env.setTimeout snd timers]; rewrite T2;
          unfold w1'; cbn [Env.setTimeout snd timers]; rewrite T1, <- app_assoc; reflexivity|].
  split.
  - rewrite J3. unfold w2'. cbn [Env.setTimeout snd jupiterResponses]. rewrite J2.
    unfold w1'. cbn [Env.setTimeout snd jupiterResponses]. rewrite J1.
    destruct (jupiterResponses w) as [|a [|b [|c l]]]; reflexivity.
  - rewrite D3. unfold w2'. unfold db at 1. cbn [Env.setTimeout snd pools events].
    fold (db w2). rewrite D2. unfold w1'. unfold db at 1. cbn [Env.setTimeout snd pools events].
    fold (db w1). exact D1.
Qed.

Lemma token_service_failure_swallowed_or_thrown_witness :
  TokenServiceFails 3 tokenServiceDown /\
  exists w',
    JupiterClient.getFullTokenData "TokenA..." tokenServiceDown = (Ok None, w') /\
    timers w' = [1000%Z; 2000%Z].
Proof.
  assert (H : TokenServiceFails 3 tokenServiceDown).
  { intros r Hr. simpl in Hr.
    destruct Hr as [Hr|[Hr|[Hr|[]]]]; injection Hr as <-; split; (reflexivity || discriminate). }
  split; [exact H|].
  destruct (token_service_failure_swallowed_or_thrown "TokenA..." tokenServiceDown H)
    as (e & w' & _ & HF & _ & T & _).
  exists w'. split; [exact HF | exact T].
Defined.

(** X7.  When the token service answers with a list of tokens,
    [getTokenInfo] returns a token of the list whose [id] is the mint asked
    for if there is one, and otherwise the first token of the list, whatever
    its [id]; it returns [null] for an empty list.  [getFullTokenData]
    reports the [id] of the token returned as [mintAddress], so with no
    exact match it describes another mint than the one asked for. *)
Theorem getTokenInfo_prefers_exact_match
        (mint : string) (w : World) (r : Response (list JupToken))
        (rest : list (option (Response (list JupToken)))) (data : list JupToken) :
  jupiterResponses w = Some r :: rest ->
  resp_ok r = true ->
  resp_json r = Some data ->
  exists choice w',
    JupiterClient.getTokenInfo mint w = (Ok (Some choice), w') /\
    ((exists t, choice = Some t /\ In t data /\ jt_id t = Some mint) \/
     ((forall t, In t data -> jt_id t <> Some mint) /\ choice = hd_error data)) /\
    match choice with
    | Some t =>
        exists d, JupiterClient.getFullTokenData mint w = (Ok (Some d), w') /\
                  ft_mintAddress d = jt_id t
    | None => JupiterClient.getFullTokenData mint w = (Ok None, w')
    end.
Proof.
  intros HR HO HJ.
  set (exact := find (fun token => strict_eq (jt_id token) (Some mint)) data).
  set (choice := match exact with
                 | Some token => Some token
                 | None => match data with token :: _ => Some token | [] => None end
                 end).
  assert (F : JupiterClient.getTokenInfo_fn mint w
              = (Ok choice, snd (Env.fetch_jupiter mint w))).
  { unfold JupiterClient.getTokenInfo_fn.
    rewrite (bind_run_ok _ _ w r _ (fetch_jupiter_answer mint w r rest HR)).
    rewrite HO. cbn [negb]. unfold Env.json. rewrite HJ.
    rewrite (bind_run_ok (ret data) _ _ data _ eq_refl). reflexivity. }
  assert (G : JupiterClient.getTokenInfo mint w
              = (Ok (Some choice), snd (Env.fetch_jupiter mint w))).
  { unfold JupiterClient.getTokenInfo, RetryHelper.withBackoff, RetryHelper.defaultMaxRetries.
    apply (withBackoff_loop_ok _ _ 3 2 0 w _ choice F). }
  exists choice, (snd (Env.fetch_jupiter mint w)). split; [exact G|]. split.
  - unfold choice, exact, find. destruct (List.find _ data) as [t|] eqn:E.
    + left. exists t. apply find_some in E. destruct E as [Hin He].
      split; [reflexivity|]. split; [exact Hin|].
      unfold strict_eq in He. destruct (jt_id t) as [i|]; [|discriminate].
      apply String.eqb_eq in He. now subst.
    + right. split; [|destruct data; reflexivity].
      intros t Hin Hid. apply (find_none _ _ E) in Hin. rewrite Hid in Hin.
      simpl in Hin. rewrite String.eqb_refl in Hin. discriminate.
  - unfold JupiterClient.getFullTokenData. rewrite try_bind_run, G.
    destruct choice as [t|]; [|reflexivity].
    eexists. split; [reflexivity|]. reflexivity.
Qed.

Lemma getTokenInfo_prefers_exact_match_witness :
  exists d w',
    JupiterClient.getFullTokenData "TokenA..." tokenFound = (Ok (Some d), w') /\
    ft_mintAddress d = Some "TokenA...".
Proof.
  destruct (getTokenInfo_prefers_exact_match "TokenA..." tokenFound
              {| resp_status := 200%Z;
                 resp_json := Some [sampleToken "Other" 1%Q; sampleToken "TokenA..." 2%Q] |}
              [] [sampleToken "Other" 1%Q; sampleToken "TokenA..." 2%Q]
              eq_refl eq_refl eq_refl) as (choice & w' & HG & _ & HD).
  assert (E : fst (JupiterClient.getTokenInfo "TokenA..." tokenFound)
              = Ok (Some (Some (sampleToken "TokenA..." 2%Q)))) by (vm_compute; reflexivity).
  rewrite HG in E. cbn [fst] in E. injection E as ->.
  destruct HD as (d & Hd & Hm). exists d, w'. split; [exact Hd | exact Hm].
Defined.

End Jupiter.

(* ------------------------------------------------------------------ *)
(** ** The two parsers side by side *)

Section TwoParsers.

Lemma fold_Set_add_length (l acc : list string) :
  List.length (fold_left Set_add l acc) <= List.length acc + List.length l.
Proof.
  revert acc. induction l as [|x l IH]; intros acc; simpl; [lia|].
  specialize (IH (Set_add acc x)). unfold Set_add in *.
  destruct (includes acc x); [lia|]. rewrite length_app in IH. simpl in IH. lia.
Qed.

Lemma keepTokenMints_length (mints : list (option string)) :
  List.length (keepTokenMints mints) <= List.length mints.
Proof.
  induction mints as [|m mints IH]; simpl; [lia|].
  destruct (isTokenMint m); [destruct m|]; simpl; lia.
Qed.

(** Two distinct mints need two transfers. *)
Lemma tokenMints_need_two_transfers (l : list TokenTransfer) (a b : string) (more : list string) :
  Set_from (keepTokenMints (map tt_mint l)) = a :: b :: more -> 2 <= List.length l.
Proof.
  intros H. pose proof (fold_Set_add_length (keepTokenMints (map tt_mint l)) []) as H1.
  fold (Set_from (keepTokenMints (map tt_mint l))) in H1. rewrite H in H1.
  pose proof (keepTokenMints_length (map tt_mint l)) as H2.
  rewrite length_map in H2. simpl in H1. lia.
Qed.

(** On the same non-empty identifiers the two searches find the same
    account. *)
Lemma find_pool_account_agree (t : Transaction) (mints : list string)
      (accountData : list AccountData) (accounts : list string) :
  map ad_account accountData = map Some accounts ->
  ~ In "" accounts ->
  match find (WebhookHandlerParse.isPoolAccount t mints) accountData with
  | Some account => ad_account account
  | None => None
  end
  = find (LegacyServerParse.isPoolAccount t mints) accounts.
Proof.
  unfold find. revert accounts.
  induction accountData as [|x ad IH]; intros [|a accounts] H Hne; try discriminate;
    [reflexivity|].
  simpl in H. injection H as Hx Hrest. simpl.
  unfold WebhookHandlerParse.isPoolAccount at 1. rewrite Hx.
  unfold LegacyServerParse.isPoolAccount at 1. unfold truthy.
  destruct (String.eqb_spec a "") as [->|_]; [exfalso; apply Hne; now left|].
  cbn [negb andb]. rewrite <- andb_assoc.
  destruct (strict_neq a (tx_feePayer t) && (negb (includes mints a) && notKnownProgram a)).
  - exact Hx.
  - apply IH; [exact Hrest|]. intros Hin. apply Hne. now right.
Qed.

(** The parser of the single-file server wants the type [CREATE_POOL]. *)
Lemma legacy_parse_other_types (t : Transaction) :
  tx_type t <> Some "CREATE_POOL" ->
  LegacyServer.parsePoolFromTransaction (JObject t) = Ok None.
Proof.
  unfold LegacyServer.parsePoolFromTransaction, LegacyServerParse.parsePoolFromTransaction,
    LegacyServerParse.parsePoolFromTransaction_try.
  intros Ht. destruct (tx_tokenTransfers t) as [l|]; [|reflexivity].
  unfold strict_eq. destruct (tx_type t) as [ty|]; [|reflexivity].
  destruct (String.eqb_spec ty "CREATE_POOL") as [->|_]; [congruence | reflexivity].
Qed.

(** X8.  The parser of the single-file server returns [null] for every
    transaction whose type is not [CREATE_POOL].  On a [CREATE_POOL]
    transaction that lists the same non-empty accounts in [accounts] and in
    [accountData], both parsers return the same result. *)
Theorem parsers_agree_on_pool_creations (t : Transaction) :
  (tx_type t <> Some "CREATE_POOL" ->
   LegacyServer.parsePoolFromTransaction (JObject t) = Ok None) /\
  (tx_type t = Some "CREATE_POOL" ->
   accountDataIds t = accountsIds t ->
   ~ In (Some "") (accountsIds t) ->
   LegacyServer.parsePoolFromTransaction (JObject t)
   = WebhookHandler.parsePoolFromTransaction (JObject t)).
Proof.
  split; [apply legacy_parse_other_types|].
  unfold LegacyServer.parsePoolFromTransaction, LegacyServerParse.parsePoolFromTransaction,
    LegacyServerParse.parsePoolFromTransaction_try,
    WebhookHandler.parsePoolFromTransaction, WebhookHandlerParse.parsePoolFromTransaction,
    WebhookHandlerParse.parsePoolFromTransaction_try.
  - intros Ht Hids Hne. rewrite Ht. cbn [strict_eq]. rewrite String.eqb_refl. cbn [negb].
    destruct (tx_tokenTransfers t) as [l|]; [|reflexivity].
    destruct (Set_from (keepTokenMints (map tt_mint l))) as [|a [|b more]] eqn:ES;
      try (destruct (List.length l <? 2); reflexivity).
    pose proof (tokenMints_need_two_transfers l a b more ES) as HL.
    destruct (Nat.ltb_spec (List.length l) 2) as [Hlt|_]; [lia|].
    cbn [try_catch]. f_equal. f_equal. f_equal.
    unfold accountDataIds, accountsIds in *.
    destruct (tx_accountData t) as [ad|], (tx_accounts t) as [accs|].
    + symmetry. f_equal. apply find_pool_account_agree; [exact Hids|].
      intros Hin. apply Hne. apply in_map. exact Hin.
    + destruct ad; [reflexivity | discriminate].
    + destruct accs; [reflexivity | discriminate].
    + reflexivity.
Qed.

Lemma parsers_agree_on_pool_creations_witness :
  (tx_type enhancedTransaction <> Some "CREATE_POOL" /\
   LegacyServer.parsePoolFromTransaction (JObject enhancedTransaction) = Ok None) /\
  (tx_type createPoolTransaction = Some "CREATE_POOL" /\
   accountDataIds createPoolTransaction = accountsIds createPoolTransaction /\
   ~ In (Some "") (accountsIds createPoolTransaction) /\
   LegacyServer.parsePoolFromTransaction (JObject createPoolTransaction)
   = WebhookHandler.parsePoolFromTransaction (JObject createPoolTransaction)).
Proof.
  assert (H1 : tx_type enhancedTransaction <> Some "CREATE_POOL") by discriminate.
  assert (H2 : ~ In (Some "") (accountsIds createPoolTransaction))
    by (simpl; intros [H|[H|[]]]; discriminate).
  split.
  - split; [exact H1|]. exact (proj1 (parsers_agree_on_pool_creations enhancedTransaction) H1).
  - split; [reflexivity|]. split; [reflexivity|]. split; [exact H2|].
    exact (proj2 (parsers_agree_on_pool_creations createPoolTransaction) eq_refl eq_refl H2).
Defined.

End TwoParsers.

(* ------------------------------------------------------------------ *)
(** ** Batches *)

Section Batches.

Lemma forOf_app_run (l1 l2 : list Item) (w : World) :
  WebhookHandler.forOf (l1 ++ l2) w =
  match WebhookHandler.forOf l1 w with
  | (Ok _, w') => WebhookHandler.forOf l2 w'
  | (Throw e, w') => (Throw e, w')
  end.
Proof.
  revert w. induction l1 as [|x l1 IH]; intros w; [reflexivity|].
  cbn [app]. rewrite !forOf_cons_run.
  destruct (WebhookHandler.processTransaction x w) as [[[]|e] w1]; [apply IH | reflexivity].
Qed.

Lemma forOf_objects_run (txs : list Transaction) (w : World) :
  WebhookHandler.forOf (map JObject txs) w
  = (Ok tt, snd (WebhookHandler.forOf (map JObject txs) w)).
Proof.
  pose proof (forOf_objects_return txs w) as H.
  destruct (WebhookHandler.forOf (map JObject txs) w) as [r w']. simpl in *. now subst r.
Qed.

Lemma submit_run (txs : list Transaction) (w : World) :
  submit txs w = (Ok 200%Z, snd (WebhookHandler.forOf (map JObject txs) w)).
Proof.
  unfold submit, Server.post_webhook_helius, WebhookHandler.processWebhookPayload.
  rewrite try_bind_run, forOf_objects_run. reflexivity.
Qed.

(** X9.  A batch none of whose transactions gives a candidate (its type is
    not one of the two accepted, or the parser returns [null]) is answered
    with 200 and changes nothing: no request is sent, no timer is set, no
    row is read or written. *)
Theorem batch_without_candidates_is_inert (txs : list Transaction) (w : World) :
  (forall t c, In t txs -> ~ CandidateOf t c) ->
  submit txs w = (Ok 200%Z, w).
Proof.
  intros H. rewrite submit_run. f_equal.
  induction txs as [|t txs IH]; [reflexivity|].
  cbn [map]. rewrite forOf_cons_run.
  assert (E : WebhookHandler.processTransaction (JObject t) w = (Ok tt, w)).
  { unfold WebhookHandler.processTransaction.
    destruct (WebhookHandler.acceptedType (tx_type t)) eqn:T; [|reflexivity].
    destruct (parse_never_throws (JObject t)) as [r Hr].
    unfold bind, lift. rewrite Hr. destruct r as [c|]; [|reflexivity].
    exfalso. apply (H t c); [now left | split; assumption]. }
  rewrite E. apply IH. intros t' c Ht. apply H. now right.
Qed.

Lemma batch_without_candidates_is_inert_witness :
  (forall t c, In t [transferTransaction] -> ~ CandidateOf t c) /\
  submit [transferTransaction] servicesUp = (Ok 200%Z, servicesUp).
Proof.
  assert (H : forall t c, In t [transferTransaction] -> ~ CandidateOf t c).
  { intros t c [<-|[]] [Ht _]. discriminate. }
  split; [exact H | exact (batch_without_candidates_is_inert _ servicesUp H)].
Defined.

(** X10.  Posting a batch comes to the same as posting its transactions one
    request after the other: the loop handles them in order, each on the
    state the previous one left. *)
Theorem batch_is_sequence_of_posts (txs : list Transaction) (w : World) :
  snd (submit txs w) = fold_left (fun w' t => snd (submit [t] w')) txs w /\
  forall txs', snd (submit (txs ++ txs') w) = snd (submit txs' (snd (submit txs w))).
Proof.
  assert (A : forall l1 l2 w0,
             snd (submit (l1 ++ l2) w0) = snd (submit l2 (snd (submit l1 w0)))).
  { intros l1 l2 w0. rewrite !submit_run. cbn [snd]. rewrite map_app, forOf_app_run.
    rewrite (forOf_objects_run l1 w0). reflexivity. }
  split; [|intros txs'; apply A].
  revert w. induction txs as [|t txs IH]; intros w.
  - rewrite submit_run. reflexivity.
  - change (t :: txs) with ([t] ++ txs). rewrite A. cbn [fold_left app]. apply IH.
Qed.

(** X11.  A [null] element ends the batch where it stands: the objects
    before it are processed as usual, the elements after it are not looked
    at, and the answer is 500. *)
Theorem null_element_ends_the_batch (before : list Transaction) (after : list Item) (w : World) :
  Server.post_webhook_helius (Some (PayloadArray (map JObject before ++ JNull :: after))) w
  = (Ok 500%Z, snd (submit before w)).
Proof.
  rewrite submit_run. cbn [snd].
  unfold Server.post_webhook_helius, WebhookHandler.processWebhookPayload.
  rewrite try_bind_run, forOf_app_run, forOf_objects_run, forOf_cons_run. reflexivity.
Qed.

Lemma legacy_forOf_cons_run (item : Item) (items : list Item) (w : World) :
  LegacyServer.forOf (item :: items) w =
  match LegacyServer.processTransaction item w with
  | (Ok _, w') => LegacyServer.forOf items w'
  | (Throw e, w') => (Throw e, w')
  end.
Proof. reflexivity. Qed.

(** X12.  For a transaction whose type is not [CREATE_POOL] the
    single-file server does nothing: its loop lets [ENHANCED_TRANSACTION]
    through, but its parser then returns [null].  A batch of such
    transactions is answered with 200, and all that the request leaves
    behind is the entry it appends to [webhook_logs.txt], which holds the
    body received and the time of the request: no row is read or written, no
    request is sent, no timer is set. *)
Theorem legacy_server_ignores_other_types (txs : list Transaction) (w : World) :
  (forall t, In t txs -> tx_type t <> Some "CREATE_POOL") ->
  LegacyServer.post_webhook_helius (Some (PayloadArray (map JObject txs))) w
  = (Ok 200%Z, logged (Some (PayloadArray (map JObject txs))) w) /\
  webhookLogs (logged (Some (PayloadArray (map JObject txs))) w)
  = webhookLogs w ++ [ {| wl_timestamp := clock w;
                          wl_body := Some (PayloadArray (map JObject txs)) |} ] /\
  db (logged (Some (PayloadArray (map JObject txs))) w) = db w /\
  outside (logged (Some (PayloadArray (map JObject txs))) w) = outside w /\
  timers (logged (Some (PayloadArray (map JObject txs))) w) = timers w /\
  clock (logged (Some (PayloadArray (map JObject txs))) w) = clock w /\
  matchedPools (logged (Some (PayloadArray (map JObject txs))) w) = matchedPools w.
Proof.
  intros H. split; [|repeat split].
  rewrite legacy_post_run. unfold LegacyServer.asArray. rewrite try_bind_run.
  assert (E : forall w', LegacyServer.forOf (map JObject txs) w' = (Ok tt, w')).
  { induction txs as [|t txs IH]; intros w'; [reflexivity|].
    cbn [map]. rewrite legacy_forOf_cons_run.
    assert (E : LegacyServer.processTransaction (JObject t) w' = (Ok tt, w')).
    { unfold LegacyServer.processTransaction.
      destruct (WebhookHandler.acceptedType (tx_type t)); [|reflexivity].
      unfold bind, lift.
      rewrite (legacy_parse_other_types t (H t (or_introl eq_refl))).
      reflexivity. }
    rewrite E. apply IH. intros t' Ht. apply H. now right. }
  rewrite E. reflexivity.
Qed.

Lemma legacy_server_ignores_other_types_witness :
  (forall t, In t [enhancedTransaction] -> tx_type t <> Some "CREATE_POOL") /\
  LegacyServer.post_webhook_helius (Some (PayloadArray [JObject enhancedTransaction])) servicesUp
  = (Ok 200%Z, logged (Some (PayloadArray [JObject enhancedTransaction])) servicesUp) /\
  db (logged (Some (PayloadArray [JObject enhancedTransaction])) servicesUp) = ([], []) /\
  poolAddresses (snd (submit [enhancedTransaction] servicesUp)) = ["PoolAcct2"].
Proof.
  assert (H : forall t, In t [enhancedTransaction] -> tx_type t <> Some "CREATE_POOL").
  { intros t [<-|[]]. discriminate. }
  split; [exact H|].
  split; [exact (proj1 (legacy_server_ignores_other_types [enhancedTransaction] servicesUp H))|].
  split; [reflexivity|]. vm_compute. reflexivity.
Defined.

End Batches.

(* ------------------------------------------------------------------ *)
(** ** Writing and reading the tables *)

Section Tables.

Lemma existsb_key_false {A} (key : A -> string) (l : list A) (k : string) :
  existsb (fun x => String.eqb (key x) k) l = false -> ~ In k (map key l).
Proof.
  intros H Hin. apply in_map_iff in Hin. destruct Hin as (x & <- & Hx).
  assert (existsb (fun y => String.eqb (key y) (key x)) l = true).
  { apply existsb_exists. exists x. split; [assumption | apply String.eqb_refl]. }
  congruence.
Qed.

Lemma db_roundtrip_effect (w : World) :
  (fst (Env.db_roundtrip w) = Ok tt /\ hd false (dbFaults w) = false \/
   fst (Env.db_roundtrip w) = Throw PrismaConnectionError /\ hd false (dbFaults w) = true) /\
  pools (snd (Env.db_roundtrip w)) = pools w /\
  events (snd (Env.db_roundtrip w)) = events w /\
  clock (snd (Env.db_roundtrip w)) = clock w.
Proof.
  unfold Env.db_roundtrip. destruct (dbFaults w) as [|[|] l]; simpl; auto.
Qed.

(** What [storePool] does: it throws and writes nothing, or it appends the
    row it returns. *)
Lemma storePool_effect (pd : DatabaseClient.PoolData) (w : World) :
  (exists e, fst (DatabaseClient.storePool pd w) = Throw e /\
             db (snd (DatabaseClient.storePool pd w)) = db w) \/
  (exists a sg,
      DatabaseClient.pd_poolAddress pd = Some a /\
      DatabaseClient.pd_signature pd = Some sg /\
      fst (DatabaseClient.storePool pd w)
      = Ok {| pool_id := Datatypes.S (poolIdSeq w + hd 0%nat (idGaps w));
              pool_tokenA := DatabaseClient.pd_tokenA pd;
              pool_tokenB := DatabaseClient.pd_tokenB pd;
              pool_poolAddress := a;
              pool_source := or_default (DatabaseClient.pd_source pd) "Unknown";
              pool_signature := sg;
              pool_apy := num_or_null (DatabaseClient.pd_apy pd);
              pool_tvl := num_or_null (DatabaseClient.pd_tvl pd);
              pool_volume24h := num_or_null (DatabaseClient.pd_volume24h pd);
              pool_timestamp := None;
              pool_createdAt := clock w |} /\
      pools (snd (DatabaseClient.storePool pd w))
      = pools w ++ [ {| pool_id := Datatypes.S (poolIdSeq w + hd 0%nat (idGaps w));
                        pool_tokenA := DatabaseClient.pd_tokenA pd;
                        pool_tokenB := DatabaseClient.pd_tokenB pd;
                        pool_poolAddress := a;
                        pool_source := or_default (DatabaseClient.pd_source pd) "Unknown";
                        pool_signature := sg;
                        pool_apy := num_or_null (DatabaseClient.pd_apy pd);
                        pool_tvl := num_or_null (DatabaseClient.pd_tvl pd);
                        pool_volume24h := num_or_null (DatabaseClient.pd_volume24h pd);
                        pool_timestamp := None;
                        pool_createdAt := clock w |} ] /\
      events (snd (DatabaseClient.storePool pd w)) = events w /\
      ~ In a (poolAddresses w) /\
      ~ In sg (map pool_signature (pools w)) /\
      hd false (dbFaults w) = false).
Proof.
  unfold DatabaseClient.storePool, try_catch_async, Prisma.pool_create, poolAddresses.
  cbn [Prisma.c_poolAddress Prisma.c_signature].
  destruct (DatabaseClient.pd_poolAddress pd) as [a|];
    [|left; eexists; repeat split; reflexivity].
  destruct (DatabaseClient.pd_signature pd) as [sg|];
    [|left; eexists; repeat split; reflexivity].
  cbn [Prisma.c_timestamp Prisma.validTimestamp Prisma.timestampColumn negb].
  unfold bind, Env.db_roundtrip, Env.get, Env.Date_now, Env.set_pools, Env.nextval_pool,
    ret, throw.
  destruct (dbFaults w) as [|[|] faults];
    cbn [fst snd pools events clock hd poolIdSeq idGaps];
    try (left; eexists; repeat split; reflexivity);
    (destruct (existsb (fun p => String.eqb (pool_poolAddress p) a) (pools w)) eqn:E1;
     [left; eexists; repeat split; reflexivity|]);
    (destruct (existsb (fun p => String.eqb (pool_signature p) sg) (pools w)) eqn:E2;
     [left; eexists; repeat split; reflexivity|]);
    right; exists a, sg; cbn [fst snd pools events clock poolIdSeq idGaps
      Prisma.c_tokenA Prisma.c_tokenB
      Prisma.c_source Prisma.c_apy Prisma.c_tvl Prisma.c_volume24h];
    apply existsb_key_false in E1, E2; repeat split; auto.
Qed.

(** What [storeEvent] does: it throws and writes nothing, or it appends the
    event it returns. *)
Lemma storeEvent_effect (ed : DatabaseClient.EventData) (w : World) :
  (exists e, fst (DatabaseClient.storeEvent ed w) = Throw e /\
             db (snd (DatabaseClient.storeEvent ed w)) = db w) \/
  (exists sg ev,
      DatabaseClient.ed_signature ed = Some sg /\
      fst (DatabaseClient.storeEvent ed w) = Ok ev /\
      ev_poolId ev = DatabaseClient.ed_poolId ed /\
      ev_signature ev = sg /\
      ev_eventType ev = or_default (DatabaseClient.ed_eventType ed) "created" /\
      ev_rawData ev = DatabaseClient.ed_rawData ed /\
      events (snd (DatabaseClient.storeEvent ed w)) = events w ++ [ev] /\
      pools (snd (DatabaseClient.storeEvent ed w)) = pools w /\
      ~ In sg (map ev_signature (events w))).
Proof.
  unfold DatabaseClient.storeEvent, try_catch_async, Prisma.poolEvent_create.
  cbn [Prisma.e_signature].
  destruct (DatabaseClient.ed_signature ed) as [sg|];
    [|left; eexists; repeat split; reflexivity].
  unfold bind, Env.db_roundtrip, Env.get, Env.Date_now, Env.set_events, Env.nextval_event,
    ret, throw.
  destruct (dbFaults w) as [|[|] faults];
    cbn [fst snd pools events clock hd poolIdSeq idGaps];
    try (left; eexists; repeat split; reflexivity);
    (destruct (existsb (fun e => String.eqb (ev_signature e) sg) (events w)) eqn:E1;
     [left; eexists; repeat split; reflexivity|]);
    right; exists sg; eexists; cbn [fst snd pools events poolIdSeq ev_poolId ev_signature
      ev_eventType ev_rawData Prisma.e_poolId Prisma.e_eventType Prisma.e_rawData];
    apply existsb_key_false in E1; repeat split; auto.
Qed.

(** X13.  [poolExists] answers by the table: when it returns, its answer is
    [true] exactly when a row has the address asked for; it throws only for
    an address that is [undefined] or on a lost connection; and it changes
    no row.  After [storePool] has returned a row, [poolExists] finds its
    address, and a second [storePool] of the same address or of the same
    signature throws and leaves the table as it is. *)
Theorem poolExists_answers_by_the_table (address : option string) (w : World) :
  db (snd (DatabaseClient.poolExists address w)) = db w /\
  match fst (DatabaseClient.poolExists address w) with
  | Ok found => exists a, address = Some a /\ (found = true <-> In a (poolAddresses w))
  | Throw _ => address = None \/ hd false (dbFaults w) = true
  end /\
  (forall pd row w1 w2 pd',
      DatabaseClient.storePool pd w = (Ok row, w1) ->
      db w2 = db w1 ->
      (hd false (dbFaults w2) = false ->
       fst (DatabaseClient.poolExists (DatabaseClient.pd_poolAddress pd) w2) = Ok true) /\
      (DatabaseClient.pd_poolAddress pd' = DatabaseClient.pd_poolAddress pd \/
       DatabaseClient.pd_signature pd' = DatabaseClient.pd_signature pd ->
       (exists e, fst (DatabaseClient.storePool pd' w2) = Throw e) /\
       db (snd (DatabaseClient.storePool pd' w2)) = db w2)).
Proof.
  assert (P : forall address w,
             db (snd (DatabaseClient.poolExists address w)) = db w /\
             match fst (DatabaseClient.poolExists address w) with
             | Ok found => exists a, address = Some a /\ (found = true <-> In a (poolAddresses w))
             | Throw _ => address = None \/ hd false (dbFaults w) = true
             end).
  { clear. intros address w. split; [apply poolExists_SameDb|].
    unfold DatabaseClient.poolExists, Prisma.pool_findUnique.
    destruct address as [a|]; [|left; reflexivity].
    unfold bind at 1. unfold bind at 1.
    destruct (db_roundtrip_effect w) as ([[R F]|[R F]] & HP & _);
      destruct (Env.db_roundtrip w) as [r w1]; cbn [fst snd] in *; subst r;
      [|right; exact F].
    unfold bind, Env.get, ret. cbn [fst snd]. exists a. split; [reflexivity|].
    unfold poolAddresses. rewrite <- HP.
    destruct (List.find (fun p => String.eqb (pool_poolAddress p) a) (pools w1)) as [p|] eqn:E.
    - apply find_some in E. destruct E as [Hin He]. apply String.eqb_eq in He.
      split; [intros _|reflexivity]. apply in_map_iff. exists p. auto.
    - split; [discriminate|]. intros Hin. apply in_map_iff in Hin.
      destruct Hin as (p & <- & Hp). apply (find_none _ _ E) in Hp.
      rewrite String.eqb_refl in Hp. discriminate. }
  split; [apply P|]. split; [apply P|].
  intros pd row w1 w2 pd' HS HDB.
  destruct (storePool_effect pd w) as [(e & He & _)|(a & sg & Ha & Hsg & Hr & Hp & _)];
    rewrite HS in *; cbn [fst snd] in *; [discriminate|].
  assert (HP2 : pools w2 = pools w1) by (unfold db in HDB; congruence).
  assert (Hin : In a (poolAddresses w2)).
  { unfold poolAddresses. rewrite HP2, Hp, map_app. apply in_or_app. right. now left. }
  assert (Hin' : In sg (map pool_signature (pools w2))).
  { rewrite HP2, Hp, map_app. apply in_or_app. right. now left. }
  split.
  - intros HF. destruct (P (Some a) w2) as [_ Q]. rewrite Ha.
    destruct (fst (DatabaseClient.poolExists (Some a) w2)) as [found|e].
    + destruct Q as (a' & Ea & Hiff). injection Ea as <-. f_equal. now apply Hiff.
    + destruct Q as [Q|Q]; [discriminate | congruence].
  - intros Hsame.
    destruct (storePool_effect pd' w2)
      as [(e & He & Hd)|(a' & sg' & Ha' & Hsg' & _ & _ & _ & N1 & N2 & _)].
    + split; [eauto | exact Hd].
    + exfalso. destruct Hsame as [Hs|Hs].
      * rewrite Ha', Ha in Hs. injection Hs as ->. exact (N1 Hin).
      * rewrite Hsg', Hsg in Hs. injection Hs as ->. exact (N2 Hin').
Qed.

Lemma poolExists_answers_by_the_table_witness :
  exists row w1,
    DatabaseClient.storePool zeroApyPool servicesUp = (Ok row, w1) /\
    fst (DatabaseClient.poolExists (Some "PoolAcct") w1) = Ok true /\
    db (snd (DatabaseClient.storePool zeroApyPool w1)) = db w1.
Proof.
  eexists. eexists. split; [vm_compute; reflexivity|].
  match goal with
  | |- fst (_ _ ?w1) = _ /\ _ =>
      destruct (proj2 (proj2 (poolExists_answers_by_the_table None servicesUp))
                      zeroApyPool _ w1 w1 zeroApyPool eq_refl eq_refl) as [H1 H2]
  end.
  split; [exact (H1 eq_refl) | exact (proj2 (H2 (or_introl eq_refl)))].
Defined.

End Tables.

(* ------------------------------------------------------------------ *)
(** ** [WebhookHandler.savePoolToDatabase] step by step *)

Section SaveSteps.

Local Open Scope Q_scope.

Lemma num_or_null_positive (x : option Q) :
  NullOrPositive x -> num_or_null x = x.
Proof.
  destruct x as [q|]; simpl; [|reflexivity]. intros H.
  destruct (Qeq_bool q 0) eqn:E; [|reflexivity].
  apply Qeq_bool_iff in E. rewrite E in H. exfalso. exact (Qlt_irrefl _ H).
Qed.

(** The APY looked up for a candidate, first by [tokenA] and then by
    [tokenB], is none or positive. *)
Lemma looked_up_apy_positive (d : option DefiLlamaClient.ApyData) (mint : string) (w : World) :
  match d with Some d => NullOrPositive (DefiLlamaClient.apy_apy d) | None => True end ->
  match fst (match d with
             | None => DefiLlamaClient.getBestApyForMint mint "Solana"
             | Some _ => ret d
             end w) with
  | Ok (Some d') => NullOrPositive (DefiLlamaClient.apy_apy d')
  | _ => True
  end.
Proof.
  destruct d as [d|]; [intros H; exact H|]. intros _.
  pose proof (getBestApyForMint_positive mint "Solana" w) as H.
  destruct (fst (DefiLlamaClient.getBestApyForMint mint "Solana" w)) as [[d'|]|e]; try exact I.
  destruct H as (q & -> & Hq). exact Hq.
Qed.

(** What one call of [savePoolToDatabase] returns and writes. *)
Lemma savePoolToDatabase_effect (c : PoolCandidate) (w : World) :
  match fst (WebhookHandler.savePoolToDatabase c w) with
  | Ok (Some p) =>
      pools (snd (WebhookHandler.savePoolToDatabase c w)) = pools w ++ [p] /\
      (exists ev,
          events (snd (WebhookHandler.savePoolToDatabase c w)) = events w ++ [ev] /\
          ev_poolId ev = pool_id p /\
          ev_eventType ev = "created"%string /\
          ev_signature ev = pool_signature p /\
          ~ In (ev_signature ev) (map ev_signature (events w))) /\
      ~ In (pool_signature p) (map pool_signature (pools w)) /\
      pool_tokenA p = pc_tokenA c /\
      pool_tokenB p = pc_tokenB c /\
      pc_poolAddress c = Some (pool_poolAddress p) /\
      pc_signature c = Some (pool_signature p) /\
      ~ In (pool_poolAddress p) (poolAddresses w) /\
      NullOrPositive (pool_apy p) /\
      pool_volume24h p = None
  | Ok None =>
      db (snd (WebhookHandler.savePoolToDatabase c w)) = db w \/
      (exists row,
          pools (snd (WebhookHandler.savePoolToDatabase c w)) = pools w ++ [row] /\
          events (snd (WebhookHandler.savePoolToDatabase c w)) = events w /\
          ~ In (pool_signature row) (map pool_signature (pools w)))
  | Throw _ => False
  end.
Proof.
  unfold WebhookHandler.savePoolToDatabase. rewrite try_bind_run.
  pose proof (poolExists_SameDb (pc_poolAddress c) w) as D0.
  destruct (DatabaseClient.poolExists (pc_poolAddress c) w) as [[[|]|e0] w0];
    cbn [fst snd] in *; try (left; exact D0).
  rewrite try_bind_run.
  pose proof (wait_SameDb w0) as D1.
  destruct (RateLimiter.wait w0) as [[[]|e1] w1];
    cbn [fst snd] in *; try (left; exact (SameDb_trans _ _ _ D0 D1)).
  assert (A1 : SameDb w w1) by exact (SameDb_trans _ _ _ D0 D1).
  rewrite try_bind_run.
  pose proof (getBestApyForMint_SameDb (pc_tokenA c) "Solana" w1) as D2.
  pose proof (getBestApyForMint_positive (pc_tokenA c) "Solana" w1) as P2.
  destruct (DefiLlamaClient.getBestApyForMint (pc_tokenA c) "Solana" w1) as [[d|e2] w2];
    cbn [fst snd] in *; try (left; exact (SameDb_trans _ _ _ A1 D2)).
  assert (A2 : SameDb w w2) by exact (SameDb_trans _ _ _ A1 D2).
  rewrite try_bind_run.
  assert (D3 : SameDb w2 (snd (match d with
                               | None => DefiLlamaClient.getBestApyForMint (pc_tokenB c) "Solana"
                               | Some _ => ret d
                               end w2)))
    by (destruct d; [apply SameDb_refl | apply getBestApyForMint_SameDb]).
  assert (P3 := looked_up_apy_positive d (pc_tokenB c) w2).
  destruct (match d with
            | None => DefiLlamaClient.getBestApyForMint (pc_tokenB c) "Solana"
            | Some _ => ret d
            end w2) as [[d'|e3] w3];
    cbn [fst snd] in *; try (left; exact (SameDb_trans _ _ _ A2 D3)).
  assert (A3 : SameDb w w3) by exact (SameDb_trans _ _ _ A2 D3).
  assert (P : match d' with
              | Some x => NullOrPositive (DefiLlamaClient.apy_apy x)
              | None => True
              end).
  { apply P3. destruct d as [x|]; [|exact I]. destruct P2 as (q & -> & Hq). exact Hq. }
  clear P2 P3.
  rewrite try_bind_run.
  pose proof (getFullTokenData_SameDb (pc_tokenA c) w3) as D4.
  destruct (JupiterClient.getFullTokenData (pc_tokenA c) w3) as [[ia|e4] w4];
    cbn [fst snd] in *; try (left; exact (SameDb_trans _ _ _ A3 D4)).
  assert (A4 : SameDb w w4) by exact (SameDb_trans _ _ _ A3 D4).
  rewrite try_bind_run.
  pose proof (getFullTokenData_SameDb (pc_tokenB c) w4) as D5.
  destruct (JupiterClient.getFullTokenData (pc_tokenB c) w4) as [[ib|e5] w5];
    cbn [fst snd] in *; try (left; exact (SameDb_trans _ _ _ A4 D5)).
  assert (A5 : SameDb w w5) by exact (SameDb_trans _ _ _ A4 D5).
  cbv zeta. rewrite try_bind_run.
  unfold SameDb, db in A5. injection A5 as AP AE.
  match goal with
  | |- context [DatabaseClient.storePool ?pd w5] =>
      destruct (storePool_effect pd w5)
        as [(e & He & Hd)|(a & sg & Ha & Hsg & Hr & Hp & Hev & N1 & N2 & _)];
      destruct (DatabaseClient.storePool pd w5) as [r6 w6]
  end; cbn [fst snd DatabaseClient.pd_poolAddress DatabaseClient.pd_signature
            DatabaseClient.pd_tokenA DatabaseClient.pd_tokenB DatabaseClient.pd_apy
            DatabaseClient.pd_volume24h] in *; subst r6.
  - left. cbn [fst snd]. unfold db in *. rewrite AP, AE in Hd. exact Hd.
  - rewrite try_bind_run.
    match goal with
    | |- context [DatabaseClient.storeEvent ?ed w6] =>
        destruct (storeEvent_effect ed w6)
          as [(e & He & Hd)|(sg' & ev & Hs' & Hre & Hid & Hes & Het & _ & Hee & Hpp & N3)];
        destruct (DatabaseClient.storeEvent ed w6) as [r7 w7]
    end; cbn [fst snd DatabaseClient.ed_signature DatabaseClient.ed_poolId
              DatabaseClient.ed_eventType pool_id] in *; subst r7.
    + right. cbv beta iota. unfold ret. cbn [fst snd]. unfold db in Hd. injection Hd as HdP HdE.
      eexists. split; [rewrite HdP, Hp, AP; reflexivity|].
      split; [rewrite HdE, Hev, AE; reflexivity|].
      cbn [pool_signature]. rewrite <- AP. exact N2.
    + unfold ret, try_catch_async. cbv beta iota. cbn [fst snd pool_tokenA pool_tokenB pool_poolAddress pool_signature pool_apy
           pool_volume24h pool_id].
      rewrite Hsg in Hs'. injection Hs' as <-.
      split; [rewrite Hpp, Hp, AP; reflexivity|].
      split.
      { exists ev. rewrite Hee, Hev, AE, Hid, Het, Hes.
        repeat split; try reflexivity. rewrite Hev, AE in N3. exact N3. }
      rewrite <- AP. split; [exact N2|].
      split; [reflexivity|]. split; [reflexivity|]. split; [exact Ha|]. split; [exact Hsg|].
      split; [unfold poolAddresses in *; rewrite AP in N1; exact N1|].
      split; [|reflexivity].
      destruct d' as [x|]; [|exact I]. cbn [num_or_null].
      rewrite !(num_or_null_positive _ P). exact P.
Qed.

(** X14.  [savePoolToDatabase] never throws, and its result tells what it
    wrote.  When it returns a pool, that pool is the one row it appended,
    it carries the tokens, address and signature of the candidate, its
    address was not on record before, its APY is null or positive and its
    24 h volume null, and one event of type ['created'] with the same
    signature was appended for it.  When it returns [null], either nothing
    was written, or the pool row was written and its event was not. *)
Theorem savePoolToDatabase_result_tells_what_was_written (c : PoolCandidate) (w : World) :
  match fst (WebhookHandler.savePoolToDatabase c w) with
  | Ok (Some p) =>
      pools (snd (WebhookHandler.savePoolToDatabase c w)) = pools w ++ [p] /\
      (exists ev,
          events (snd (WebhookHandler.savePoolToDatabase c w)) = events w ++ [ev] /\
          ev_poolId ev = pool_id p /\
          ev_eventType ev = "created"%string /\
          ev_signature ev = pool_signature p) /\
      pool_tokenA p = pc_tokenA c /\
      pool_tokenB p = pc_tokenB c /\
      pc_poolAddress c = Some (pool_poolAddress p) /\
      pc_signature c = Some (pool_signature p) /\
      ~ In (pool_poolAddress p) (poolAddresses w) /\
      NullOrPositive (pool_apy p) /\
      pool_volume24h p = None
  | Ok None =>
      db (snd (WebhookHandler.savePoolToDatabase c w)) = db w \/
      (exists row,
          pools (snd (WebhookHandler.savePoolToDatabase c w)) = pools w ++ [row] /\
          events (snd (WebhookHandler.savePoolToDatabase c w)) = events w)
  | Throw _ => False
  end.
Proof.
  pose proof (savePoolToDatabase_effect c w) as H.
  destruct (fst (WebhookHandler.savePoolToDatabase c w)) as [[p|]|e]; [| |exact H].
  - destruct H as (H1 & (ev & E1 & E2 & E3 & E4 & _) & _ & H2).
    split; [exact H1|]. split; [|exact H2].
    exists ev. repeat split; assumption.
  - destruct H as [H|(row & H1 & H2 & _)]; [left; exact H|].
    right. exists row. split; assumption.
Qed.

(* ------------------------------------------------------------------ *)
(** ** The tables stay consistent *)

Lemma NoDup_snoc {A} (l : list A) (x : A) : NoDup l -> ~ In x l -> NoDup (l ++ [x]).
Proof.
  induction l as [|y l IH]; simpl; intros ND NI.
  - constructor; [intros []|constructor].
  - inversion ND as [|? ? Hy ND']; subst. constructor.
    + rewrite in_app_iff. intros [H|[H|[]]]; [exact (Hy H)|]. apply NI. left. symmetry. exact H.
    + apply IH; [exact ND'|]. intros H. apply NI. right. exact H.
Qed.

Lemma DbInv_same (w w' : World) : db w' = db w -> DbInv w -> DbInv w'.
Proof.
  unfold db, DbInv. intros H. injection H as -> ->. exact (fun I => I).
Qed.

(** A new pool, and at most one event for it. *)
Lemma DbInv_pool_saved (w w' : World) (p : Pool) :
  pools w' = pools w ++ [p] ->
  ~ In (pool_signature p) (map pool_signature (pools w)) ->
  (events w' = events w \/
   exists ev, events w' = events w ++ [ev] /\
              ev_poolId ev = pool_id p /\
              ev_signature ev = pool_signature p /\
              ~ In (ev_signature ev) (map ev_signature (events w))) ->
  DbInv w -> DbInv w'.
Proof.
  unfold DbInv. intros HP Hsg HE (I1 & I2 & I3).
  rewrite HP, !map_app. cbn [map].
  assert (Hold : forall e, In e (events w) ->
                           exists q, In q (pools w ++ [p]) /\ pool_id q = ev_poolId e /\
                                     pool_signature q = ev_signature e).
  { intros e He. destruct (I3 e He) as (q & Hq & Hr). exists q.
    split; [apply in_or_app; left; exact Hq | exact Hr]. }
  split; [apply NoDup_snoc; assumption|]. split.
  - destruct HE as [->|(ev & -> & _ & _ & Hn)]; [exact I2|].
    rewrite map_app. apply NoDup_snoc; assumption.
  - destruct HE as [->|(ev & -> & E1 & E2 & _)]; [exact Hold|].
    intros e He. apply in_app_or in He. destruct He as [He|[<-|[]]]; [exact (Hold e He)|].
    exists p. split; [apply in_or_app; right; left; reflexivity|].
    split; [symmetry; exact E1 | symmetry; exact E2].
Qed.

Lemma KeepsDbInv_refl (w : World) : KeepsDbInv w w.
Proof. exact (fun I => I). Qed.

Lemma KeepsDbInv_trans (w1 w2 w3 : World) :
  KeepsDbInv w1 w2 -> KeepsDbInv w2 w3 -> KeepsDbInv w1 w3.
Proof. unfold KeepsDbInv. auto. Qed.

Lemma savePoolToDatabase_KeepsDbInv (c : PoolCandidate) :
  respects KeepsDbInv (WebhookHandler.savePoolToDatabase c).
Proof.
  intros w I. pose proof (savePoolToDatabase_effect c w) as H.
  destruct (fst (WebhookHandler.savePoolToDatabase c w)) as [[p|]|e]; [| |contradiction].
  - destruct H as (H1 & (ev & E1 & E2 & _ & E4 & E5) & H3 & _).
    apply (DbInv_pool_saved w _ p H1 H3); [|exact I].
    right. exists ev. repeat split; assumption.
  - destruct H as [H|(row & H1 & H2 & H4)]; [exact (DbInv_same _ _ H I)|].
    apply (DbInv_pool_saved w _ row H1 H4); [|exact I]. left. exact H2.
Qed.

Lemma forOf_KeepsDbInv (items : list Item) :
  respects KeepsDbInv (WebhookHandler.forOf items).
Proof.
  induction items as [|item items IH]; simpl.
  - apply (respects_ret _ KeepsDbInv_refl).
  - apply (respects_bind _ KeepsDbInv_trans); [|intros; exact IH].
    unfold WebhookHandler.processTransaction.
    repeat first [ apply savePoolToDatabase_KeepsDbInv
                 | frame_step KeepsDbInv_refl KeepsDbInv_trans ].
Qed.

(** X15.  Whatever is posted to [/webhook/helius], and whatever the
    services and the database connection do meanwhile, the tables stay
    consistent: signatures stay unique in both tables, and every event
    refers, by its [poolId], to a pool on record that has the event's
    signature.  The ids themselves play no part: the statement holds
    whatever values the id sequence hands out. *)
Theorem post_webhook_helius_keeps_tables_consistent (body : option Payload) (w : World) :
  DbInv w -> DbInv (snd (Server.post_webhook_helius body w)).
Proof.
  revert w. change (respects KeepsDbInv (Server.post_webhook_helius body)).
  unfold Server.post_webhook_helius, WebhookHandler.processWebhookPayload.
  repeat first [ apply forOf_KeepsDbInv
               | frame_step KeepsDbInv_refl KeepsDbInv_trans ].
Qed.

Lemma post_webhook_helius_keeps_tables_consistent_witness :
  DbInv enrichedWorld /\
  DbInv (snd (Server.post_webhook_helius
                (Some (PayloadArray [JObject createPoolTransaction])) enrichedWorld)) /\
  List.length (events (snd (Server.post_webhook_helius
                              (Some (PayloadArray [JObject createPoolTransaction]))
                              enrichedWorld))) = 1%nat.
Proof.
  assert (I : DbInv enrichedWorld).
  { unfold DbInv. cbn. repeat split; try constructor; intros e []. }
  split; [exact I|]. split; [|vm_compute; reflexivity].
  exact (post_webhook_helius_keeps_tables_consistent _ _ I).
Defined.

End SaveSteps.

(* ------------------------------------------------------------------ *)
(** ** The listings of the read endpoints *)

Section Listings.

Variable A : Type.
Variable before : A -> A -> bool.
Variable R : A -> A -> Prop.
Variable P : A -> Prop.

Hypothesis before_true : forall a b, P a -> P b -> before a b = true -> R a b.
Hypothesis before_false : forall a b, P a -> P b -> before a b = false -> R b a.
Hypothesis R_trans : forall a b c, R a b -> R b c -> R a c.

Lemma insert_by_In_rev (x y : A) (l : list A) :
  y = x \/ In y l -> In y (Prisma.insert_by before x l).
Proof.
  induction l as [|z l IH]; simpl.
  - intros [->|[]]. now left.
  - destruct (before z x); simpl.
    + intros [->|[->|H]]; [right; apply IH; now left | now left | right; apply IH; now right].
    + intros [->|[->|H]]; [now left | right; now left | right; now right].
Qed.

Lemma orderBy_In_rev (y : A) (l : list A) :
  In y l -> In y (Prisma.orderBy before l).
Proof.
  unfold Prisma.orderBy. induction l as [|x l IH]; simpl; [tauto|].
  intros [->|H]; apply insert_by_In_rev; [now left | right; now apply IH].
Qed.

Lemma insert_by_length (x : A) (l : list A) :
  List.length (Prisma.insert_by before x l) = Datatypes.S (List.length l).
Proof.
  induction l as [|z l IH]; simpl; [reflexivity|].
  destruct (before z x); simpl; [now rewrite IH | reflexivity].
Qed.

Lemma orderBy_length (l : list A) :
  List.length (Prisma.orderBy before l) = List.length l.
Proof.
  unfold Prisma.orderBy. induction l as [|x l IH]; simpl; [reflexivity|].
  now rewrite insert_by_length, IH.
Qed.

Lemma insert_by_sorted (x : A) (l : list A) :
  P x -> Forall P l -> StronglySorted R l ->
  StronglySorted R (Prisma.insert_by before x l).
Proof.
  intros Px. induction l as [|y l IH]; simpl; intros FP SS.
  - constructor; constructor.
  - inversion FP as [|? ? Py FP']; subst. inversion SS as [|? ? SS' Hy]; subst.
    destruct (before y x) eqn:E.
    + constructor; [exact (IH FP' SS')|].
      apply Forall_forall. intros z Hz. apply insert_by_In in Hz.
      destruct Hz as [->|Hz]; [exact (before_true _ _ Py Px E)|].
      rewrite Forall_forall in Hy. exact (Hy z Hz).
    + constructor; [exact SS|].
      pose proof (before_false _ _ Py Px E) as Rxy.
      constructor; [exact Rxy|].
      apply Forall_forall. intros z Hz. rewrite Forall_forall in Hy.
      exact (R_trans _ _ _ Rxy (Hy z Hz)).
Qed.

Lemma orderBy_sorted (l : list A) :
  Forall P l -> StronglySorted R (Prisma.orderBy before l).
Proof.
  unfold Prisma.orderBy. induction l as [|x l IH]; simpl; intros FP; [constructor|].
  inversion FP as [|? ? Px FP']; subst.
  apply insert_by_sorted; [exact Px | | exact (IH FP')].
  apply Forall_forall. intros z Hz. apply orderBy_In in Hz.
  rewrite Forall_forall in FP'. exact (FP' z Hz).
Qed.

Lemma sorted_app (l1 l2 : list A) :
  StronglySorted R (l1 ++ l2) ->
  StronglySorted R l1 /\ (forall p q, In p l1 -> In q l2 -> R p q).
Proof.
  induction l1 as [|x l1 IH]; simpl; intros SS.
  - split; [constructor | intros p q []].
  - inversion SS as [|? ? SS' Hx]; subst. destruct (IH SS') as [S1 H1].
    rewrite Forall_forall in Hx. split.
    + constructor; [exact S1|]. apply Forall_forall. intros z Hz.
      apply Hx, in_or_app. now left.
    + intros p q [<-|Hp] Hq; [apply Hx, in_or_app; now right | exact (H1 p q Hp Hq)].
Qed.

(** What [findMany] hands out: the first [take] rows in the order asked
    for. *)
Lemma firstn_orderBy_top (take : nat) (l : list A) :
  Forall P l -> TopOf R take l (firstn take (Prisma.orderBy before l)).
Proof.
  intros FP. pose proof (orderBy_sorted l FP) as SS.
  rewrite <- (firstn_skipn take (Prisma.orderBy before l)) in SS.
  destruct (sorted_app _ _ SS) as [S1 H1].
  split; [rewrite length_firstn, orderBy_length; reflexivity|].
  split; [intros p Hp; apply (orderBy_In before), (firstn_In take); exact Hp|].
  split; [exact S1|].
  intros p q Hp Hq Nq. apply (H1 p q Hp).
  apply orderBy_In_rev in Hq.
  rewrite <- (firstn_skipn take (Prisma.orderBy before l)) in Hq.
  apply in_app_or in Hq. destruct Hq as [Hq|Hq]; [contradiction | exact Hq].
Qed.

End Listings.

Section ReadEndpoints.

Lemma pool_findMany_effect (where_ : Pool -> bool) (before : Pool -> Pool -> bool)
      (take : nat) (w : World) :
  db (snd (Prisma.pool_findMany where_ before take w)) = db w /\
  (hd false (dbFaults w) = true /\
   fst (Prisma.pool_findMany where_ before take w) = Throw PrismaConnectionError \/
   hd false (dbFaults w) = false /\
   fst (Prisma.pool_findMany where_ before take w)
   = Ok (firstn take (Prisma.orderBy before (filter where_ (pools w))))).
Proof.
  unfold Prisma.pool_findMany, bind, Env.db_roundtrip, Env.get, ret, db.
  destruct (dbFaults w) as [|[|] faults]; cbn [fst snd pools events hd]; split;
    try reflexivity; [right | left | right]; split; reflexivity.
Qed.

Lemma apy_desc_true (a b : Pool) :
  pool_apy a <> None -> pool_apy b <> None ->
  DatabaseClient.apy_desc a b = true -> ApyAtLeast a b.
Proof.
  unfold DatabaseClient.apy_desc, ApyAtLeast, apyOf.
  destruct (pool_apy a) as [x|], (pool_apy b) as [y|]; try congruence.
  intros _ _ H. apply Qle_bool_iff. exact H.
Qed.

Lemma apy_desc_false (a b : Pool) :
  pool_apy a <> None -> pool_apy b <> None ->
  DatabaseClient.apy_desc a b = false -> ApyAtLeast b a.
Proof.
  unfold DatabaseClient.apy_desc, ApyAtLeast, apyOf.
  destruct (pool_apy a) as [x|], (pool_apy b) as [y|]; try congruence.
  intros _ _ H. apply Qlt_le_weak, Qnot_le_lt. intros L.
  apply Qle_bool_iff in L. congruence.
Qed.

Lemma ApyAtLeast_trans (a b c : Pool) : ApyAtLeast a b -> ApyAtLeast b c -> ApyAtLeast a c.
Proof. unfold ApyAtLeast. intros H1 H2. exact (Qle_trans _ _ _ H2 H1). Qed.

Lemma createdAt_desc_true (a b : Pool) :
  True -> True -> DatabaseClient.createdAt_desc a b = true -> NotOlder a b.
Proof.
  unfold DatabaseClient.createdAt_desc, NotOlder. intros _ _ H. apply Z.leb_le in H. exact H.
Qed.

Lemma createdAt_desc_false (a b : Pool) :
  True -> True -> DatabaseClient.createdAt_desc a b = false -> NotOlder b a.
Proof.
  unfold DatabaseClient.createdAt_desc, NotOlder. intros _ _ H. apply Z.leb_gt in H. lia.
Qed.

Lemma NotOlder_trans (a b c : Pool) : NotOlder a b -> NotOlder b c -> NotOlder a c.
Proof. unfold NotOlder. lia. Qed.

Lemma filter_apy_not_null (l : list Pool) :
  Forall (fun p => pool_apy p <> None) (filter DatabaseClient.apy_not_null l).
Proof.
  apply Forall_forall. intros p Hp. apply filter_In in Hp. destruct Hp as [_ Hp].
  unfold DatabaseClient.apy_not_null in Hp. destruct (pool_apy p); [discriminate | discriminate].
Qed.

(** X16.  [GET /api/pools/apy] writes nothing.  It answers 500 exactly
    when the database connection fails; otherwise [pools] holds the views of
    the 25 rows of highest APY among the rows on record that have one (all
    of them when there are fewer), highest first, and [total] is their
    number. *)
Theorem get_api_pools_apy_lists_the_top_25 (w : World) :
  db (snd (Api.get_api_pools_apy w)) = db w /\
  (hd false (dbFaults w) = true /\
   fst (Api.get_api_pools_apy w) = Ok (Api.Json500 PrismaConnectionError) \/
   hd false (dbFaults w) = false /\
   exists rows,
     fst (Api.get_api_pools_apy w)
     = Ok (Api.Json200 (List.length rows) (map Api.apyView rows)) /\
     TopOf ApyAtLeast 25 (filter DatabaseClient.apy_not_null (pools w)) rows /\
     (forall p, In p rows -> In p (pools w) /\ pool_apy p <> None)).
Proof.
  unfold Api.get_api_pools_apy, DatabaseClient.getPoolsWithApy. rewrite try_bind_run.
  destruct (pool_findMany_effect DatabaseClient.apy_not_null DatabaseClient.apy_desc 25 w)
    as [D [[F E]|[F E]]];
    destruct (Prisma.pool_findMany DatabaseClient.apy_not_null DatabaseClient.apy_desc 25 w)
    as [r w']; cbn [fst snd] in *; subst r; unfold try_catch_async, ret; cbn [fst snd];
    (split; [exact D|]); [left; split; [exact F | reflexivity]|].
  right. split; [exact F|]. eexists. split; [reflexivity|].
  pose proof (firstn_orderBy_top Pool DatabaseClient.apy_desc ApyAtLeast
                (fun p => pool_apy p <> None) apy_desc_true apy_desc_false ApyAtLeast_trans
                25 _ (filter_apy_not_null (pools w))) as T.
  split; [exact T|].
  intros p Hp. destruct T as (_ & T & _). apply T, filter_In in Hp. destruct Hp as [Hp Ha].
  split; [exact Hp|]. unfold DatabaseClient.apy_not_null in Ha.
  destruct (pool_apy p); [discriminate | discriminate].
Qed.

(** X17.  [GET /api/pools] writes nothing.  It answers 500 exactly when the
    database connection fails; otherwise [pools] holds the views of the 50
    rows created last (all rows when the table has fewer), newest first,
    and [total] is their number. *)
Theorem get_api_pools_lists_the_newest_50 (w : World) :
  db (snd (Api.get_api_pools w)) = db w /\
  (hd false (dbFaults w) = true /\
   fst (Api.get_api_pools w) = Ok (Api.Json500 PrismaConnectionError) \/
   hd false (dbFaults w) = false /\
   exists rows,
     fst (Api.get_api_pools w)
     = Ok (Api.Json200 (List.length rows) (map Api.poolView rows)) /\
     TopOf NotOlder 50 (pools w) rows).
Proof.
  unfold Api.get_api_pools, DatabaseClient.getAllPools. rewrite try_bind_run.
  destruct (pool_findMany_effect (fun _ => true) DatabaseClient.createdAt_desc 50 w)
    as [D [[F E]|[F E]]];
    destruct (Prisma.pool_findMany (fun _ => true) DatabaseClient.createdAt_desc 50 w)
    as [r w']; cbn [fst snd] in *; subst r; unfold try_catch_async, ret; cbn [fst snd];
    (split; [exact D|]); [left; split; [exact F | reflexivity]|].
  right. split; [exact F|]. eexists. split; [reflexivity|].
  assert (FT : Forall (fun _ : Pool => True) (filter (fun _ : Pool => true) (pools w)))
    by (apply Forall_forall; intros; exact I).
  pose proof (firstn_orderBy_top Pool DatabaseClient.createdAt_desc NotOlder
                (fun _ => True) createdAt_desc_true createdAt_desc_false NotOlder_trans
                50 _ FT) as T.
  assert (EF : forall l : list Pool, filter (fun _ : Pool => true) l = l)
    by (intros l; induction l as [|x l IH]; simpl; [reflexivity | now rewrite IH]).
  rewrite EF in T |- *. exact T.
Qed.

End ReadEndpoints.

(* ------------------------------------------------------------------ *)
(** ** [savePoolToDatabase] of the single-file server *)

Section LegacySave.

Lemma fetchDefiLlamaAPY_SameStore (tokenA tokenB : string) :
  respects SameStore (LegacyServer.fetchDefiLlamaAPY tokenA tokenB).
Proof.
  unfold LegacyServer.fetchDefiLlamaAPY, LegacyServer.fetchDefiLlamaAPY_fn,
    RateLimiter.wait, Env.json.
  repeat first [ apply fetch_llama_SameStore
               | frame_step SameStore_refl SameStore_trans
               | solve [intros w; split; reflexivity] ].
Qed.

(** [fetchDefiLlamaAPY] writes to no file. *)
Lemma fetchDefiLlamaAPY_matchedPools (tokenA tokenB : string) :
  respects (fun w w' => matchedPools w' = matchedPools w)
           (LegacyServer.fetchDefiLlamaAPY tokenA tokenB).
Proof.
  unfold LegacyServer.fetchDefiLlamaAPY, LegacyServer.fetchDefiLlamaAPY_fn,
    RateLimiter.wait, Env.json.
  repeat first [ frame_step (fun w : World => eq_refl (matchedPools w))
                            (fun (w1 w2 w3 : World)
                                 (H1 : matchedPools w2 = matchedPools w1)
                                 (H2 : matchedPools w3 = matchedPools w2) =>
                               eq_trans H2 H1)
               | solve [intros w; reflexivity]
               | solve [intros w; unfold Env.fetch_llama;
                        destruct (llamaResponses w) as [|[r|] l]; reflexivity] ].
Qed.

(** X18.  [savePoolToDatabase] of the single-file server never writes an
    event.  With the database reachable, it returns the row on record for
    an address that has one, without asking the yield service and without
    writing to [matched_pools.txt].  For a new address and signature and a
    valid timestamp it stores and returns the pool, with the timestamp of
    the candidate, whatever the yield service answers, and appends one line
    with the same APY and TVL to [matched_pools.txt]; for a candidate whose
    timestamp is the invalid date, which the parser yields for a transaction
    without timestamp, the insert is refused: it returns [null] and writes
    neither row nor line. *)
Theorem legacy_save_persists_whatever_the_yield_service_does
        (c : PoolCandidate) (a sg : string) (w : World) :
  pc_poolAddress c = Some a ->
  pc_signature c = Some sg ->
  hd false (dbFaults w) = false ->
  events (snd (LegacyServer.savePoolToDatabase c w)) = events w /\
  (In a (poolAddresses w) ->
   exists p,
     fst (LegacyServer.savePoolToDatabase c w) = Ok (Some p) /\
     In p (pools w) /\ pool_poolAddress p = a /\
     pools (snd (LegacyServer.savePoolToDatabase c w)) = pools w /\
     llamaResponses (snd (LegacyServer.savePoolToDatabase c w)) = llamaResponses w /\
     timers (snd (LegacyServer.savePoolToDatabase c w)) = timers w /\
     matchedPools (snd (LegacyServer.savePoolToDatabase c w)) = matchedPools w) /\
  (~ In a (poolAddresses w) ->
   ~ In sg (map pool_signature (pools w)) ->
   hd false (tl (dbFaults w)) = false ->
   match pc_timestamp c with
   | Some ms =>
       exists p entry,
         fst (LegacyServer.savePoolToDatabase c w) = Ok (Some p) /\
         pools (snd (LegacyServer.savePoolToDatabase c w)) = pools w ++ [p] /\
         pool_poolAddress p = a /\ pool_signature p = sg /\
         pool_tokenA p = pc_tokenA c /\ pool_tokenB p = pc_tokenB c /\
         pool_source p = pc_source c /\
         pool_timestamp p = Some ms /\
         matchedPools (snd (LegacyServer.savePoolToDatabase c w))
         = matchedPools w ++ [entry] /\
         mp_poolAddress entry = Some a /\
         mp_apy entry = pool_apy p /\ mp_tvl entry = pool_tvl p
   | None =>
       fst (LegacyServer.savePoolToDatabase c w) = Ok None /\
       pools (snd (LegacyServer.savePoolToDatabase c w)) = pools w /\
       matchedPools (snd (LegacyServer.savePoolToDatabase c w)) = matchedPools w
   end).
Proof.
  intros Ha Hsg HF. unfold LegacyServer.savePoolToDatabase. rewrite try_bind_run.
  rewrite Ha, (pool_findUnique_run a w HF).
  pose proof (find_by_address a (pools w)) as Hfind.
  rewrite db_roundtrip_state.
  destruct (List.find (fun p => String.eqb (pool_poolAddress p) a) (pools w)) as [p0|].
  - unfold try_catch_async, ret. cbn [fst snd]. split; [reflexivity|]. split.
    + intros _. exists p0. destruct Hfind as [H1 H2]. repeat split; assumption.
    + intros N. exfalso. apply N. destruct Hfind as [H1 H2].
      apply in_map_iff. exists p0. auto.
  - rewrite try_bind_run.
    pose proof (fetchDefiLlamaAPY_SameStore (pc_tokenA c) (pc_tokenB c) (afterDbCalls 1 w))
      as [SD SF].
    assert (SM : matchedPools
                   (snd (LegacyServer.fetchDefiLlamaAPY (pc_tokenA c) (pc_tokenB c)
                                                        (afterDbCalls 1 w)))
                 = matchedPools w)
      by apply (fetchDefiLlamaAPY_matchedPools (pc_tokenA c) (pc_tokenB c) (afterDbCalls 1 w)).
    destruct (try_catch_returns
                (RateLimiter.wait ;;;
                 r <- RetryHelper.withBackoff Env.setTimeout
                        (LegacyServer.fetchDefiLlamaAPY_fn (pc_tokenA c) (pc_tokenB c)) 3 ;;
                 ret (match r with Some v => v | None => None end)) None (afterDbCalls 1 w))
      as [d Hd].
    change (fst (LegacyServer.fetchDefiLlamaAPY (pc_tokenA c) (pc_tokenB c) (afterDbCalls 1 w))
            = Ok d) in Hd.
    destruct (LegacyServer.fetchDefiLlamaAPY (pc_tokenA c) (pc_tokenB c) (afterDbCalls 1 w))
      as [r1 w1].
    cbn [fst snd] in *. subst r1. unfold db in SD. cbn [pools events afterDbCalls] in SD.
    injection SD as SP SE. cbn [dbFaults afterDbCalls] in SF.
    rewrite try_bind_run.
    match goal with
    | |- context [Prisma.pool_create ?data w1] =>
        destruct (pool_create_events data w1) as [GE GM];
        pose proof (pool_create_run data a sg w1 eq_refl Hsg) as PC;
        pose proof (pool_create_invalid data w1) as PI
    end.
    cbn [Prisma.c_timestamp Prisma.validTimestamp Prisma.timestampColumn] in PC, PI.
    split.
    + destruct (Prisma.pool_create _ w1) as [[row|e] w2];
        unfold try_catch_async, bind, Env.Date_now, Env.appendFile_matched_pools, ret;
        cbn [fst snd events] in *; congruence.
    + split; [intros Hin; contradiction|].
      intros N1 N2 HF2. destruct (pc_timestamp c) as [ms|].
      * destruct (PC eq_refl) as (row & E1 & E2 & E3 & E4 & E5 & E6 & E7 & E8 & E9 & E10 & E11 & _).
        { rewrite SF. destruct (dbFaults w) as [|f l]; exact HF2. }
        { unfold poolAddresses in *. rewrite SP. exact N1. }
        { rewrite SP. exact N2. }
        destruct (Prisma.pool_create _ w1) as [r2 w2]. cbn [fst snd] in *. subst r2.
        unfold try_catch_async, bind, Env.Date_now, Env.appendFile_matched_pools, ret.
        cbn [fst snd pools matchedPools]. exists row. eexists.
        split; [reflexivity|]. split; [rewrite E2, SP; reflexivity|].
        split; [exact E4|]. split; [exact E5|]. split; [exact E6|]. split; [exact E7|].
        split; [exact E8|]. split; [exact E11|].
        split; [rewrite GM, SM; reflexivity|].
        cbn [mp_poolAddress mp_apy mp_tvl]. rewrite E9, E10. repeat split.
      * destruct (PI eq_refl) as [e PE]. rewrite PE.
        cbn [fst snd]. repeat split; [exact SP | exact SM].
Qed.

Lemma legacy_save_persists_whatever_the_yield_service_does_witness :
  exists p,
    fst (LegacyServer.savePoolToDatabase exampleCandidate yieldServiceDown) = Ok (Some p) /\
    pools (snd (LegacyServer.savePoolToDatabase exampleCandidate yieldServiceDown)) = [p] /\
    pool_poolAddress p = "PoolAcct" /\
    pool_timestamp p = Some 1700000000000%Z /\
    events (snd (LegacyServer.savePoolToDatabase exampleCandidate yieldServiceDown)) = [].
Proof.
  destruct (legacy_save_persists_whatever_the_yield_service_does
              exampleCandidate "PoolAcct" "sig1" yieldServiceDown eq_refl eq_refl eq_refl)
    as (HE & _ & HN).
  destruct (HN (fun H => H) (fun H => H) eq_refl)
    as (p & entry & H1 & H2 & H3 & _ & _ & _ & _ & H4 & _).
  exists p. split; [exact H1|]. split; [exact H2|]. split; [exact H3|].
  split; [exact H4 | exact HE].
Defined.

End LegacySave.

(* ------------------------------------------------------------------ *)
(** ** [fetchDefiLlamaAPY] of the single-file server *)

Section LegacyApy.

Local Open Scope Q_scope.

(** The reducer, started at the first pool, ends on a pool of the list
    whose APY no other exceeds. *)
Lemma fold_legacy_betterApy (l : list LlamaPool) (first : LlamaPool) :
  In (fold_left LegacyServer.betterApy l first) (first :: l) /\
  (forall p, In p (first :: l) ->
             num_or (lp_apy p) 0 <= num_or (lp_apy (fold_left LegacyServer.betterApy l first)) 0).
Proof.
  revert first. induction l as [|x l IH]; intros first.
  - cbn [fold_left]. split; [now left|]. intros p [<-|[]]. apply Qle_refl.
  - cbn [fold_left]. unfold LegacyServer.betterApy at 2 4.
    destruct (num_gt (num_or (lp_apy x) 0) (num_or (lp_apy first) 0)) eqn:E.
    + apply num_gt_lt in E. destruct (IH x) as [H1 H2]. split.
      * right. exact H1.
      * intros p [<-|Hp]; [|exact (H2 p Hp)].
        eapply Qle_trans; [apply Qlt_le_weak; exact E | apply H2; now left].
    + apply num_gt_le in E. destruct (IH first) as [H1 H2]. split.
      * destruct H1 as [H1|H1]; [now left | right; now right].
      * intros p [<-|[<-|Hp]]; [apply H2; now left | | apply H2; now right].
        eapply Qle_trans; [exact E | apply H2; now left].
Qed.

(** One answered attempt of the operation handed to [retryWithBackoff]. *)
Lemma fetchDefiLlamaAPY_fn_answered (tokenA tokenB : string) (w : World)
      (resp : Response LlamaBody) (body : LlamaBody) (rest : list (option (Response LlamaBody))) :
  llamaResponses w = Some resp :: rest ->
  resp_ok resp = true ->
  resp_json resp = Some body ->
  exists r,
    LegacyServer.fetchDefiLlamaAPY_fn tokenA tokenB w = (Ok r, snd (Env.fetch_llama w)) /\
    r = match filter (LegacyServer.matchesPair tokenA tokenB)
                     (match lb_data body with Some l => l | None => [] end) with
        | first :: others =>
            let bestPool := fold_left LegacyServer.betterApy others first in
            Some {| LegacyServer.apy := num_or (lp_apy bestPool) 0;
                    LegacyServer.tvl := num_or (lp_tvlUsd bestPool) 0;
                    LegacyServer.protocol := or_default (lp_project bestPool) "Unknown" |}
        | [] => None
        end.
Proof.
  intros HL HO HJ. unfold LegacyServer.fetchDefiLlamaAPY_fn, bind at 1, Env.fetch_llama.
  rewrite HL. cbn [fst snd]. rewrite HO. cbn [negb]. unfold bind, Env.json. rewrite HJ.
  unfold ret. cbn [fst snd].
  destruct (lb_data body) as [l|];
    [destruct (filter (LegacyServer.matchesPair tokenA tokenB) l) as [|first others]|];
    eexists; split; reflexivity.
Qed.

(** X19.  [fetchDefiLlamaAPY] of the single-file server, when the yield
    service answers the first request with a listing: it never throws and
    asks once.  It returns [null] when no pool of the listing is on Solana
    with both token names in its symbol; otherwise it reports such a pool,
    with zero for a missing APY or TVL and ['Unknown'] for a missing
    project, and no matching pool has a higher APY than the one reported. *)
Theorem legacy_fetchDefiLlamaAPY_reports_highest_of_the_pair
        (tokenA tokenB : string) (w : World)
        (resp : Response LlamaBody) (body : LlamaBody) (rest : list (option (Response LlamaBody))) :
  llamaResponses w = Some resp :: rest ->
  resp_ok resp = true ->
  resp_json resp = Some body ->
  let matching := filter (LegacyServer.matchesPair tokenA tokenB)
                         (match lb_data body with Some l => l | None => [] end) in
  llamaResponses (snd (LegacyServer.fetchDefiLlamaAPY tokenA tokenB w)) = rest /\
  db (snd (LegacyServer.fetchDefiLlamaAPY tokenA tokenB w)) = db w /\
  match fst (LegacyServer.fetchDefiLlamaAPY tokenA tokenB w) with
  | Ok None => matching = []
  | Ok (Some d) =>
      exists best,
        In best matching /\
        LegacyServer.apy d = num_or (lp_apy best) 0 /\
        LegacyServer.tvl d = num_or (lp_tvlUsd best) 0 /\
        LegacyServer.protocol d = or_default (lp_project best) "Unknown" /\
        (forall p, In p matching -> num_or (lp_apy p) 0 <= LegacyServer.apy d)
  | Throw _ => False
  end.
Proof.
  intros HL HO HJ matching.
  unfold LegacyServer.fetchDefiLlamaAPY. rewrite try_bind_run.
  destruct (wait_effect w) as (W1 & _).
  pose proof (wait_SameLlama w) as W2. pose proof (wait_SameDb w) as W3.
  destruct (RateLimiter.wait w) as [r0 w0]. cbn [fst snd] in *. subst r0.
  unfold SameLlama in W2. rewrite <- W2 in HL.
  destruct (fetchDefiLlamaAPY_fn_answered tokenA tokenB w0 resp body rest HL HO HJ)
    as (r & ER & Hr).
  assert (EB : RetryHelper.withBackoff Env.setTimeout
                 (LegacyServer.fetchDefiLlamaAPY_fn tokenA tokenB) 3 w0
               = (Ok (Some r), snd (Env.fetch_llama w0)))
    by (unfold RetryHelper.withBackoff; apply withBackoff_loop_ok; exact ER).
  rewrite try_bind_run, EB. unfold try_catch_async, ret. cbn [fst snd].
  assert (F1 : llamaResponses (snd (Env.fetch_llama w0)) = rest)
    by (unfold Env.fetch_llama; rewrite HL; reflexivity).
  assert (F2 : db (snd (Env.fetch_llama w0)) = db w0)
    by (unfold Env.fetch_llama; destruct (llamaResponses w0) as [|[x|] l]; reflexivity).
  split; [exact F1|]. split; [rewrite F2; unfold SameDb in W3; congruence|].
  subst r. fold matching. destruct matching as [|first others] eqn:EM; [reflexivity|].
  cbv zeta. destruct (fold_legacy_betterApy others first) as [H1 H2].
  exists (fold_left LegacyServer.betterApy others first).
  cbn [LegacyServer.apy LegacyServer.tvl LegacyServer.protocol].
  split; [exact H1|]. repeat split; try reflexivity. exact H2.
Qed.

Lemma legacy_fetchDefiLlamaAPY_reports_highest_of_the_pair_witness :
  llamaResponses (snd (LegacyServer.fetchDefiLlamaAPY "TokenA..." "USDC" listingUp)) = [] /\
  db (snd (LegacyServer.fetchDefiLlamaAPY "TokenA..." "USDC" listingUp)) = db listingUp /\
  match fst (LegacyServer.fetchDefiLlamaAPY "TokenA..." "USDC" listingUp) with
  | Ok None =>
      filter (LegacyServer.matchesPair "TokenA..." "USDC") sampleListing = []
  | Ok (Some d) =>
      exists best,
        In best (filter (LegacyServer.matchesPair "TokenA..." "USDC") sampleListing) /\
        LegacyServer.apy d = num_or (lp_apy best) 0 /\
        LegacyServer.tvl d = num_or (lp_tvlUsd best) 0 /\
        LegacyServer.protocol d = or_default (lp_project best) "Unknown" /\
        (forall p, In p (filter (LegacyServer.matchesPair "TokenA..." "USDC") sampleListing) ->
                   num_or (lp_apy p) 0 <= LegacyServer.apy d)
  | Throw _ => False
  end.
Proof.
  exact (legacy_fetchDefiLlamaAPY_reports_highest_of_the_pair
           "TokenA..." "USDC" listingUp _ _ _ eq_refl eq_refl eq_refl).
Defined.

End LegacyApy.
